(** * The shop database layer of [database.py]

    A shallow embedding of the SQLAlchemy persistence layer: the seven
    mapped tables, the scoped session with its commit / rollback
    discipline, and the public functions that the bot calls
    ([add_to_cart_db], [create_order], [get_order_details],
    [import_products], ...), followed by the properties of the cart to
    order conversion and of the catalogue import. *)

From Stdlib Require Import ZArith List String Floats Lia Bool.
From Stdlib Require OrdersEx.
Import ListNotations.

Local Open Scope string_scope.
Local Open Scope list_scope.
Local Open Scope Z_scope.

(** ** Mapped classes (database.py, lines 15-74)

    One record per mapped class, one field per [Column].  Integer
    columns are Python integers ([Z]); [Float] columns are IEEE binary64
    numbers ([float]); [username], which the module itself leaves
    [None], is an [option].  The other columns hold the values the
    functions of the module are called with: a caller that passes [None]
    for one of them is outside this model. *)

Module User.
Record t := mk
  { id : Z; telegram_id : Z; username : option string; is_admin : bool }.
End User.

Module Category.
Record t := mk { id : Z; name : string }.
End Category.

Module Product.
Record t := mk
  { id : Z; name : string; description : string; price : float;
    image_path : string; category_id : Z }.
End Product.

Module Cart.
Record t := mk { id : Z; user_id : Z }.
End Cart.

Module CartItem.
Record t := mk { id : Z; cart_id : Z; product_id : Z; quantity : Z }.
End CartItem.

Module Order.
Record t := mk { id : Z; user_id : Z; created_at : Z }.
End Order.

Module OrderItem.
Record t := mk
  { id : Z; order_id : Z; product_id : Z; quantity : Z; price : float }.
End OrderItem.

(** ** The database

    The content of [shop.db]: each table is the list of its rows in
    rowid order, which is the order in which SQLite scans a table and
    therefore the order that decides what [.first()] returns. *)

Record Store := mkStore
  { users : list User.t;
    categories : list Category.t;
    products : list Product.t;
    carts : list Cart.t;
    cart_items : list CartItem.t;
    orders : list Order.t;
    order_items : list OrderItem.t }.

(** [Base.metadata.create_all(engine)] on a fresh file: seven empty tables. *)
Definition empty_store : Store := mkStore [] [] [] [] [] [] [].

(** A mapped class as the session sees it: how to read and replace its
    table in the database and which column is the primary key. *)
Record Table (R : Type) := mkTable
  { rows : Store -> list R;
    with_rows : list R -> Store -> Store;
    pk : R -> Z }.

Arguments rows {R} _ _.
Arguments with_rows {R} _ _ _.
Arguments pk {R} _ _.

Definition TUser : Table User.t :=
  mkTable _ users
    (fun l s => mkStore l (categories s) (products s) (carts s)
                        (cart_items s) (orders s) (order_items s))
    User.id.

Definition TCategory : Table Category.t :=
  mkTable _ categories
    (fun l s => mkStore (users s) l (products s) (carts s)
                        (cart_items s) (orders s) (order_items s))
    Category.id.

Definition TProduct : Table Product.t :=
  mkTable _ products
    (fun l s => mkStore (users s) (categories s) l (carts s)
                        (cart_items s) (orders s) (order_items s))
    Product.id.

Definition TCart : Table Cart.t :=
  mkTable _ carts
    (fun l s => mkStore (users s) (categories s) (products s) l
                        (cart_items s) (orders s) (order_items s))
    Cart.id.

Definition TCartItem : Table CartItem.t :=
  mkTable _ cart_items
    (fun l s => mkStore (users s) (categories s) (products s) (carts s)
                        l (orders s) (order_items s))
    CartItem.id.

Definition TOrder : Table Order.t :=
  mkTable _ orders
    (fun l s => mkStore (users s) (categories s) (products s) (carts s)
                        (cart_items s) l (order_items s))
    Order.id.

Definition TOrderItem : Table OrderItem.t :=
  mkTable _ order_items
    (fun l s => mkStore (users s) (categories s) (products s) (carts s)
                        (cart_items s) (orders s) l)
    OrderItem.id.

(** The rowid SQLite gives to a row inserted without an explicit
    [INTEGER PRIMARY KEY]: one more than the largest rowid in the table,
    and 1 in an empty table. *)
Definition next_id (ids : list Z) : Z := 1 + fold_right Z.max 0 ids.

(** ** The session

    [Session = scoped_session(session_factory)] hands every caller of one
    thread the same session.  Its state is the committed content of the
    database, the content as seen inside the open transaction, and the
    failures the database is going to answer with: the n-th round trip
    to the database raises when the n-th element of [faults] is [true]
    (an exhausted list means the database answers from then on). *)

Record Sess := mkSess
  { committed : Store; working : Store; faults : list bool }.

(** The exceptions that can cross the functions of the module. *)
Inductive exn : Type :=
| OperationalError                 (* the database refused a round trip *)
| ValueError (product_id : Z)      (* line 223: product not found *)
| AttributeError                   (* attribute access on [None] *)
| FileNotFoundError                (* [open] on a missing file *)
| JSONDecodeError.                 (* [json.load] on malformed content *)

Inductive res (A : Type) : Type :=
| Ok (a : A) (st : Sess)
| Raise (e : exn) (st : Sess).

Arguments Ok {A} _ _.
Arguments Raise {A} _ _.

Definition Session (A : Type) : Type := Sess -> res A.

Definition ret {A} (a : A) : Session A := fun st => Ok a st.

Definition bind {A B} (m : Session A) (k : A -> Session B) : Session B :=
  fun st =>
    match m st with
    | Ok a st' => k a st'
    | Raise e st' => Raise e st'
    end.

Definition raise {A} (e : exn) : Session A := fun st => Raise e st.

Declare Scope session_scope.
Delimit Scope session_scope with session.
Bind Scope session_scope with Session.

Notation "x <- m ;; k" := (bind m (fun x => k))
  (at level 61, m at next level, right associativity) : session_scope.
Notation "m ;; k" := (bind m (fun _ => k))
  (at level 61, right associativity) : session_scope.

Local Open Scope session_scope.

(** [try: body except Exception as e: handler(e)] *)
Definition try_except {A} (body : Session A) (handler : exn -> Session A)
  : Session A :=
  fun st =>
    match body st with
    | Ok a st' => Ok a st'
    | Raise e st' => handler e st'
    end.

(** [try: body finally: fin] *)
Definition try_finally {A} (body : Session A) (fin : Session unit)
  : Session A :=
  fun st =>
    match body st with
    | Ok a st' => (fin ;; ret a) st'
    | Raise e st' => (fin ;; raise e) st'
    end.

(** One round trip to the database; it raises when the database says so. *)
Definition roundtrip : Session unit :=
  fun st =>
    match faults st with
    | [] => Ok tt st
    | b :: fs =>
        let st' := mkSess (committed st) (working st) fs in
        if b then Raise OperationalError st' else Ok tt st'
    end.

Definition modify (f : Store -> Store) : Session unit :=
  fun st => Ok tt (mkSess (committed st) (f (working st)) (faults st)).

(** [session.query(T).filter_by(...).first()] *)
Definition query_first {R} (T : Table R) (p : R -> bool)
  : Session (option R) :=
  roundtrip ;; fun st => Ok (find p (rows T (working st))) st.

(** [session.query(T).filter_by(...).all()] *)
Definition query_all {R} (T : Table R) (p : R -> bool) : Session (list R) :=
  roundtrip ;; fun st => Ok (filter p (rows T (working st))) st.

(** [session.query(T).filter_by(...).delete()] *)
Definition query_delete {R} (T : Table R) (p : R -> bool) : Session unit :=
  roundtrip ;;
  modify (fun w => with_rows T (filter (fun r => negb (p r)) (rows T w)) w).

(** [session.add(T(...))].  The session is made by [sessionmaker] with its
    default [autoflush=True], so a pending row is written before every
    later read of the transaction: the row is placed in the transaction
    at once, with the primary key the insert gives it. *)
Definition add {R} (T : Table R) (new : Z -> R) : Session R :=
  fun st =>
    let w := working st in
    let r := new (next_id (map (pk T) (rows T w))) in
    Ok r (mkSess (committed st) (with_rows T (rows T w ++ [r]) w) (faults st)).

(** Assignment to the attributes of a loaded row: the row with that
    primary key is rewritten. *)
Definition update {R} (T : Table R) (key : Z) (f : R -> R) : Session unit :=
  modify (fun w =>
    with_rows T (map (fun r => if pk T r =? key then f r else r) (rows T w)) w).

(** [session.flush()] *)
Definition flush : Session unit := roundtrip.

(** [session.commit()] *)
Definition commit : Session unit :=
  roundtrip ;;
  fun st => Ok tt (mkSess (working st) (working st) (faults st)).

(** [session.rollback()] *)
Definition rollback : Session unit :=
  fun st => Ok tt (mkSess (committed st) (committed st) (faults st)).

(** [session.close()]: what the transaction has not committed is dropped. *)
Definition close : Session unit := rollback.

(** Lines 81-91. *)
Definition session_scope {A} (body : Session A) : Session A :=
  try_finally
    (try_except
       (a <- body ;; commit ;; ret a)
       (fun e => rollback ;; raise e))
    close.

(** [for x in xs: body(x)] *)
Fixpoint for_each {A} (xs : list A) (body : A -> Session unit)
  : Session unit :=
  match xs with
  | [] => ret tt
  | x :: xs' => body x ;; for_each xs' body
  end.

(** [[f(x) for x in xs]] *)
Fixpoint list_comp {A B} (xs : list A) (f : A -> Session B)
  : Session (list B) :=
  match xs with
  | [] => ret []
  | x :: xs' => y <- f x ;; ys <- list_comp xs' f ;; ret (y :: ys)
  end.

(** A call of one of the module's functions by the bot: it finds the
    session with nothing pending, and leaves the database in the state
    the session committed last. *)
Inductive outcome (A : Type) : Type :=
| Returned (a : A)
| Raised (e : exn).

Arguments Returned {A} _.
Arguments Raised {A} _.

Definition call {A} (m : Session A) (fs : list bool) (s : Store)
  : outcome A * Store :=
  match m (mkSess s s fs) with
  | Ok a st => (Returned a, committed st)
  | Raise e st => (Raised e, committed st)
  end.

(** ** Python values *)

(** Truth value of an optional string: [None] and the empty string are
    false. *)
Definition truthy (s : option string) : bool :=
  match s with
  | Some (String _ _) => true
  | _ => false
  end.

(** [float(n)] for a Python integer, as the mixed product
    [item.price * item.quantity] converts its integer operand: the
    nearest binary64 number, ties to even.  (Integers read back from an
    SQLite [INTEGER] column fit 64 bits, far from the range where the
    conversion overflows.) *)
Definition float_of_int (n : Z) : float :=
  SF2Prim (binary_normalize prec emax n 0 false).

(** [s.endswith(suffix)] *)
Definition endswith (suffix s : string) : bool :=
  let n := String.length s in
  let k := String.length suffix in
  (k <=? n)%nat && String.eqb (substring (n - k) k s) suffix.

(** [max(xs)] on a non-empty list of strings [x :: xs]: the first of the
    largest elements in code point order (strings are kept as their
    UTF-8 bytes, whose order is the order of the code points). *)
Definition max_str (x : string) (xs : list string) : string :=
  fold_left (fun m f => if String.ltb m f then f else m) xs x.

(** Loading a relationship attribute ([item.product], [order.user]): the
    row of the target table whose primary key is the foreign key, or
    [None]. *)
Definition lazy_load {R} (T : Table R) (key : Z) : Session (option R) :=
  query_first T (fun r => pk T r =? key).

(** Attribute access on the result: [None.attr] raises. *)
Definition getattr {R A} (o : option R) (attr : R -> A) : Session A :=
  match o with
  | Some r => ret (attr r)
  | None => raise AttributeError
  end.

(** ** Users and products (lines 125-185) *)

Definition add_user (telegram_id : Z) (is_admin : bool)
  (username : option string) : Session unit :=
  session_scope (
    user <- query_first TUser (fun u => User.telegram_id u =? telegram_id) ;;
    match user with
    | None =>
        _ <- add TUser (fun i => User.mk i telegram_id username is_admin) ;;
        ret tt
    | Some user =>
        update TUser (User.id user) (fun u =>
          User.mk (User.id u) (User.telegram_id u)
            (if truthy username then username else User.username u)
            is_admin)
    end).

Definition add_product (name description : string) (price : float)
  (category_name image_path : string) : Session unit :=
  session_scope (
    category <- query_first TCategory
                  (fun c => String.eqb (Category.name c) category_name) ;;
    match category with
    | Some category =>
        _ <- add TProduct (fun i =>
               Product.mk i name description price image_path
                 (Category.id category)) ;;
        ret tt
    | None => ret tt
    end).

(** ** The cart (lines 202-281) *)

Definition add_to_cart_db (user_id product_id : Z) : Session unit :=
  session_scope (
    try_except (
      user <- query_first TUser (fun u => User.telegram_id u =? user_id) ;;
      user <- match user with
              | Some user => ret user
              | None =>
                  user <- add TUser (fun i => User.mk i user_id None false) ;;
                  flush ;;
                  ret user
              end ;;
      cart <- query_first TCart (fun c => Cart.user_id c =? User.id user) ;;
      cart <- match cart with
              | Some cart => ret cart
              | None =>
                  cart <- add TCart (fun i => Cart.mk i (User.id user)) ;;
                  flush ;;
                  ret cart
              end ;;
      product <- query_first TProduct (fun p => Product.id p =? product_id) ;;
      match product with
      | None => raise (ValueError product_id)
      | Some _ =>
          cart_item <- query_first TCartItem (fun i =>
                         (CartItem.cart_id i =? Cart.id cart)
                         && (CartItem.product_id i =? product_id)) ;;
          match cart_item with
          | Some cart_item =>
              update TCartItem (CartItem.id cart_item) (fun i =>
                CartItem.mk (CartItem.id i) (CartItem.cart_id i)
                  (CartItem.product_id i) (CartItem.quantity cart_item + 1))
          | None =>
              _ <- add TCartItem (fun i =>
                     CartItem.mk i (Cart.id cart) product_id 1) ;;
              ret tt
          end ;;
          commit
      end)
      (fun e => rollback ;; raise e)).

Module CartLine.
Record t := mk
  { id : Z; product_id : Z; quantity : Z; name : string; price : float }.
End CartLine.

Definition get_cart_items (user_id : Z) : Session (list CartLine.t) :=
  session_scope (
    user <- query_first TUser (fun u => User.telegram_id u =? user_id) ;;
    match user with
    | None => ret []
    | Some user =>
        cart <- query_first TCart (fun c => Cart.user_id c =? User.id user) ;;
        match cart with
        | None => ret []
        | Some cart =>
            items <- query_all TCartItem
                       (fun i => CartItem.cart_id i =? Cart.id cart) ;;
            list_comp items (fun item =>
              product <- lazy_load TProduct (CartItem.product_id item) ;;
              name <- getattr product Product.name ;;
              price <- getattr product Product.price ;;
              ret (CartLine.mk (CartItem.id item) (CartItem.product_id item)
                     (CartItem.quantity item) name price))
        end
    end).

Definition clear_cart (user_id : Z) : Session bool :=
  session_scope (
    user <- query_first TUser (fun u => User.telegram_id u =? user_id) ;;
    match user with
    | None => ret false
    | Some user =>
        cart <- query_first TCart (fun c => Cart.user_id c =? User.id user) ;;
        match cart with
        | None => ret false
        | Some cart =>
            query_delete TCartItem
              (fun i => CartItem.cart_id i =? Cart.id cart) ;;
            ret true
        end
    end).

(** ** Orders (lines 283-335)

    [created_at] defaults to [datetime.now]: the reading of the clock at
    the insert is the argument [now]. *)

Definition create_order (now : Z) (user_id : Z) : Session (option Z) :=
  session_scope (
    user <- query_first TUser (fun u => User.telegram_id u =? user_id) ;;
    match user with
    | None => ret None
    | Some user =>
        cart <- query_first TCart (fun c => Cart.user_id c =? User.id user) ;;
        match cart with
        | None => ret None
        | Some cart =>
            items <- query_all TCartItem
                       (fun i => CartItem.cart_id i =? Cart.id cart) ;;
            match items with
            | [] => ret None
            | _ :: _ =>
                order <- add TOrder (fun i => Order.mk i (User.id user) now) ;;
                flush ;;
                for_each items (fun item =>
                  product <- lazy_load TProduct (CartItem.product_id item) ;;
                  price <- getattr product Product.price ;;
                  _ <- add TOrderItem (fun i =>
                         OrderItem.mk i (Order.id order)
                           (CartItem.product_id item)
                           (CartItem.quantity item) price) ;;
                  ret tt) ;;
                query_delete TCartItem
                  (fun i => CartItem.cart_id i =? Cart.id cart) ;;
                ret (Some (Order.id order))
            end
        end
    end).

Module OrderLine.
Record t := mk { name : string; quantity : Z; price : float }.
End OrderLine.

Module OrderDetails.
Record t := mk
  { order_id : Z; user_id : Z; username : string;
    items : list OrderLine.t; total : float }.
End OrderDetails.

(** The builtin [sum] on floating-point numbers: the additions from left
    to right, starting from 0, each rounded to binary64.  (This is the
    sum of CPython up to 3.11; from 3.12 on the builtin also carries a
    compensation for the rounding errors of the additions, which is zero
    when the additions are exact, as they are in the example scenario.) *)
Definition py_sum (xs : list float) : float :=
  fold_left (fun acc x => (acc + x)%float) xs 0%float.

(** [sum(item.price * item.quantity for item in items)] *)
Definition order_total (items : list OrderItem.t) : float :=
  py_sum
    (map (fun item =>
            (OrderItem.price item
             * float_of_int (OrderItem.quantity item))%float)
         items).

Definition get_order_details (order_id : Z)
  : Session (option OrderDetails.t) :=
  session_scope (
    order <- query_first TOrder (fun o => Order.id o =? order_id) ;;
    match order with
    | None => ret None
    | Some order =>
        items <- query_all TOrderItem
                   (fun i => OrderItem.order_id i =? order_id) ;;
        user <- lazy_load TUser (Order.user_id order) ;;
        telegram_id <- getattr user User.telegram_id ;;
        username <- getattr user User.username ;;
        lines <- list_comp items (fun item =>
                   product <- lazy_load TProduct (OrderItem.product_id item) ;;
                   name <- getattr product Product.name ;;
                   ret (OrderLine.mk name (OrderItem.quantity item)
                          (OrderItem.price item))) ;;
        ret (Some (OrderDetails.mk (Order.id order) telegram_id
                     (match username with
                      | Some (String c n) => ("@" ++ String c n)%string
                      | _ => "Не указан"
                      end)
                     lines (order_total items)))
    end).

(** ** Catalogue import (lines 372-422)

    The files of the backup directory are what the import reads and
    never writes.  A snapshot is what [json.load] returns for a file that
    [export_products] wrote: an array of objects with the five keys
    [name], [description], [price], [category] and [image_path]. *)

Module ProductData.
Record t := mk
  { name : string; description : string; price : float;
    category : string; image_path : string }.
End ProductData.

Inductive load_result : Type :=
| NoSuchFile                                (* [open] raises *)
| Malformed                                 (* [json.load] raises *)
| Parsed (products_data : list ProductData.t).

Record FileSystem := mkFS
  { backups : option (list string);         (* [os.listdir('backups')],
                                               [None] without the directory *)
    load : string -> load_result }.

(** Lines 376-386: the file to read; [None] stands for the two early
    [return False]. *)
Definition choose_backup (fs : FileSystem) (backup_file : option string)
  : option string :=
  if truthy backup_file then backup_file
  else
    match backups fs with
    | None => None
    | Some names =>
        match filter (fun f => prefix "products_" f && endswith ".json" f)
                     names with
        | [] => None
        | f :: backup_files => Some ("backups/" ++ max_str f backup_files)%string
        end
    end.

(** Lines 389-390. *)
Definition json_load (fs : FileSystem) (path : string)
  : Session (list ProductData.t) :=
  match load fs path with
  | NoSuchFile => raise FileNotFoundError
  | Malformed => raise JSONDecodeError
  | Parsed products_data => ret products_data
  end.

(** Lines 394-415: the body of the loop. *)
Definition import_entry (product_data : ProductData.t) : Session unit :=
  category <- query_first TCategory (fun c =>
                String.eqb (Category.name c)
                           (ProductData.category product_data)) ;;
  match category with
  | None => ret tt
  | Some category =>
      existing_product <-
        query_first TProduct (fun p =>
          String.eqb (Product.name p) (ProductData.name product_data)
          && (Product.category_id p =? Category.id category)) ;;
      match existing_product with
      | Some _ => ret tt
      | None =>
          _ <- add TProduct (fun i =>
                 Product.mk i (ProductData.name product_data)
                   (ProductData.description product_data)
                   (ProductData.price product_data)
                   (ProductData.image_path product_data)
                   (Category.id category)) ;;
          ret tt
      end
  end.

(** Lines 392-419: the transaction of the import. *)
Definition import_snapshot (products_data : list ProductData.t)
  : Session bool :=
  session_scope (
    for_each products_data import_entry ;;
    commit ;;
    ret true).

Definition import_products (fs : FileSystem) (backup_file : option string)
  : Session bool :=
  try_except
    (match choose_backup fs backup_file with
     | None => ret false
     | Some backup_file =>
         products_data <- json_load fs backup_file ;;
         import_snapshot products_data
     end)
    (fun _ => ret false).

(** ** Initialisation (lines 93-122)

    [admin_id] is the first number of the [ADMIN_IDS] environment
    variable. *)

Definition seed_categories : list string :=
  [ "💨 Жижа"; "🚬 Одноразки"; "🔋 Под системы"; "🍫 Снюс"; "🛠 Аксессуары" ].

Definition init_db (admin_id : Z) (fs : FileSystem) : Session unit :=
  session_scope (
    for_each seed_categories (fun category_name =>
      existing <- query_first TCategory
                    (fun c => String.eqb (Category.name c) category_name) ;;
      match existing with
      | Some _ => ret tt
      | None =>
          _ <- add TCategory (fun i => Category.mk i category_name) ;;
          ret tt
      end) ;;
    (if admin_id =? 0 then ret tt
     else
       admin <- query_first TUser (fun u => User.telegram_id u =? admin_id) ;;
       match admin with
       | Some _ => ret tt
       | None =>
           _ <- add TUser (fun i => User.mk i admin_id None true) ;;
           ret tt
       end) ;;
    commit ;;
    _ <- import_products fs None ;;
    ret tt).

(** ** The states the bot can bring the database to

    The functions that write, with their arguments; a history is any
    sequence of such calls, each under any behaviour of the database,
    from the freshly created tables. *)

Inductive api_call : Type :=
| InitDb (admin_id : Z) (fs : FileSystem)
| AddUser (telegram_id : Z) (is_admin : bool) (username : option string)
| AddProduct (name description : string) (price : float)
    (category_name image_path : string)
| AddToCart (user_id product_id : Z)
| ClearCart (user_id : Z)
| CreateOrder (now user_id : Z)
| ImportProducts (fs : FileSystem) (backup_file : option string).

Definition exec (c : api_call) (fs : list bool) (s : Store) : Store :=
  match c with
  | InitDb a f => snd (call (init_db a f) fs s)
  | AddUser t a u => snd (call (add_user t a u) fs s)
  | AddProduct n d p c i => snd (call (add_product n d p c i) fs s)
  | AddToCart u p => snd (call (add_to_cart_db u p) fs s)
  | ClearCart u => snd (call (clear_cart u) fs s)
  | CreateOrder n u => snd (call (create_order n u) fs s)
  | ImportProducts f b => snd (call (import_products f b) fs s)
  end.

Inductive reachable : Store -> Prop :=
| reach_fresh : reachable empty_store
| reach_call s c fs : reachable s -> reachable (exec c fs s).

(** ** Judgements on sessions

    A weakest-precondition calculus for [Session] programs.  Conditions
    speak of the committed and the working content of the database, not
    of the pending failures, and every judgement is made once for the two
    behaviours of the database: one that may refuse any round trip
    ([faulty = true]) and one that answers them all ([faulty = false],
    the plan of failures is empty). *)

Definition assertion : Type := Store -> Store -> Prop.

Definition plan_ok (faulty : bool) (fs : list bool) : Prop :=
  faulty = false -> fs = [].

Definition wp (faulty : bool) {A} (m : Session A) (Q : A -> assertion)
  (E : exn -> assertion) : assertion :=
  fun c w =>
    forall fs, plan_ok faulty fs ->
      match m (mkSess c w fs) with
      | Ok a st =>
          plan_ok faulty (faults st) /\ Q a (committed st) (working st)
      | Raise e st =>
          plan_ok faulty (faults st) /\ E e (committed st) (working st)
      end.

(** ** Vocabulary of the statements

    The rows that lines 286-294 (and 249-257, 272-280) resolve from the
    external user id: the user, the user's cart, and the items of that
    cart. *)

Definition user_of (s : Store) (user_id : Z) : option User.t :=
  find (fun u => User.telegram_id u =? user_id) (users s).

Definition cart_of (s : Store) (user_id : Z) : option Cart.t :=
  match user_of s user_id with
  | Some user => find (fun c => Cart.user_id c =? User.id user) (carts s)
  | None => None
  end.

Definition cart_rows (s : Store) (user_id : Z) : list CartItem.t :=
  match cart_of s user_id with
  | Some cart =>
      filter (fun i => CartItem.cart_id i =? Cart.id cart) (cart_items s)
  | None => []
  end.

Definition product_of (s : Store) (product_id : Z) : option Product.t :=
  find (fun p => Product.id p =? product_id) (products s).

Definition category_of (s : Store) (name : string) : option Category.t :=
  find (fun c => String.eqb (Category.name c) name) (categories s).

(** ** The content of a cart *)

(** The cart of the user holds exactly one item: the product, in the
    given quantity. *)
Definition cart_holds (s : Store) (user_id product_id quantity : Z) : Prop :=
  exists cart id,
    cart_of s user_id = Some cart
    /\ cart_rows s user_id
       = [CartItem.mk id (Cart.id cart) product_id quantity].

(** The line of [get_cart_items] for a cart item: the item, with the
    name and the current price of its product. *)
Definition cart_line_of (s : Store) (item : CartItem.t) (line : CartLine.t)
  : Prop :=
  CartLine.id line = CartItem.id item
  /\ CartLine.product_id line = CartItem.product_id item
  /\ CartLine.quantity line = CartItem.quantity item
  /\ exists product,
       product_of s (CartItem.product_id item) = Some product
       /\ CartLine.name line = Product.name product
       /\ CartLine.price line = Product.price product.

(** [n] calls of [add_to_cart_db] in a row, the database answering. *)
Definition add_to_cart_times (n : nat) (user_id product_id : Z) (s : Store)
  : Store :=
  Nat.iter n (exec (AddToCart user_id product_id) []) s.

(** ** Conversion of a cart (lines 298-311)

    The order item that lines 303-308 build for one cart item, up to the
    primary key the insert gives it: order, product and quantity are
    those of the cart item and the price is the price that the product
    has in the database [s]. *)
Definition snapshot_of (s : Store) (order_id : Z) (item : CartItem.t)
  (order_item : OrderItem.t) : Prop :=
  OrderItem.order_id order_item = order_id
  /\ OrderItem.product_id order_item = CartItem.product_id item
  /\ OrderItem.quantity order_item = CartItem.quantity item
  /\ exists product,
       product_of s (CartItem.product_id item) = Some product
       /\ OrderItem.price order_item = Product.price product.

(** The database after the conversion of [cart]: one more order, the
    order items [new], and no cart item of that cart. *)
Definition converted (s : Store) (now : Z) (user : User.t) (cart : Cart.t)
  (new : list OrderItem.t) : Store :=
  mkStore (users s) (categories s) (products s) (carts s)
    (filter (fun i => negb (CartItem.cart_id i =? Cart.id cart))
            (cart_items s))
    (orders s ++
       [Order.mk (next_id (map Order.id (orders s))) (User.id user) now])
    (order_items s ++ new).

(** ** The total of an order, in the words of the specification

    The sum, over the order items, of quantity times recorded price. *)
Definition sum_quantity_times_price (items : list OrderItem.t) : float :=
  py_sum
    (map (fun item =>
            (float_of_int (OrderItem.quantity item)
             * OrderItem.price item)%float)
         items).

(** The order items that line 321 reads for an order. *)
Definition order_rows (s : Store) (order_id : Z) : list OrderItem.t :=
  filter (fun i => OrderItem.order_id i =? order_id) (order_items s).

(** The line of [get_order_details] for an order item: its quantity and
    recorded price, under the name of its product. *)
Definition line_of (s : Store) (item : OrderItem.t) (line : OrderLine.t)
  : Prop :=
  OrderLine.quantity line = OrderItem.quantity item
  /\ OrderLine.price line = OrderItem.price item
  /\ exists product,
       product_of s (OrderItem.product_id item) = Some product
       /\ OrderLine.name line = Product.name product.

(** ** A later change of prices

    The module has no function that changes a price; prices change when
    whoever maintains the catalogue writes the [price] column of
    [products].  [reprice f] is such a write: every product gets the
    price [f] chooses for it, and nothing else changes. *)

Definition with_price (f : Product.t -> float) (p : Product.t) : Product.t :=
  Product.mk (Product.id p) (Product.name p) (Product.description p) (f p)
    (Product.image_path p) (Product.category_id p).

Definition reprice (f : Product.t -> float) (s : Store) : Store :=
  with_rows TProduct (map (with_price f) (products s)) s.

(** Two sessions that differ by a change of prices. *)
Definition repriced (f : Product.t -> float) (st1 st2 : Sess) : Prop :=
  faults st2 = faults st1
  /\ committed st2 = reprice f (committed st1)
  /\ working st2 = reprice f (working st1).

(** Two programs that, run in two such sessions, end alike: both return,
    with related values, or both raise the same exception. *)
Definition alike (f : Product.t -> float) {A B} (RV : A -> B -> Prop)
  (m1 : Session A) (m2 : Session B) : Prop :=
  forall st1 st2,
    repriced f st1 st2 ->
    match m1 st1, m2 st2 with
    | Ok a st1', Ok b st2' => RV a b /\ repriced f st1' st2'
    | Raise e1 st1', Raise e2 st2' => e1 = e2 /\ repriced f st1' st2'
    | _, _ => False
    end.

Definition option_rel {A B} (R : A -> B -> Prop) (x : option A)
  (y : option B) : Prop :=
  match x, y with
  | Some a, Some b => R a b
  | None, None => True
  | _, _ => False
  end.

(** ** Entries of a snapshot against the catalogue *)

(** The product that line 401-404 looks for: same name, in the category
    with that id. *)
Definition same_product (name : string) (category_id : Z) (p : Product.t)
  : bool :=
  String.eqb (Product.name p) name && (Product.category_id p =? category_id).

(** The entry's category resolves in the categories [cats]. *)
Definition resolves (cats : list Category.t) (product_data : ProductData.t)
  : bool :=
  match find (fun c => String.eqb (Category.name c)
                         (ProductData.category product_data)) cats with
  | Some _ => true
  | None => false
  end.

(** Every entry of [products_data] whose category resolves has its
    product among [ps]. *)
Definition settled (cats : list Category.t) (ps : list Product.t)
  (products_data : list ProductData.t) : Prop :=
  forall product_data category,
    In product_data products_data ->
    find (fun c => String.eqb (Category.name c)
                     (ProductData.category product_data)) cats
    = Some category ->
    exists p,
      find (same_product (ProductData.name product_data)
              (Category.id category)) ps = Some p.

(** The product [p] is the row that lines 408-414 build for an entry of
    [products_data] whose category resolves and whose (name, category)
    pair is not among [ps]. *)
Definition imported_from (cats : list Category.t) (ps : list Product.t)
  (products_data : list ProductData.t) (p : Product.t) : Prop :=
  exists product_data category,
    In product_data products_data
    /\ find (fun c => String.eqb (Category.name c)
                        (ProductData.category product_data)) cats
       = Some category
    /\ find (same_product (ProductData.name product_data)
               (Category.id category)) ps = None
    /\ Product.name p = ProductData.name product_data
    /\ Product.description p = ProductData.description product_data
    /\ Product.price p = ProductData.price product_data
    /\ Product.image_path p = ProductData.image_path product_data
    /\ Product.category_id p = Category.id category.

(** ** What the import finds on disk *)

(** No snapshot to read: no backup directory, no snapshot file in it, or
    a file that cannot be opened. *)
Definition snapshot_missing (fs : FileSystem) (backup_file : option string)
  : Prop :=
  match choose_backup fs backup_file with
  | None => True
  | Some path => load fs path = NoSuchFile
  end.

(** A snapshot file whose content is not well-formed JSON. *)
Definition snapshot_malformed (fs : FileSystem) (backup_file : option string)
  : Prop :=
  exists path,
    choose_backup fs backup_file = Some path /\ load fs path = Malformed.

(** The claim that the two kinds of failure reach the caller as two
    different results. *)
Definition import_failures_typed : Prop :=
  exists io parse : outcome bool,
    io <> parse
    /\ (forall fs backup_file plan s,
           snapshot_missing fs backup_file ->
           fst (call (import_products fs backup_file) plan s) = io)
    /\ (forall fs backup_file plan s,
           snapshot_malformed fs backup_file ->
           fst (call (import_products fs backup_file) plan s) = parse).

(** ** Integrity of the database

    What the functions of the module keep true of the tables, although
    the schema only declares the foreign keys: a cart holds a product in
    at most one item, and the references between rows resolve. *)

Definition cart_key (i : CartItem.t) : Z * Z :=
  (CartItem.cart_id i, CartItem.product_id i).

Definition tables_inv (us : list User.t) (ps : list Product.t)
  (cs : list Cart.t) (cis : list CartItem.t) (os : list Order.t)
  (ois : list OrderItem.t) : Prop :=
  NoDup (map cart_key cis)
  /\ Forall (fun i => In (CartItem.cart_id i) (map Cart.id cs)) cis
  /\ Forall (fun i => In (CartItem.product_id i) (map Product.id ps)) cis
  /\ Forall (fun c => In (Cart.user_id c) (map User.id us)) cs
  /\ Forall (fun o => In (Order.user_id o) (map User.id us)) os
  /\ Forall (fun i => In (OrderItem.product_id i) (map Product.id ps)) ois.

Definition store_inv (s : Store) : Prop :=
  tables_inv (users s) (products s) (carts s) (cart_items s) (orders s)
    (order_items s).

(** Orders are only ever added: the order items of [s] are still the
    first order items of [s'], unchanged. *)
Definition keeps_orders (s s' : Store) : Prop :=
  exists more, order_items s' = order_items s ++ more.

(** What every call maintains, from the database [s] it started in. *)
Definition sound_after (s : Store) : assertion :=
  fun c w => (store_inv c /\ keeps_orders s c)
             /\ (store_inv w /\ keeps_orders s w).

(** A history of calls, each with the behaviour of the database during
    it, run from [s]. *)
Definition run_calls (history : list (api_call * list bool)) (s : Store)
  : Store :=
  fold_left (fun st cf => exec (fst cf) (snd cf) st) history s.

(** A program that keeps, from any sound session, the session sound. *)
Definition preserves {A} (m : Session A) : Prop :=
  forall faulty s c w,
    sound_after s c w ->
    wp faulty m (fun _ => sound_after s) (fun _ => sound_after s) c w.

(** ** The example scenario

    A shop with the seeded categories and an administrator, two products
    [A] at 10.0 and [B] at 5.0, and the user 42 who puts [A], [B] and [A]
    again into the cart, then orders. *)

Definition no_backups : FileSystem := mkFS None (fun _ => NoSuchFile).

Definition example_catalog : Store :=
  exec (AddProduct "B" "second" 5%float "🍫 Снюс" "b.png") []
    (exec (AddProduct "A" "first" 10%float "🍫 Снюс" "a.png") []
       (exec (InitDb 7 no_backups) [] empty_store)).

Definition example_cart : Store :=
  exec (AddToCart 42 1) []
    (exec (AddToCart 42 2) [] (exec (AddToCart 42 1) [] example_catalog)).

Definition example_order : Store :=
  exec (CreateOrder 1000 42) [] example_cart.

(** A backup directory with three snapshots and a stray file; the latest
    snapshot has an entry for a product of the example catalogue, an
    entry in a category that does not exist, and two entries for one new
    product. *)
Definition example_snapshot : list ProductData.t :=
  [ ProductData.mk "A" "first" 12%float "🍫 Снюс" "a.png";
    ProductData.mk "C" "third" 7%float "Прочее" "c.png";
    ProductData.mk "D" "fourth" 3%float "💨 Жижа" "d.png";
    ProductData.mk "D" "again" 4%float "💨 Жижа" "d2.png" ].

Definition example_backups : FileSystem :=
  mkFS (Some [ "products_20240101_120000.json"; "notes.txt";
               "products_20240301_090000.json";
               "products_20240201_080000.json" ])
       (fun path =>
          if String.eqb path "backups/products_20240301_090000.json"
          then Parsed example_snapshot
          else Malformed).

(** A backup directory whose only snapshot is corrupt. *)
Definition corrupt_backup : FileSystem :=
  mkFS (Some ["products_20240101_120000.json"]) (fun _ => Malformed).

(** * The rest of the module

    The functions that read ([is_admin], [get_categories],
    [get_products], [get_product_by_id]) and the export of the
    catalogue. *)

(** ** Readers (lines 139-200) *)

Definition is_admin (telegram_id : Z) : Session bool :=
  session_scope (
    user <- query_first TUser (fun u => User.telegram_id u =? telegram_id) ;;
    ret (match user with
         | Some user => User.is_admin user
         | None => false
         end)).

Definition get_categories : Session (list string) :=
  session_scope (
    categories <- query_all TCategory (fun _ => true) ;;
    ret (map Category.name categories)).

(** The dictionary that [get_products] and [get_product_by_id] build for
    a product; [category] is [None] where [get_products] writes [None]. *)
Module ProductInfo.
Record t := mk
  { id : Z; name : string; description : string; price : float;
    category : option string; image_path : string }.
End ProductInfo.

(** [session.query(Product).join(Category).filter(Category.name == name)
    .all()]: the products whose category, found through the foreign key,
    has that name.  The query returns entities, which the ORM hands out
    once each, in the order of the products. *)
Definition query_products_of_category (name : string)
  : Session (list Product.t) :=
  roundtrip ;;
  fun st =>
    let w := working st in
    Ok (filter
          (fun p =>
             existsb
               (fun c =>
                  (Category.id c =? Product.category_id p)
                  && String.eqb (Category.name c) name)
               (categories w))
          (products w))
       st.

Definition get_products (category : option string)
  : Session (list ProductInfo.t) :=
  session_scope (
    products <- match category with
                | Some (String _ _ as name) => query_products_of_category name
                | _ => query_all TProduct (fun _ => true)
                end ;;
    list_comp products (fun product =>
      category <- lazy_load TCategory (Product.category_id product) ;;
      ret (ProductInfo.mk (Product.id product) (Product.name product)
             (Product.description product) (Product.price product)
             (option_map Category.name category)
             (Product.image_path product)))).

Definition get_product_by_id (product_id : Z)
  : Session (option ProductInfo.t) :=
  session_scope (
    product <- query_first TProduct (fun p => Product.id p =? product_id) ;;
    match product with
    | Some product =>
        category <- lazy_load TCategory (Product.category_id product) ;;
        category_name <- getattr category Category.name ;;
        ret (Some (ProductInfo.mk (Product.id product) (Product.name product)
                     (Product.description product) (Product.price product)
                     (Some category_name) (Product.image_path product)))
    | None => ret None
    end).

(** ** Export of the catalogue (lines 337-370)

    [export_products] is the one function that writes files.  A script
    is a program that works on the session and on the backup directory;
    an exception leaves both as they are at the raise. *)

Record World := mkWorld { session : Sess; files : FileSystem }.

Inductive wres (A : Type) : Type :=
| WOk (a : A) (w : World)
| WRaise (e : exn) (w : World).

Arguments WOk {A} _ _.
Arguments WRaise {A} _ _.

Definition Script (A : Type) : Type := World -> wres A.

Definition sret {A} (a : A) : Script A := fun w => WOk a w.

Definition sbind {A B} (m : Script A) (k : A -> Script B) : Script B :=
  fun w =>
    match m w with
    | WOk a w' => k a w'
    | WRaise e w' => WRaise e w'
    end.

Definition sraise {A} (e : exn) : Script A := fun w => WRaise e w.

(** A session program, run as a script: the files stay as they are. *)
Definition lift {A} (m : Session A) : Script A :=
  fun w =>
    match m (session w) with
    | Ok a st => WOk a (mkWorld st (files w))
    | Raise e st => WRaise e (mkWorld st (files w))
    end.

Declare Scope script_scope.
Delimit Scope script_scope with script.
Bind Scope script_scope with Script.

Notation "x <- m ;; k" := (sbind m (fun x => k))
  (at level 61, m at next level, right associativity) : script_scope.
Notation "m ;; k" := (sbind m (fun _ => k))
  (at level 61, right associativity) : script_scope.

Definition stry_except {A} (body : Script A) (handler : exn -> Script A)
  : Script A :=
  fun w =>
    match body w with
    | WOk a w' => WOk a w'
    | WRaise e w' => handler e w'
    end.

Definition stry_finally {A} (body : Script A) (fin : Script unit)
  : Script A :=
  fun w =>
    match body w with
    | WOk a w' => sbind fin (fun _ => sret a) w'
    | WRaise e w' => sbind fin (fun _ => sraise e) w'
    end.

(** Lines 81-91, around a body that also writes files. *)
Definition session_scope_files {A} (body : Script A) : Script A :=
  stry_finally
    (stry_except
       (a <- body ;; lift commit ;; sret a)%script
       (fun e => (lift rollback ;; sraise e)%script))
    (lift close).

(** What the disk does with the writes of an export: it takes them, or
    refuses to create the directory, or refuses to open the file. *)
Inductive disk : Type := DiskOk | MkdirRefused | OpenRefused.

(** Lines 355-356.  A refusal raises an [OSError]; of that class the
    model has [FileNotFoundError], and no handler of the module looks at
    the exception it catches. *)
Definition ensure_backups (d : disk) : Script unit :=
  fun w =>
    match backups (files w) with
    | Some _ => WOk tt w
    | None =>
        match d with
        | MkdirRefused => WRaise FileNotFoundError w
        | _ => WOk tt (mkWorld (session w) (mkFS (Some []) (load (files w))))
        end
    end.

(** The directory after the file [name] was written in it. *)
Definition with_file (name : string) (names : option (list string))
  : option (list string) :=
  match names with
  | Some names =>
      Some (if existsb (String.eqb name) names then names
            else names ++ [name])
  | None => Some [name]
  end.

(** Lines 363-364: the file [backups/name] is created or replaced, and
    reading it back gives the data that were dumped. *)
Definition write_backup (d : disk) (name : string)
  (products_data : list ProductData.t) : Script unit :=
  fun w =>
    match d with
    | OpenRefused => WRaise FileNotFoundError w
    | _ =>
        WOk tt
          (mkWorld (session w)
             (mkFS (with_file name (backups (files w)))
                   (fun path =>
                      if String.eqb path ("backups/" ++ name)%string
                      then Parsed products_data
                      else load (files w) path)))
    end.

(** Lines 345-351: the entry of the snapshot for a product. *)
Definition export_entry (product : Product.t) : Session ProductData.t :=
  category <- lazy_load TCategory (Product.category_id product) ;;
  category_name <- getattr category Category.name ;;
  ret (ProductData.mk (Product.name product) (Product.description product)
         (Product.price product) category_name (Product.image_path product)).

(** [timestamp] is [datetime.now().strftime('%Y%m%d_%H%M%S')]. *)
Definition export_products (timestamp : string) (d : disk)
  : Script (option string) :=
  stry_except
    (session_scope_files (
       products <- lift (query_all TProduct (fun _ => true)) ;;
       products_data <- lift (list_comp products export_entry) ;;
       ensure_backups d ;;
       write_backup d ("products_" ++ timestamp ++ ".json")%string
         products_data ;;
       sret (Some ("backups/products_" ++ timestamp ++ ".json")%string))%script)
    (fun _ => sret None).

(** A call of a script by the bot, with the files it finds. *)
Definition run {A} (m : Script A) (plan : list bool) (fs : FileSystem)
  (s : Store) : outcome A * Store * FileSystem :=
  match m (mkWorld (mkSess s s plan) fs) with
  | WOk a w => (Returned a, committed (session w), files w)
  | WRaise e w => (Raised e, committed (session w), files w)
  end.

(** ** Keys of the database

    What the functions of the module keep true of the keys: primary
    keys that do not repeat, a user row per telegram id, a cart per
    user, a category per name, and products and order items that point
    to rows that exist. *)

Definition tables_keys (us : list User.t) (cats : list Category.t)
  (ps : list Product.t) (cs : list Cart.t) (cis : list CartItem.t)
  (os : list Order.t) (ois : list OrderItem.t) : Prop :=
  NoDup (map User.id us)
  /\ NoDup (map User.telegram_id us)
  /\ NoDup (map Category.id cats)
  /\ NoDup (map Category.name cats)
  /\ NoDup (map Product.id ps)
  /\ Forall (fun p => In (Product.category_id p) (map Category.id cats)) ps
  /\ NoDup (map Cart.id cs)
  /\ NoDup (map Cart.user_id cs)
  /\ NoDup (map CartItem.id cis)
  /\ NoDup (map Order.id os)
  /\ NoDup (map OrderItem.id ois)
  /\ Forall (fun i => In (OrderItem.order_id i) (map Order.id os)) ois.

Definition keys_inv (s : Store) : Prop :=
  tables_keys (users s) (categories s) (products s) (carts s) (cart_items s)
    (orders s) (order_items s).

(** What identifies a user row: the functions change the flag and the
    name of a user, never these. *)
Definition user_key (u : User.t) : Z * Z := (User.id u, User.telegram_id u).

(** The database [s'] has every category, product, cart and order of
    [s], unchanged and in the same place, and every user of [s] under
    the same keys. *)
Definition grown (s s' : Store) : Prop :=
  (exists more, categories s' = categories s ++ more)
  /\ (exists more, products s' = products s ++ more)
  /\ (exists more, carts s' = carts s ++ more)
  /\ (exists more, orders s' = orders s ++ more)
  /\ (exists more, map user_key (users s') = map user_key (users s) ++ more).

Definition well_keyed (s s' : Store) : Prop := keys_inv s' /\ grown s s'.

(** A program that keeps a relation [good] to the database of the start
    true of what is committed and of the transaction. *)
Definition keeps (good : Store -> Store -> Prop) {A} (m : Session A)
  : Prop :=
  forall faulty s c w,
    good s c /\ good s w ->
    wp faulty m (fun _ c' w' => good s c' /\ good s w')
       (fun _ c' w' => good s c' /\ good s w') c w.

(** ** Readers *)

(** The database is the one of the start. *)
Definition same_store (s s' : Store) : Prop := s' = s.

(** The dictionary of a product, with the name of its category. *)
Definition info_of (product : Product.t) (category : Category.t)
  : ProductInfo.t :=
  ProductInfo.mk (Product.id product) (Product.name product)
    (Product.description product) (Product.price product)
    (Some (Category.name category)) (Product.image_path product).

(** ** Users *)

(** The user row after [add_user] found it: the flag is set, the name is
    replaced when a name is given. *)
Definition updated_user (is_admin : bool) (username : option string)
  (u : User.t) : User.t :=
  User.mk (User.id u) (User.telegram_id u)
    (if truthy username then username else User.username u) is_admin.

(** ** Quantities *)

(** How many of a product a list of cart items holds. *)
Definition quantity_in (product_id : Z) (rows : list CartItem.t) : Z :=
  fold_right Z.add 0
    (map CartItem.quantity
       (filter (fun i => CartItem.product_id i =? product_id) rows)).

(** The cart item with one more of it, as line 232 leaves the item
    [cart_item]. *)
Definition one_more (cart_item : CartItem.t) (i : CartItem.t) : CartItem.t :=
  CartItem.mk (CartItem.id i) (CartItem.cart_id i) (CartItem.product_id i)
    (CartItem.quantity cart_item + 1).

(** The database [s'] is [s] with one more of the product in the cart
    of the user, and nothing else changed in any cart or in the
    catalogue and the orders. *)
Definition added_one (s : Store) (user_id product_id : Z) (s' : Store)
  : Prop :=
  quantity_in product_id (cart_rows s' user_id)
  = quantity_in product_id (cart_rows s user_id) + 1
  /\ (forall other,
         other <> product_id ->
         quantity_in other (cart_rows s' user_id)
         = quantity_in other (cart_rows s user_id))
  /\ (forall user_id2,
         user_id2 <> user_id ->
         cart_rows s' user_id2 = cart_rows s user_id2)
  /\ categories s' = categories s
  /\ products s' = products s
  /\ orders s' = orders s
  /\ order_items s' = order_items s.


(** ** Listings of products *)

(** The dictionary that lines 163-170 build for a product, in the
    database [s]. *)
Definition listed (s : Store) (product : Product.t) : ProductInfo.t :=
  ProductInfo.mk (Product.id product) (Product.name product)
    (Product.description product) (Product.price product)
    (option_map Category.name
       (find (fun c => Category.id c =? Product.category_id product)
             (categories s)))
    (Product.image_path product).

(** The dictionary says that the product is of the category [name]. *)
Definition in_category (name : string) (info : ProductInfo.t) : bool :=
  match ProductInfo.category info with
  | Some category => String.eqb category name
  | None => false
  end.

(** ** Receipts *)

(** The line of an order for a line of the cart: the id of the cart item
    and of the product are dropped. *)
Definition receipt_line (line : CartLine.t) : OrderLine.t :=
  OrderLine.mk (CartLine.name line) (CartLine.quantity line)
    (CartLine.price line).

(** What the lines of a cart cost, added up as line 334 does. *)
Definition cart_total (lines : list CartLine.t) : float :=
  py_sum
    (map (fun line =>
            (CartLine.price line
             * float_of_int (CartLine.quantity line))%float)
         lines).

(** ** Judgements on scripts

    The judgements on sessions, for programs that also write files. *)

Definition fassertion : Type := Store -> Store -> FileSystem -> Prop.

Definition swp (faulty : bool) {A} (m : Script A) (Q : A -> fassertion)
  (E : exn -> fassertion) : fassertion :=
  fun c w fs =>
    forall plan, plan_ok faulty plan ->
      match m (mkWorld (mkSess c w plan) fs) with
      | WOk a x =>
          plan_ok faulty (faults (session x))
          /\ Q a (committed (session x)) (working (session x)) (files x)
      | WRaise e x =>
          plan_ok faulty (faults (session x))
          /\ E e (committed (session x)) (working (session x)) (files x)
      end.

(** ** Snapshots of the catalogue *)

(** The path of line 360. *)
Definition snapshot_path (timestamp : string) : string :=
  ("backups/products_" ++ timestamp ++ ".json")%string.

(** The entry of a snapshot for a product of the category. *)
Definition entry_of (product : Product.t) (category : Category.t)
  : ProductData.t :=
  ProductData.mk (Product.name product) (Product.description product)
    (Product.price product) (Category.name category)
    (Product.image_path product).

(** The entry is the one of the product, with the category that the
    product points to in [s]. *)
Definition exports (s : Store) (product : Product.t)
  (product_data : ProductData.t) : Prop :=
  exists category,
    find (fun c => Category.id c =? Product.category_id product)
         (categories s) = Some category
    /\ product_data = entry_of product category.

(** The files [fs'] are the files [fs], but for the file at [path]. *)
Definition same_but (path : string) (fs fs' : FileSystem) : Prop :=
  forall other, other <> path -> load fs' other = load fs other.

(** The file at the path of a snapshot holds the catalogue of [s], and
    the directory lists it. *)
Definition holds_catalogue (s : Store) (timestamp : string)
  (fs : FileSystem) : Prop :=
  exists products_data names,
    load fs (snapshot_path timestamp) = Parsed products_data
    /\ Forall2 (exports s) (products s) products_data
    /\ backups fs = Some names
    /\ In ("products_" ++ timestamp ++ ".json")%string names.

(** The name is the name of a snapshot, for line 381. *)
Definition snapshot_name (f : string) : bool :=
  prefix "products_" f && endswith ".json" f.

(** ** New products *)

(** The database [s] with the product that lines 178-185 add. *)
Definition with_product (s : Store) (name description : string)
  (price : float) (category : Category.t) (image_path : string) : Store :=
  with_rows TProduct
    (products s
     ++ [Product.mk (next_id (map Product.id (products s))) name description
           price image_path (Category.id category)]) s.

(** ** Initialisation *)

(** The import of the latest snapshot finds every product it could add
    among the products of [s]. *)
Definition import_ready (fs : FileSystem) (s : Store) : Prop :=
  match choose_backup fs None with
  | Some path =>
      match load fs path with
      | Parsed products_data =>
          settled (categories s) (products s) products_data
      | _ => True
      end
  | None => True
  end.

(** What [init_db] looks for is there: the seed categories, the user of
    the administrator when one is named, and the products of the latest
    snapshot. *)
Definition ready (admin_id : Z) (fs : FileSystem) (s : Store) : Prop :=
  (forall name, In name seed_categories -> category_of s name <> None)
  /\ (admin_id <> 0 -> user_of s admin_id <> None)
  /\ import_ready fs s.

(** ** Transactions *)

(** The session as a program leaves it, returning or raising. *)
Definition state_of {A} (r : res A) : Sess :=
  match r with
  | Ok _ st => st
  | Raise _ st => st
  end.

(** The program never commits: what is committed when it ends is what
    was committed when it started. *)
Definition commits_nothing {A} (body : Session A) : Prop :=
  forall st, committed (state_of (body st)) = committed st.
(** * Reasoning about sessions *)

Section WP.

Variable faulty : bool.

Local Abbreviation wp := (wp faulty).
Local Abbreviation plan_ok := (plan_ok faulty).

Lemma wp_ret {A} (a : A) Q E c w : Q a c w -> wp (ret a) Q E c w.
Proof. intros H fs Hfs. simpl. auto. Qed.

Lemma wp_raise {A} e (Q : A -> assertion) E c w :
  E e c w -> wp (raise e) Q E c w.
Proof. intros H fs Hfs. simpl. auto. Qed.

Lemma wp_bind {A B} (m : Session A) (k : A -> Session B) Q E c w :
  wp m (fun a => wp (k a) Q E) E c w -> wp (bind m k) Q E c w.
Proof.
  intros H fs Hfs. unfold bind. specialize (H fs Hfs).
  destruct (m (mkSess c w fs)) as [a [c' w' fs'] | e st]; simpl in *.
  - destruct H as [Hfs' H]. apply (H fs' Hfs').
  - exact H.
Qed.

(** Sequencing through an intermediate condition. *)
Lemma wp_bind_via {A B} (R : A -> assertion) (m : Session A)
  (k : A -> Session B) Q E c w :
  wp m R E c w ->
  (forall a c' w', R a c' w' -> wp (k a) Q E c' w') ->
  wp (bind m k) Q E c w.
Proof.
  intros Hm Hk fs Hfs. unfold bind. specialize (Hm fs Hfs).
  destruct (m (mkSess c w fs)) as [a [c' w' fs'] | e st]; simpl in *.
  - destruct Hm as [Hfs' H]. apply (Hk a c' w' H fs' Hfs').
  - exact Hm.
Qed.

Lemma wp_mono {A} (m : Session A) (Q Q' : A -> assertion)
  (E E' : exn -> assertion) c w :
  wp m Q E c w ->
  (forall a c' w', Q a c' w' -> Q' a c' w') ->
  (forall e c' w', E e c' w' -> E' e c' w') ->
  wp m Q' E' c w.
Proof.
  intros H HQ HE fs Hfs. specialize (H fs Hfs).
  destruct (m (mkSess c w fs)); destruct H; auto.
Qed.

Lemma wp_roundtrip Q E c w :
  (faulty = true -> E OperationalError c w) ->
  Q tt c w ->
  wp roundtrip Q E c w.
Proof.
  intros HE HQ fs Hfs. unfold roundtrip; simpl.
  destruct fs as [| b fs']; simpl; [auto |].
  assert (Hf : faulty = true).
  { unfold plan_ok in Hfs. destruct faulty; [reflexivity |].
    discriminate (Hfs eq_refl). }
  assert (Hfs' : plan_ok fs') by (intros Hc; congruence).
  destruct b; simpl; auto.
Qed.

Lemma wp_modify f Q E c w : Q tt c (f w) -> wp (modify f) Q E c w.
Proof. intros H fs Hfs. simpl. auto. Qed.

Lemma wp_query_first {R} (T : Table R) p Q E c w :
  (faulty = true -> E OperationalError c w) ->
  Q (find p (rows T w)) c w ->
  wp (query_first T p) Q E c w.
Proof.
  intros HE HQ. unfold query_first. apply wp_bind.
  apply wp_roundtrip; [exact HE |]. intros fs Hfs. simpl. auto.
Qed.

Lemma wp_lazy_load {R} (T : Table R) key Q E c w :
  (faulty = true -> E OperationalError c w) ->
  Q (find (fun r => pk T r =? key) (rows T w)) c w ->
  wp (lazy_load T key) Q E c w.
Proof. apply wp_query_first. Qed.

Lemma wp_query_all {R} (T : Table R) p Q E c w :
  (faulty = true -> E OperationalError c w) ->
  Q (filter p (rows T w)) c w ->
  wp (query_all T p) Q E c w.
Proof.
  intros HE HQ. unfold query_all. apply wp_bind.
  apply wp_roundtrip; [exact HE |]. intros fs Hfs. simpl. auto.
Qed.

Lemma wp_query_delete {R} (T : Table R) p Q E c w :
  (faulty = true -> E OperationalError c w) ->
  Q tt c (with_rows T (filter (fun r => negb (p r)) (rows T w)) w) ->
  wp (query_delete T p) Q E c w.
Proof.
  intros HE HQ. unfold query_delete. apply wp_bind.
  apply wp_roundtrip; [exact HE |]. apply wp_modify. exact HQ.
Qed.

Lemma wp_add {R} (T : Table R) new Q E c w :
  (let r := new (next_id (map (pk T) (rows T w))) in
   Q r c (with_rows T (rows T w ++ [r]) w)) ->
  wp (add T new) Q E c w.
Proof. intros H fs Hfs. simpl. auto. Qed.

Lemma wp_update {R} (T : Table R) key f Q E c w :
  Q tt c (with_rows T
            (map (fun r => if pk T r =? key then f r else r) (rows T w)) w) ->
  wp (update T key f) Q E c w.
Proof. intros H. unfold update. apply wp_modify. exact H. Qed.

Lemma wp_flush Q E c w :
  (faulty = true -> E OperationalError c w) ->
  Q tt c w ->
  wp flush Q E c w.
Proof. apply wp_roundtrip. Qed.

Lemma wp_commit Q E c w :
  (faulty = true -> E OperationalError c w) ->
  Q tt w w ->
  wp commit Q E c w.
Proof.
  intros HE HQ. unfold commit. apply wp_bind.
  apply wp_roundtrip; [exact HE |]. intros fs Hfs. simpl. auto.
Qed.

Lemma wp_rollback Q E c w : Q tt c c -> wp rollback Q E c w.
Proof. intros H fs Hfs. simpl. auto. Qed.

Lemma wp_getattr {R A} (o : option R) (attr : R -> A) Q E c w :
  match o with
  | Some r => Q (attr r) c w
  | None => E AttributeError c w
  end ->
  wp (getattr o attr) Q E c w.
Proof.
  destruct o; simpl; intros H; [apply wp_ret | apply wp_raise]; exact H.
Qed.

Lemma wp_try_except {A} (body : Session A) handler Q E c w :
  wp body Q (fun e => wp (handler e) Q E) c w ->
  wp (try_except body handler) Q E c w.
Proof.
  intros H fs Hfs. unfold try_except. specialize (H fs Hfs).
  destruct (body (mkSess c w fs)) as [a st | e [c' w' fs']]; simpl in *.
  - exact H.
  - destruct H as [Hfs' H]. apply (H fs' Hfs').
Qed.

Lemma wp_try_finally {A} (body : Session A) fin Q E c w :
  wp body (fun a => wp fin (fun _ => Q a) E)
          (fun e => wp fin (fun _ => E e) E) c w ->
  wp (try_finally body fin) Q E c w.
Proof.
  intros H fs Hfs. unfold try_finally. specialize (H fs Hfs).
  destruct (body (mkSess c w fs)) as [a [c' w' fs'] | e [c' w' fs']];
    simpl in *; destruct H as [Hfs' H]; specialize (H fs' Hfs');
    unfold bind.
  - destruct (fin (mkSess c' w' fs')); simpl; exact H.
  - destruct (fin (mkSess c' w' fs')); simpl; exact H.
Qed.

(** The scope of a session: what the body leaves in the transaction is
    committed when the body returns, the database keeps what was
    committed last when the body or the commit raises, and in both
    cases nothing stays pending. *)
Lemma wp_session_scope {A} (body : Session A) (Q : A -> assertion)
  (E : exn -> assertion) c w :
  wp body
     (fun a c' w' => Q a w' w' /\ (faulty = true -> E OperationalError c' c'))
     (fun e c' _ => E e c' c') c w ->
  wp (session_scope body) Q E c w.
Proof.
  intros H. unfold session_scope, close.
  apply wp_try_finally. apply wp_try_except. apply wp_bind.
  eapply wp_mono; [exact H | |].
  - intros a c' w' [HQ HE]. apply wp_bind. apply wp_commit.
    + intros Hf. apply wp_bind. apply wp_rollback. apply wp_raise.
      apply wp_rollback. auto.
    + apply wp_ret. apply wp_rollback. exact HQ.
  - intros e c' w' HE. apply wp_bind. apply wp_rollback. apply wp_raise.
    apply wp_rollback. exact HE.
Qed.

(** Loops, with an invariant over what is left to iterate. *)
Lemma wp_for_each {A} (I : list A -> assertion) (body : A -> Session unit)
  Q E :
  (forall x rest c w,
      I (x :: rest) c w -> wp (body x) (fun _ => I rest) E c w) ->
  (forall c w, I [] c w -> Q tt c w) ->
  forall xs c w, I xs c w -> wp (for_each xs body) Q E c w.
Proof.
  intros Hbody Hend xs. induction xs as [| x rest IH]; intros c w HI; simpl.
  - apply wp_ret. auto.
  - apply wp_bind. eapply wp_mono; [apply Hbody; exact HI | | auto].
    intros u c' w' HI'. apply IH. exact HI'.
Qed.

Lemma wp_list_comp {A B} (P : A -> Prop) (R : A -> B -> Prop)
  (f : A -> Session B) E c w :
  (forall x, P x ->
             wp (f x) (fun y c' w' => c' = c /\ w' = w /\ R x y) E c w) ->
  forall xs,
    Forall P xs ->
    wp (list_comp xs f)
       (fun ys c' w' => c' = c /\ w' = w /\ Forall2 R xs ys) E c w.
Proof.
  intros Hf xs. induction xs as [| x rest IH]; intros HP; simpl.
  - apply wp_ret. auto.
  - inversion HP as [| x' rest' Hx Hrest]; subst.
    apply wp_bind. eapply wp_mono; [apply Hf; exact Hx | | auto].
    intros y c' w' (-> & -> & Hy). apply wp_bind.
    eapply wp_mono; [apply IH; exact Hrest | | auto].
    intros ys c' w' (-> & -> & Hys). apply wp_ret. auto.
Qed.

End WP.

(** What a judgement says of a call by the bot. *)
Lemma wp_call faulty {A} (m : Session A) Q E s fs :
  wp faulty m Q E s s ->
  plan_ok faulty fs ->
  match call m fs s with
  | (Returned a, s') => exists w, Q a s' w
  | (Raised e, s') => exists w, E e s' w
  end.
Proof.
  intros H Hfs. unfold call. specialize (H fs Hfs).
  destruct (m (mkSess s s fs)) as [a st | e st]; destruct H; eauto.
Qed.

Lemma plan_ok_any fs : plan_ok true fs.
Proof. intros H. discriminate H. Qed.

Lemma plan_ok_quiet : plan_ok false [].
Proof. intros _. reflexivity. Qed.

(** One step of symbolic execution of a session program.  The rules of
    the operations that talk to the database leave a first goal, for the
    case where the database refuses. *)
Ltac wp_norm :=
  cbv beta;
  cbn [rows with_rows pk
       TUser TCategory TProduct TCart TCartItem TOrder TOrderItem
       users categories products carts cart_items orders order_items
       User.id User.telegram_id User.username User.is_admin
       Category.id Category.name
       Product.id Product.name Product.price Product.category_id
       Cart.id Cart.user_id
       CartItem.id CartItem.cart_id CartItem.product_id CartItem.quantity
       Order.id Order.user_id
       OrderItem.id OrderItem.order_id OrderItem.product_id
       OrderItem.quantity OrderItem.price].

Ltac wp_pure :=
  cbv beta iota;
  lazymatch goal with
  | |- wp _ (bind _ _) _ _ _ _ => apply wp_bind
  | |- wp _ (ret _) _ _ _ _ => apply wp_ret
  | |- wp _ (raise _) _ _ _ _ => apply wp_raise
  | |- wp _ (add _ _) _ _ _ _ => apply wp_add
  | |- wp _ (update _ _ _) _ _ _ _ => apply wp_update
  | |- wp _ rollback _ _ _ _ => apply wp_rollback
  | |- wp _ (getattr _ _) _ _ _ _ => apply wp_getattr
  | |- wp _ (try_except _ _) _ _ _ _ => apply wp_try_except
  | |- wp _ (session_scope _) _ _ _ _ => apply wp_session_scope
  end; wp_norm.

Ltac wp_db :=
  cbv beta iota;
  lazymatch goal with
  | |- wp _ (query_first _ _) _ _ _ _ => apply wp_query_first
  | |- wp _ (query_all _ _) _ _ _ _ => apply wp_query_all
  | |- wp _ (query_delete _ _) _ _ _ _ => apply wp_query_delete
  | |- wp _ (lazy_load _ _) _ _ _ _ => apply wp_lazy_load
  | |- wp _ flush _ _ _ _ => apply wp_flush
  | |- wp _ commit _ _ _ _ => apply wp_commit
  end; wp_norm.

Ltac wp_refused := intros; try discriminate; repeat wp_pure; auto.

Ltac wp_step := first [ wp_pure | wp_db; [ try solve [wp_refused] | ] ].

Ltac wp_steps := repeat wp_step.
(** * Calls that change nothing *)

(** A call that is judged, under both behaviours of the database, to keep
    the committed content: what it returns and what it raises. *)
Lemma call_unchanged {A} (m : Session A) (s : Store)
  (okv : A -> Prop) (oke : exn -> Prop) :
  (forall faulty,
      wp faulty m
         (fun a c _ => okv a /\ c = s)
         (fun e c _ =>
            c = s /\ (oke e \/ (faulty = true /\ e = OperationalError)))
         s s) ->
  forall fs,
    snd (call m fs s) = s
    /\ match fst (call m fs s) with
       | Returned a => okv a
       | Raised e => oke e \/ e = OperationalError
       end
    /\ (fs = [] ->
        match fst (call m fs s) with
        | Returned a => okv a
        | Raised e => oke e
        end).
Proof.
  intros H fs.
  pose proof (wp_call true m _ _ s fs (H true) (plan_ok_any fs)) as Hany.
  split; [| split].
  - destruct (call m fs s) as [[a | e] s']; destruct Hany as [_ Hany];
      simpl; tauto.
  - destruct (call m fs s) as [[a | e] s']; destruct Hany as [_ Hany];
      simpl; tauto.
  - intros ->.
    pose proof (wp_call false m _ _ s [] (H false) plan_ok_quiet) as Hq.
    destruct (call m [] s) as [[a | e] s']; destruct Hq as [_ Hq]; simpl.
    + tauto.
    + destruct Hq as [_ [Hq | [Hq _]]]; [exact Hq | discriminate Hq].
Qed.

Lemma create_order_noop_wp faulty now uid s :
  cart_rows s uid = [] ->
  wp faulty (create_order now uid)
     (fun a c _ => a = None /\ c = s)
     (fun e c _ =>
        c = s /\ (False \/ (faulty = true /\ e = OperationalError))) s s.
Proof.
  intros Hrows. unfold create_order.
  unfold cart_rows, cart_of, user_of in Hrows.
  wp_steps.
  destruct (find _ (users s)) as [user |]; [| wp_steps; auto].
  wp_steps.
  destruct (find _ (carts s)) as [cart |]; [| wp_steps; auto].
  wp_steps. rewrite Hrows. wp_steps. auto.
Qed.

Lemma add_to_cart_unknown_product_wp faulty uid pid s :
  product_of s pid = None ->
  wp faulty (add_to_cart_db uid pid)
     (fun _ c _ => False /\ c = s)
     (fun e c _ =>
        c = s /\ (e = ValueError pid
                  \/ (faulty = true /\ e = OperationalError))) s s.
Proof.
  intros Hp. unfold product_of in Hp. unfold add_to_cart_db.
  wp_steps.
  destruct (find _ (users s)) as [user |]; wp_steps.
  - destruct (find _ (carts s)) as [cart |]; wp_steps;
      rewrite Hp; wp_steps; auto.
  - match goal with |- context [find ?p ?l] => destruct (find p l) end;
      wp_steps; rewrite Hp; wp_steps; auto.
Qed.

Lemma add_product_unknown_category_wp faulty n d p cn i s :
  category_of s cn = None ->
  wp faulty (add_product n d p cn i)
     (fun _ c _ => True /\ c = s)
     (fun e c _ =>
        c = s /\ (False \/ (faulty = true /\ e = OperationalError))) s s.
Proof.
  intros Hc. unfold category_of in Hc. unfold add_product.
  wp_steps. rewrite Hc. wp_steps. auto.
Qed.

(** [add_product] returns normally whenever the database answers, whether
    or not it found the category. *)
Lemma add_product_returns n d p cn i s :
  fst (call (add_product n d p cn i) [] s) = Returned tt.
Proof.
  assert (H : wp false (add_product n d p cn i)
                (fun _ _ _ => True) (fun _ _ _ => False) s s).
  { unfold add_product. wp_steps.
    destruct (find _ (categories s)); wp_steps; auto;
      split; auto; discriminate. }
  pose proof (wp_call false _ _ _ s [] H plan_ok_quiet) as Hq.
  destruct (call (add_product n d p cn i) [] s) as [[[] | e] s'];
    simpl; [reflexivity | destruct Hq as [_ []]].
Qed.





(** C10.  When no category has the given name, [add_product] leaves the
    database as it was, whatever the database answers, so that no product
    is inserted; when the database answers it returns normally, with the
    value it also returns when it did insert the product: nothing tells
    the caller that the product was dropped. *)
Theorem add_product_unknown_category n d p cn i s fs :
  category_of s cn = None ->
  snd (call (add_product n d p cn i) fs s) = s
  /\ products (snd (call (add_product n d p cn i) fs s)) = products s
  /\ (fst (call (add_product n d p cn i) fs s) = Returned tt
      \/ fst (call (add_product n d p cn i) fs s) = Raised OperationalError)
  /\ (fs = [] -> fst (call (add_product n d p cn i) fs s) = Returned tt)
  /\ (forall s2, fst (call (add_product n d p cn i) [] s2) = Returned tt).
Proof.
  intros Hc.
  destruct (call_unchanged (add_product n d p cn i) s
              (fun _ => True) (fun _ => False)
              (fun faulty =>
                 add_product_unknown_category_wp faulty n d p cn i s Hc) fs)
    as (Hs & Hany & Hq).
  rewrite Hs. repeat split.
  - destruct (fst (call (add_product n d p cn i) fs s)) as [[] | e].
    + left. reflexivity.
    + right. f_equal. tauto.
  - intros Hfs. specialize (Hq Hfs).
    destruct (fst (call (add_product n d p cn i) fs s)) as [[] | e].
    + reflexivity.
    + destruct Hq.
  - intros s2. apply add_product_returns.
Qed.

(** The hypotheses of the theorem above, in the fresh
    database, which has no category at all. *)
Lemma add_product_unknown_category_witness :
  snd (call (add_product "A" "d" 10%float "c" "a.png") [] empty_store)
  = empty_store.
Proof.
  apply (add_product_unknown_category "A" "d" 10%float "c" "a.png"
           empty_store []).
  reflexivity.
Defined.
(** * The conversion of a cart into an order *)

Lemma create_order_wp faulty now uid s user cart :
  user_of s uid = Some user ->
  cart_of s uid = Some cart ->
  cart_rows s uid <> [] ->
  wp faulty (create_order now uid)
     (fun a c _ =>
        exists new,
          a = Some (next_id (map Order.id (orders s)))
          /\ c = converted s now user cart new
          /\ Forall2 (snapshot_of s (next_id (map Order.id (orders s))))
               (cart_rows s uid) new)
     (fun e c _ =>
        c = s
        /\ ((e = AttributeError
             /\ exists item,
                  In item (cart_rows s uid)
                  /\ product_of s (CartItem.product_id item) = None)
            \/ (faulty = true /\ e = OperationalError))) s s.
Proof.
  intros Hu Hc Hrows. unfold cart_rows in *. rewrite Hc in *.
  unfold cart_of in Hc. rewrite Hu in Hc. unfold user_of in Hu.
  unfold create_order. wp_steps. rewrite Hu. wp_steps. rewrite Hc.
  wp_steps.
  set (items := filter _ (cart_items s)) in *.
  destruct items as [| item0 items0] eqn:Hitems; [congruence |].
  rewrite <- Hitems. clear Hrows.
  wp_steps.
  set (oid := next_id (map Order.id (orders s))).
  apply (wp_for_each faulty
           (fun rest c w =>
              c = s /\
              exists done new,
                items = done ++ rest
                /\ w = mkStore (users s) (categories s) (products s)
                         (carts s) (cart_items s)
                         (orders s ++ [Order.mk oid (User.id user) now])
                         (order_items s ++ new)
                /\ Forall2 (snapshot_of s oid) done new)).
  - intros x rest c w (-> & done & new & Hd & -> & Hsnap).
    wp_steps.
    destruct (find _ (products s)) as [p |] eqn:Hp; wp_steps.
    2: { split; [reflexivity |]. left. split; [reflexivity |].
         exists x. split; [| exact Hp].
         rewrite Hd. apply in_or_app. right. left. reflexivity. }
    split; [reflexivity |].
    exists (done ++ [x]), (new ++ [OrderItem.mk
                                   (next_id (map OrderItem.id
                                               (order_items s ++ new)))
                                   oid (CartItem.product_id x)
                                   (CartItem.quantity x) (Product.price p)]).
    rewrite <- !app_assoc. simpl. repeat split; auto.
    apply Forall2_app; [exact Hsnap |]. constructor; [| constructor].
    unfold snapshot_of; simpl. repeat split. exists p. auto.
  - intros c w (-> & done & new & Hd & -> & Hsnap).
    rewrite app_nil_r in Hd. subst done.
    wp_steps. split; [| auto].
    exists new. auto.
  - split; [reflexivity |]. exists [], []. simpl. rewrite app_nil_r.
    repeat split; auto.
Qed.

Lemma filter_negb_filter {A} (p : A -> bool) (l : list A) :
  filter p (filter (fun x => negb (p x)) l) = [].
Proof.
  induction l as [| x l IH]; simpl; [reflexivity |].
  destruct (p x) eqn:Hx; simpl; [exact IH |]. rewrite Hx. exact IH.
Qed.

Lemma cart_rows_converted s now uid user cart new :
  user_of s uid = Some user ->
  cart_of s uid = Some cart ->
  cart_rows (converted s now user cart new) uid = [].
Proof.
  intros Hu Hc. unfold cart_rows, cart_of, user_of in *. simpl.
  rewrite Hu in *. rewrite Hc. apply filter_negb_filter.
Qed.

(** * Recorded prices *)

Section Alike.

Variable f : Product.t -> float.

Local Abbreviation alike := (alike f).
Local Abbreviation repriced := (repriced f).

Lemma alike_ret {A B} (RV : A -> B -> Prop) a b :
  RV a b -> alike RV (ret a) (ret b).
Proof. intros H st1 st2 Hst. simpl. auto. Qed.

Lemma alike_raise {A B} (RV : A -> B -> Prop) e :
  alike RV (raise e) (raise e).
Proof. intros st1 st2 Hst. simpl. auto. Qed.

Lemma alike_bind {A B C D} (RV : A -> B -> Prop) (RW : C -> D -> Prop)
  m1 m2 k1 k2 :
  alike RV m1 m2 ->
  (forall a b, RV a b -> alike RW (k1 a) (k2 b)) ->
  alike RW (bind m1 k1) (bind m2 k2).
Proof.
  intros Hm Hk st1 st2 Hst. unfold bind. specialize (Hm st1 st2 Hst).
  destruct (m1 st1) as [a st1' | e1 st1'], (m2 st2) as [b st2' | e2 st2'];
    try contradiction.
  - destruct Hm as [Hab Hst']. apply (Hk a b Hab st1' st2' Hst').
  - exact Hm.
Qed.

Lemma alike_roundtrip : alike eq roundtrip roundtrip.
Proof.
  intros [c1 w1 fs1] [c2 w2 fs2] (Hf & Hc & Hw). simpl in *. subst fs2.
  unfold roundtrip; simpl. destruct fs1 as [| [] fs1]; simpl;
    repeat split; auto.
Qed.

Lemma alike_read {A B} (RV : A -> B -> Prop) (g1 : Store -> A)
  (g2 : Store -> B) :
  (forall w, RV (g1 w) (g2 (reprice f w))) ->
  alike RV (fun st => Ok (g1 (working st)) st)
           (fun st => Ok (g2 (working st)) st).
Proof.
  intros H [c1 w1 fs1] [c2 w2 fs2] (Hf & Hc & Hw). simpl in *. subst.
  repeat split; auto.
Qed.

(** A query on a table other than [products] sees the same rows. *)
Lemma alike_query_first {R} (T : Table R) p :
  (forall w, rows T (reprice f w) = rows T w) ->
  alike eq (query_first T p) (query_first T p).
Proof.
  intros HT. unfold query_first.
  apply alike_bind with (RV := eq); [apply alike_roundtrip |].
  intros _ _ _.
  apply (alike_read eq (fun w => find p (rows T w))
           (fun w => find p (rows T w))).
  intros w. rewrite HT. reflexivity.
Qed.

Lemma alike_query_all {R} (T : Table R) p :
  (forall w, rows T (reprice f w) = rows T w) ->
  alike eq (query_all T p) (query_all T p).
Proof.
  intros HT. unfold query_all.
  apply alike_bind with (RV := eq); [apply alike_roundtrip |].
  intros _ _ _.
  apply (alike_read eq (fun w => filter p (rows T w))
           (fun w => filter p (rows T w))).
  intros w. rewrite HT. reflexivity.
Qed.

Lemma find_product_repriced key (l : list Product.t) :
  find (fun r => Product.id r =? key) (map (with_price f) l)
  = option_map (with_price f) (find (fun r => Product.id r =? key) l).
Proof.
  induction l as [| p l IH]; simpl; [reflexivity |].
  destruct (Product.id p =? key); simpl; auto.
Qed.

(** Loading a product finds the same product, with its new price. *)
Lemma alike_lazy_load_product key :
  alike (option_rel (fun p q => q = with_price f p))
    (lazy_load TProduct key) (lazy_load TProduct key).
Proof.
  unfold lazy_load, query_first.
  apply alike_bind with (RV := eq); [apply alike_roundtrip |].
  intros _ _ _.
  apply (alike_read (option_rel (fun p q => q = with_price f p))
           (fun w => find (fun r => pk TProduct r =? key) (rows TProduct w))
           (fun w => find (fun r => pk TProduct r =? key)
                       (rows TProduct w))).
  intros w. simpl.
  rewrite find_product_repriced.
  destruct (find _ (products w)); simpl; auto.
Qed.

Lemma alike_getattr {R A} (attr : R -> A) (RR : R -> R -> Prop) o1 o2 :
  option_rel RR o1 o2 ->
  (forall r1 r2, RR r1 r2 -> attr r1 = attr r2) ->
  alike eq (getattr o1 attr) (getattr o2 attr).
Proof.
  intros Ho Hattr. destruct o1 as [r1 |], o2 as [r2 |]; simpl in *;
    try contradiction.
  - apply alike_ret. auto.
  - apply alike_raise.
Qed.

Lemma alike_commit : alike eq commit commit.
Proof.
  unfold commit.
  apply alike_bind with (RV := eq); [apply alike_roundtrip |].
  intros _ _ _ [c1 w1 fs1] [c2 w2 fs2] (Hf & Hc & Hw). simpl in *.
  subst. repeat split; auto.
Qed.

Lemma alike_rollback : alike eq rollback rollback.
Proof.
  intros [c1 w1 fs1] [c2 w2 fs2] (Hf & Hc & Hw). simpl in *.
  subst. repeat split; auto.
Qed.

Lemma alike_try_except {A B} (RV : A -> B -> Prop) b1 b2 h1 h2 :
  alike RV b1 b2 ->
  (forall e, alike RV (h1 e) (h2 e)) ->
  alike RV (try_except b1 h1) (try_except b2 h2).
Proof.
  intros Hb Hh st1 st2 Hst. unfold try_except.
  specialize (Hb st1 st2 Hst).
  destruct (b1 st1) as [a st1' | e1 st1'], (b2 st2) as [b st2' | e2 st2'];
    try contradiction; [exact Hb |].
  destruct Hb as [<- Hst']. apply (Hh e1 st1' st2' Hst').
Qed.

Lemma alike_try_finally {A B} (RV : A -> B -> Prop) b1 b2 fin :
  alike RV b1 b2 ->
  alike eq fin fin ->
  alike RV (try_finally b1 fin) (try_finally b2 fin).
Proof.
  intros Hb Hfin st1 st2 Hst. unfold try_finally.
  specialize (Hb st1 st2 Hst).
  destruct (b1 st1) as [a st1' | e1 st1'], (b2 st2) as [b st2' | e2 st2'];
    try contradiction; destruct Hb as [Hv Hst'].
  - apply (alike_bind eq RV fin fin (fun _ => ret a) (fun _ => ret b));
      [exact Hfin | | exact Hst'].
    intros _ _ _. apply alike_ret. exact Hv.
  - subst e2.
    apply (alike_bind eq RV fin fin (fun _ => raise e1) (fun _ => raise e1));
      [exact Hfin | | exact Hst'].
    intros _ _ _. apply alike_raise.
Qed.

Lemma alike_session_scope {A B} (RV : A -> B -> Prop) b1 b2 :
  alike RV b1 b2 -> alike RV (session_scope b1) (session_scope b2).
Proof.
  intros Hb. unfold session_scope, close.
  apply alike_try_finally; [| apply alike_rollback].
  apply alike_try_except.
  - apply alike_bind with (RV := RV); [exact Hb |].
    intros a b Hab.
    apply alike_bind with (RV := eq); [apply alike_commit |].
    intros _ _ _. apply alike_ret. exact Hab.
  - intros e. apply alike_bind with (RV := eq); [apply alike_rollback |].
    intros _ _ _. apply alike_raise.
Qed.

Lemma alike_list_comp {A B} (g1 g2 : A -> Session B) :
  (forall x, alike eq (g1 x) (g2 x)) ->
  forall xs, alike eq (list_comp xs g1) (list_comp xs g2).
Proof.
  intros Hg xs. induction xs as [| x xs IH]; simpl.
  - apply alike_ret. reflexivity.
  - apply alike_bind with (RV := eq); [apply Hg |].
    intros y _ <-.
    apply alike_bind with (RV := eq); [apply IH |].
    intros ys _ <-. apply alike_ret. reflexivity.
Qed.

(** [get_order_details] reads the price column of [order_items] and
    only names from [products]: a change of prices does not show. *)
Lemma get_order_details_alike order_id :
  alike eq (get_order_details order_id) (get_order_details order_id).
Proof.
  unfold get_order_details. apply alike_session_scope.
  apply alike_bind with (RV := eq);
    [apply alike_query_first; reflexivity |].
  intros order _ <-. destruct order as [order |];
    [| apply alike_ret; reflexivity].
  apply alike_bind with (RV := eq);
    [apply alike_query_all; reflexivity |].
  intros items _ <-.
  apply alike_bind with (RV := eq);
    [apply alike_query_first; reflexivity |].
  intros user _ <-.
  assert (Huser : option_rel (@eq User.t) user user)
    by (destruct user; simpl; auto).
  apply alike_bind with (RV := eq);
    [apply (alike_getattr _ eq _ _ Huser); intros r1 r2 ->; reflexivity |].
  intros telegram_id _ <-.
  apply alike_bind with (RV := eq);
    [apply (alike_getattr _ eq _ _ Huser); intros r1 r2 ->; reflexivity |].
  intros username _ <-.
  apply alike_bind with (RV := eq).
  - apply alike_list_comp. intros item.
    eapply alike_bind; [apply alike_lazy_load_product |].
    intros p q Hpq.
    apply alike_bind with (RV := eq).
    + eapply alike_getattr; [exact Hpq |]. intros r1 r2 ->. reflexivity.
    + intros name _ <-. apply alike_ret. reflexivity.
  - intros lines _ <-. apply alike_ret. reflexivity.
Qed.

End Alike.

Lemma get_order_details_repriced f order_id fs s :
  fst (call (get_order_details order_id) fs (reprice f s))
  = fst (call (get_order_details order_id) fs s).
Proof.
  pose proof (get_order_details_alike f order_id
                (mkSess s s fs) (mkSess (reprice f s) (reprice f s) fs)) as H.
  unfold call.
  destruct (get_order_details order_id (mkSess s s fs)),
           (get_order_details order_id
              (mkSess (reprice f s) (reprice f s) fs));
    simpl; specialize (H (conj eq_refl (conj eq_refl eq_refl)));
    try contradiction; destruct H as [-> _]; reflexivity.
Qed.

(** What a call of [create_order] that returned an order did. *)
Lemma create_order_returned now uid s fs oid s' :
  call (create_order now uid) fs s = (Returned (Some oid), s') ->
  exists user cart new,
    user_of s uid = Some user
    /\ cart_of s uid = Some cart
    /\ oid = next_id (map Order.id (orders s))
    /\ s' = converted s now user cart new
    /\ Forall2 (snapshot_of s oid) (cart_rows s uid) new.
Proof.
  intros Hcall.
  destruct (cart_rows s uid) as [| item items] eqn:Hrows.
  - exfalso.
    pose proof (wp_call true _ _ _ s fs
                  (create_order_noop_wp true now uid s Hrows)
                  (plan_ok_any fs)) as H.
    rewrite Hcall in H. destruct H as (_ & H & _). discriminate H.
  - assert (Hne : cart_rows s uid <> []) by (rewrite Hrows; discriminate).
    destruct (cart_of s uid) as [cart |] eqn:Hc;
      [| unfold cart_rows in Hrows; rewrite Hc in Hrows; discriminate].
    destruct (user_of s uid) as [user |] eqn:Hu;
      [| unfold cart_of in Hc; rewrite Hu in Hc; discriminate].
    pose proof (wp_call true _ _ _ s fs
                  (create_order_wp true now uid s user cart Hu Hc Hne)
                  (plan_ok_any fs)) as H.
    rewrite Hcall in H. destruct H as (_ & new & Hoid & -> & Hsnap).
    injection Hoid as ->. exists user, cart, new.
    rewrite Hrows in Hsnap. auto.
Qed.
(** * Integrity is kept by every call *)

Lemma next_id_above (ids : list Z) : Forall (fun i => i < next_id ids) ids.
Proof.
  unfold next_id. induction ids as [| i ids IH]; constructor;
    cbn [fold_right].
  - lia.
  - eapply Forall_impl; [| exact IH]. cbv beta. intros a Ha. lia.
Qed.

Lemma next_id_fresh (ids : list Z) : ~ In (next_id ids) ids.
Proof.
  intros Hin. pose proof (next_id_above ids) as H.
  rewrite Forall_forall in H. specialize (H _ Hin). lia.
Qed.

Lemma find_some_pk {R} (key : R -> Z) (k : Z) (l : list R) (r : R) :
  find (fun x => key x =? k) l = Some r -> key r = k /\ In k (map key l).
Proof.
  intros H. apply find_some in H. destruct H as [Hin Hk].
  apply Z.eqb_eq in Hk. split; [exact Hk |]. subst k. apply in_map. exact Hin.
Qed.

Lemma find_some_in {R} (key : R -> Z) (p : R -> bool) (l : list R) (r : R) :
  find p l = Some r -> In (key r) (map key l).
Proof. intros H. apply find_some in H. apply in_map. tauto. Qed.

Lemma in_pk_find {R} (key : R -> Z) (k : Z) (l : list R) :
  In k (map key l) -> exists r, find (fun x => key x =? k) l = Some r.
Proof.
  intros Hin. apply in_map_iff in Hin. destruct Hin as (r & Hk & Hin).
  destruct (find (fun x => key x =? k) l) as [r' |] eqn:Hf; [eauto |].
  exfalso. pose proof (find_none _ _ Hf r Hin) as Hn. simpl in Hn.
  apply Z.eqb_neq in Hn. contradiction.
Qed.

Lemma Forall_in_app {R} (key : R -> Z) {A} (g : A -> Z) (l : list A)
  (rs more : list R) :
  Forall (fun a => In (g a) (map key rs)) l ->
  Forall (fun a => In (g a) (map key (rs ++ more))) l.
Proof.
  intros H. eapply Forall_impl; [| exact H]. simpl. intros a Ha.
  rewrite map_app. apply in_or_app. left. exact Ha.
Qed.

Lemma Forall_snoc {A} (P : A -> Prop) (l : list A) (a : A) :
  Forall P l -> P a -> Forall P (l ++ [a]).
Proof. intros Hl Ha. apply Forall_app. split; [exact Hl | auto]. Qed.

Lemma NoDup_map_filter {A B} (k : A -> B) (p : A -> bool) (l : list A) :
  NoDup (map k l) -> NoDup (map k (filter p l)).
Proof.
  induction l as [| a l IH]; simpl; intros H; [exact H |].
  inversion H as [| x xs Hnin Hnd]; subst.
  destruct (p a); simpl; [constructor |]; auto.
  intros Hin. apply Hnin. apply in_map_iff in Hin.
  destruct Hin as (b & Hb & Hin). apply filter_In in Hin.
  apply in_map_iff. exists b. tauto.
Qed.

Lemma Forall_filter_keep {A} (P : A -> Prop) (p : A -> bool) (l : list A) :
  Forall P l -> Forall P (filter p l).
Proof.
  intros H. rewrite Forall_forall in *. intros a Ha.
  apply filter_In in Ha. apply H. tauto.
Qed.

Ltac inv_split :=
  repeat split; try assumption;
  try (apply Forall_in_app; assumption);
  try (apply Forall_snoc; [first [assumption | apply Forall_in_app; assumption] | ]).

Section TablesInv.

Variables (us : list User.t) (ps : list Product.t) (cs : list Cart.t)
          (cis : list CartItem.t) (os : list Order.t)
          (ois : list OrderItem.t).

Hypothesis Hinv : tables_inv us ps cs cis os ois.

Lemma inv_add_user u : tables_inv (us ++ [u]) ps cs cis os ois.
Proof. destruct Hinv as (H1 & H2 & H3 & H4 & H5 & H6). inv_split. Qed.

Lemma inv_update_user g :
  (forall u, User.id (g u) = User.id u) ->
  tables_inv (map g us) ps cs cis os ois.
Proof.
  intros Hg. destruct Hinv as (H1 & H2 & H3 & H4 & H5 & H6).
  assert (Hids : map User.id (map g us) = map User.id us).
  { rewrite map_map. apply map_ext. exact Hg. }
  repeat split; auto; rewrite Hids; assumption.
Qed.

Lemma inv_add_products more : tables_inv us (ps ++ more) cs cis os ois.
Proof. destruct Hinv as (H1 & H2 & H3 & H4 & H5 & H6). inv_split. Qed.

Lemma inv_add_cart c :
  In (Cart.user_id c) (map User.id us) ->
  tables_inv us ps (cs ++ [c]) cis os ois.
Proof.
  intros Hc. destruct Hinv as (H1 & H2 & H3 & H4 & H5 & H6).
  inv_split; assumption.
Qed.

Lemma inv_add_cart_item i :
  ~ In (cart_key i) (map cart_key cis) ->
  In (CartItem.cart_id i) (map Cart.id cs) ->
  In (CartItem.product_id i) (map Product.id ps) ->
  tables_inv us ps cs (cis ++ [i]) os ois.
Proof.
  intros Hk Hc Hp. destruct Hinv as (H1 & H2 & H3 & H4 & H5 & H6).
  inv_split; try assumption.
  rewrite map_app. apply NoDup_app; [assumption | |].
  - simpl. constructor; [intros [] | constructor].
  - intros a Ha [<- | []]. contradiction.
Qed.

Lemma inv_update_cart_items g :
  (forall i, cart_key (g i) = cart_key i) ->
  tables_inv us ps cs (map g cis) os ois.
Proof.
  intros Hg. destruct Hinv as (H1 & H2 & H3 & H4 & H5 & H6).
  assert (Hkeys : map cart_key (map g cis) = map cart_key cis).
  { rewrite map_map. apply map_ext. exact Hg. }
  repeat split; try assumption.
  - rewrite Hkeys. assumption.
  - apply Forall_map. eapply Forall_impl; [| exact H2]. cbv beta.
    intros i Hi. specialize (Hg i). unfold cart_key in Hg.
    injection Hg as -> _. exact Hi.
  - apply Forall_map. eapply Forall_impl; [| exact H3]. cbv beta.
    intros i Hi. specialize (Hg i). unfold cart_key in Hg.
    injection Hg as _ ->. exact Hi.
Qed.

Lemma inv_delete_cart_items p :
  tables_inv us ps cs (filter p cis) os ois.
Proof.
  destruct Hinv as (H1 & H2 & H3 & H4 & H5 & H6).
  repeat split; try assumption.
  - apply NoDup_map_filter. assumption.
  - apply Forall_filter_keep. assumption.
  - apply Forall_filter_keep. assumption.
Qed.

Lemma inv_add_order o :
  In (Order.user_id o) (map User.id us) ->
  tables_inv us ps cs cis (os ++ [o]) ois.
Proof.
  intros Ho. destruct Hinv as (H1 & H2 & H3 & H4 & H5 & H6).
  inv_split; assumption.
Qed.

Lemma inv_add_order_item i :
  In (OrderItem.product_id i) (map Product.id ps) ->
  tables_inv us ps cs cis os (ois ++ [i]).
Proof.
  intros Hi. destruct Hinv as (H1 & H2 & H3 & H4 & H5 & H6).
  inv_split; assumption.
Qed.

End TablesInv.

Ltac store_norm :=
  cbn [users categories products carts cart_items orders order_items
       User.id User.telegram_id Category.id Product.id Cart.id Cart.user_id
       CartItem.id CartItem.cart_id CartItem.product_id CartItem.quantity
       Order.id Order.user_id OrderItem.id OrderItem.order_id
       OrderItem.product_id cart_key] in *.

Ltac sound_open :=
  unfold sound_after, store_inv, keeps_orders in *; store_norm;
  repeat match goal with
         | H : _ /\ _ |- _ => destruct H
         | H : exists _, _ |- _ => destruct H
         end;
  split; split; try assumption; try (eexists; eassumption).

Lemma preserves_session_scope {A} (body : Session A) :
  preserves body -> preserves (session_scope body).
Proof.
  intros Hb faulty s c w H. apply wp_session_scope.
  eapply wp_mono; [apply Hb; exact H | |]; cbv beta.
  - intros a c' w' H'. split; [| intros _]; sound_open.
  - intros e c' w' H'. sound_open.
Qed.

Lemma preserves_add_user t a u : preserves (add_user t a u).
Proof.
  apply preserves_session_scope. intros faulty s c w H.
  unfold add_user. wp_steps.
  destruct (find _ (users w)) as [user |]; wp_steps; sound_open.
  - apply inv_update_user; [assumption |]. intros r.
    destruct (User.id r =? User.id user); reflexivity.
  - apply inv_add_user. assumption.
Qed.

Lemma preserves_add_product n d p cn i : preserves (add_product n d p cn i).
Proof.
  apply preserves_session_scope. intros faulty s c w H.
  unfold add_product. wp_steps.
  destruct (find _ (categories w)) as [category |]; wp_steps;
    [| exact H].
  sound_open. apply inv_add_products. assumption.
Qed.

Lemma preserves_clear_cart uid : preserves (clear_cart uid).
Proof.
  apply preserves_session_scope. intros faulty s c w H.
  unfold clear_cart. wp_steps.
  destruct (find _ (users w)) as [user |]; wp_steps; [| exact H].
  destruct (find _ (carts w)) as [cart |]; wp_steps; [| exact H].
  sound_open. apply inv_delete_cart_items. assumption.
Qed.

Ltac inv_chain :=
  repeat first
    [ assumption
    | apply inv_add_cart_item
    | apply inv_update_cart_items
    | apply inv_delete_cart_items
    | apply inv_add_order_item
    | apply inv_add_order
    | apply inv_add_cart
    | apply inv_add_products
    | apply inv_add_user ].


Lemma find_none_cart_key cart_id product_id (cis : list CartItem.t) :
  find (fun i => (CartItem.cart_id i =? cart_id)
                 && (CartItem.product_id i =? product_id)) cis = None ->
  ~ In (cart_id, product_id) (map cart_key cis).
Proof.
  intros Hf Hin. apply in_map_iff in Hin. destruct Hin as (i & Hk & Hin).
  pose proof (find_none _ _ Hf i Hin) as Hn. cbv beta in Hn.
  unfold cart_key in Hk. injection Hk as H1 H2. rewrite H1, H2 in Hn.
  rewrite !Z.eqb_refl in Hn. discriminate Hn.
Qed.

Lemma in_map_grow {R} (key : R -> Z) (l more : list R) (k : Z) :
  In k (map key l) -> In k (map key (l ++ more)).
Proof. intros H. rewrite map_app. apply in_or_app. auto. Qed.

Ltac in_snoc := rewrite map_app; apply in_or_app; right; left; reflexivity.

Ltac side :=
  first
    [ assumption
    | in_snoc
    | solve [apply find_none_cart_key; assumption]
    | solve [intros i; cbv beta; destruct (_ =? _); reflexivity]
    | solve [apply in_map_grow; assumption]
    | solve [match goal with
             | H : order_items ?w = _ |- exists _, order_items ?w ++ _ = _ =>
                 rewrite H; rewrite <- app_assoc; eexists; reflexivity
             end] ].

Ltac sound_tac := intros; repeat wp_pure; sound_open; inv_chain; try side.

Lemma preserves_add_to_cart_db uid pid : preserves (add_to_cart_db uid pid).
Proof.
  apply preserves_session_scope. intros faulty s c w H.
  unfold add_to_cart_db. wp_pure.
  assert (Hexc : forall e c w,
             sound_after s c c ->
             wp faulty (rollback;; raise e) (fun _ : unit => sound_after s)
               (fun _ => sound_after s) c w) by sound_tac.
  wp_pure. wp_db; [intros _; apply Hexc; sound_tac |].
  apply wp_bind_via with
    (R := fun user c' w' =>
            sound_after s c' w' /\ In (User.id user) (map User.id (users w'))).
  { destruct (find _ (users w)) as [user |] eqn:Hu; wp_steps.
    - split; [exact H |]. eapply find_some_in. exact Hu.
    - intros _. apply Hexc. sound_tac.
    - split; [sound_tac | in_snoc]. }
  clear c w H. intros user c w [H Huser].
  wp_pure. wp_db; [intros _; apply Hexc; sound_tac |].
  apply wp_bind_via with
    (R := fun cart c' w' =>
            sound_after s c' w' /\ In (Cart.id cart) (map Cart.id (carts w'))).
  { destruct (find _ (carts w)) as [cart |] eqn:Hc; wp_steps.
    - split; [exact H |]. eapply find_some_in. exact Hc.
    - intros _. apply Hexc. sound_tac.
    - split; [sound_tac | in_snoc]. }
  clear c w H Huser. intros cart c w [H Hcart].
  wp_pure. wp_db; [intros _; apply Hexc; sound_tac |].
  destruct (find _ (products w)) as [p |] eqn:Hp;
    [| wp_steps; sound_tac].
  wp_pure. wp_db; [intros _; apply Hexc; sound_tac |].
  apply find_some_pk in Hp. destruct Hp as [_ Hp].
  destruct (find _ (cart_items w)) as [ci |] eqn:Hci; wp_steps.
  - intros _. apply Hexc. sound_tac.
  - sound_tac.
  - intros _. apply Hexc. sound_tac.
  - sound_tac.
Qed.

Lemma preserves_create_order now uid : preserves (create_order now uid).
Proof.
  apply preserves_session_scope. intros faulty s c w H.
  unfold create_order. wp_steps.
  destruct (find _ (users w)) as [user |] eqn:Hu; wp_steps; [| exact H].
  destruct (find _ (carts w)) as [cart |] eqn:Hc; wp_steps; [| exact H].
  destruct (filter _ (cart_items w)) as [| item items] eqn:Hi;
    [wp_steps; exact H |].
  apply (find_some_in User.id) in Hu.
  wp_steps; [sound_tac |].
  apply (wp_for_each faulty (fun _ => sound_after s)).
  - intros x rest c1 w1 H1. wp_steps.
    destruct (find _ (products w1)) as [p |] eqn:Hp; wp_steps; [| exact H1].
    apply find_some_pk in Hp. destruct Hp as [_ Hp]. sound_tac.
  - intros c1 w1 H1. wp_steps; sound_tac.
  - sound_tac.
Qed.

Lemma preserves_bind {A B} (m : Session A) (k : A -> Session B) :
  preserves m -> (forall a, preserves (k a)) -> preserves (bind m k).
Proof.
  intros Hm Hk faulty s c w H.
  apply wp_bind_via with (R := fun _ => sound_after s); [apply Hm; exact H |].
  intros a c' w' H'. apply Hk. exact H'.
Qed.

Lemma preserves_ret {A} (a : A) : preserves (ret a).
Proof. intros faulty s c w H. apply wp_ret. exact H. Qed.

Lemma preserves_for_each {A} (xs : list A) (body : A -> Session unit) :
  (forall x, preserves (body x)) -> preserves (for_each xs body).
Proof.
  intros Hb faulty s c w H.
  apply (wp_for_each faulty (fun _ => sound_after s)); auto.
  intros x rest c' w' H'. apply Hb. exact H'.
Qed.

Lemma preserves_commit : preserves commit.
Proof. intros faulty s c w H. wp_steps; sound_tac. Qed.

Lemma preserves_import_entry pd : preserves (import_entry pd).
Proof.
  intros faulty s c w H. unfold import_entry. wp_steps.
  destruct (find _ (categories w)) as [category |]; wp_steps; [| exact H].
  destruct (find _ (products w)) as [p |]; wp_steps; [exact H |].
  sound_tac.
Qed.

Lemma preserves_import_products fs b : preserves (import_products fs b).
Proof.
  intros faulty s c w H. unfold import_products. wp_pure.
  destruct (choose_backup fs b) as [path |]; [| wp_steps; exact H].
  unfold json_load. wp_pure.
  destruct (load fs path) as [| | products_data];
    [wp_steps; exact H | wp_steps; exact H |].
  apply wp_ret.
  assert (Hb : preserves (import_snapshot products_data)).
  { apply preserves_session_scope.
    apply preserves_bind; [apply preserves_for_each |].
    + apply preserves_import_entry.
    + intros _. apply preserves_bind; [apply preserves_commit |].
      intros _. apply preserves_ret. }
  eapply wp_mono.
  - apply Hb. exact H.
  - cbv beta. intros a c' w' H'. wp_steps. exact H'.
  - cbv beta. intros e c' w' H'. wp_steps. exact H'.
Qed.

Lemma preserves_init_db admin_id fs : preserves (init_db admin_id fs).
Proof.
  unfold init_db. apply preserves_session_scope.
  apply preserves_bind.
  { apply preserves_for_each. intros name faulty s c w H. wp_steps.
    destruct (find _ (categories w)); wp_steps; [exact H | sound_tac]. }
  intros _. apply preserves_bind.
  { destruct (admin_id =? 0); [apply preserves_ret |].
    intros faulty s c w H. wp_steps.
    destruct (find _ (users w)); wp_steps; [exact H | sound_tac]. }
  intros _. apply preserves_bind; [apply preserves_commit |].
  intros _. apply preserves_bind; [apply preserves_import_products |].
  intros _. apply preserves_ret.
Qed.

Lemma sound_start s : store_inv s -> sound_after s s s.
Proof.
  intros H. unfold sound_after, keeps_orders.
  split; split; try assumption; exists []; rewrite app_nil_r; reflexivity.
Qed.

(** Every call of the bot keeps the integrity of the database and the
    order items that were there. *)
Lemma exec_sound c fs s :
  store_inv s -> store_inv (exec c fs s) /\ keeps_orders s (exec c fs s).
Proof.
  intros H.
  assert (Hcall : forall A (m : Session A),
             preserves m ->
             store_inv (snd (call m fs s))
             /\ keeps_orders s (snd (call m fs s))).
  { intros A m Hm.
    pose proof (wp_call true m _ _ s fs (Hm true s s s (sound_start s H))
                  (plan_ok_any fs)) as Hw.
    destruct (call m fs s) as [[a | e] s']; destruct Hw as [w [Hw _]];
      exact Hw. }
  destruct c; simpl; apply Hcall.
  - apply preserves_init_db.
  - apply preserves_add_user.
  - apply preserves_add_product.
  - apply preserves_add_to_cart_db.
  - apply preserves_clear_cart.
  - apply preserves_create_order.
  - apply preserves_import_products.
Qed.

Lemma reachable_inv s : reachable s -> store_inv s.
Proof.
  induction 1 as [| s c fs Hr IH].
  - unfold store_inv, tables_inv. simpl. repeat split; constructor.
  - apply exec_sound. exact IH.
Qed.

Lemma keeps_orders_trans s1 s2 s3 :
  keeps_orders s1 s2 -> keeps_orders s2 s3 -> keeps_orders s1 s3.
Proof.
  intros [m1 H1] [m2 H2]. exists (m1 ++ m2).
  rewrite H2, H1, app_assoc. reflexivity.
Qed.

Lemma run_calls_sound history s :
  store_inv s ->
  store_inv (run_calls history s) /\ keeps_orders s (run_calls history s).
Proof.
  unfold run_calls. revert s.
  induction history as [| [c fs] history IH]; intros s H; simpl.
  - split; [exact H |]. exists []. rewrite app_nil_r. reflexivity.
  - destruct (exec_sound c fs s H) as [Hi Hk].
    destruct (IH _ Hi) as [Hi' Hk']. split; [exact Hi' |].
    eapply keeps_orders_trans; eassumption.
Qed.
(** * Orders *)

(** In a sound database the product of every cart item exists. *)
Lemma cart_rows_products s uid item :
  store_inv s ->
  In item (cart_rows s uid) ->
  product_of s (CartItem.product_id item) <> None.
Proof.
  intros (_ & _ & Hip & _) Hin. unfold cart_rows in Hin.
  destruct (cart_of s uid) as [cart |]; [| destruct Hin].
  apply filter_In in Hin. destruct Hin as [Hin _].
  rewrite Forall_forall in Hip. specialize (Hip item Hin).
  apply in_pk_find in Hip. destruct Hip as [p Hp].
  unfold product_of. rewrite Hp. discriminate.
Qed.

(** C1.  For a user whose cart has items, a call of [create_order] has,
    whatever the database answers on the way, one of two outcomes.
    Either it returns the id of the new order and the database is the
    one before the call with exactly one more order, bound to the user,
    one more order item for each item of the cart, and no item left in
    that cart; or it raises (the database refused a round trip, or the
    product of a cart item is gone) and the database is exactly the one
    before the call.  So no outcome leaves an order with items copied
    next to a cart that still holds them.  In the states the bot can
    reach, when the database answers, the outcome is the first one. *)
Theorem create_order_atomic now uid s fs user cart :
  user_of s uid = Some user ->
  cart_of s uid = Some cart ->
  cart_rows s uid <> [] ->
  ((exists new,
       call (create_order now uid) fs s
       = (Returned (Some (next_id (map Order.id (orders s)))),
          converted s now user cart new)
       /\ Forall2 (snapshot_of s (next_id (map Order.id (orders s))))
            (cart_rows s uid) new
       /\ cart_rows (converted s now user cart new) uid = [])
   \/ (exists e,
          call (create_order now uid) fs s = (Raised e, s)
          /\ (e = OperationalError \/ e = AttributeError)))
  /\ (reachable s -> fs = [] ->
      fst (call (create_order now uid) fs s)
      = Returned (Some (next_id (map Order.id (orders s))))).
Proof.
  intros Hu Hc Hrows. split.
  - pose proof (wp_call true _ _ _ s fs
                  (create_order_wp true now uid s user cart Hu Hc Hrows)
                  (plan_ok_any fs)) as H.
    destruct (call (create_order now uid) fs s) as [[a | e] s'].
    + left. destruct H as (_ & new & -> & -> & Hsnap).
      exists new. split; [reflexivity |]. split; [exact Hsnap |].
      apply cart_rows_converted; assumption.
    + right. destruct H as (_ & -> & He). exists e.
      split; [reflexivity |]. destruct He as [[-> _] | [_ ->]]; auto.
  - intros Hr ->. apply reachable_inv in Hr.
    pose proof (wp_call false _ _ _ s []
                  (create_order_wp false now uid s user cart Hu Hc Hrows)
                  plan_ok_quiet) as H.
    destruct (call (create_order now uid) [] s) as [[a | e] s']; simpl.
    + destruct H as (_ & new & -> & _). reflexivity.
    + exfalso. destruct H as (_ & _ & [(_ & item & Hin & Hnone) | [H _]]).
      * exact (cart_rows_products s uid item Hr Hin Hnone).
      * discriminate H.
Qed.

(** The hypotheses of the theorem above, in the example scenario, with
    a database that refuses the round trip that deletes the cart items,
    after the order and its two items were written. *)
Lemma create_order_atomic_witness :
  (exists new,
      call (create_order 1000 42)
           [false; false; false; false; false; false; true] example_cart
      = (Returned (Some (next_id (map Order.id (orders example_cart)))),
         converted example_cart 1000 (User.mk 2 42 None false)
           (Cart.mk 1 2) new)
      /\ Forall2
           (snapshot_of example_cart
              (next_id (map Order.id (orders example_cart))))
           (cart_rows example_cart 42) new
      /\ cart_rows
           (converted example_cart 1000 (User.mk 2 42 None false)
              (Cart.mk 1 2) new) 42 = [])
  \/ (exists e,
         call (create_order 1000 42)
              [false; false; false; false; false; false; true] example_cart
         = (Raised e, example_cart)
         /\ (e = OperationalError \/ e = AttributeError)).
Proof.
  apply (create_order_atomic 1000 42 example_cart
           [false; false; false; false; false; false; true]
           (User.mk 2 42 None false) (Cart.mk 1 2)).
  - reflexivity.
  - reflexivity.
  - vm_compute. discriminate.
Defined.

(** In the example, the refused round trip leaves cart and orders as
    they were; without it the order 1 is made and the cart is empty. *)
Example create_order_refused_delete :
  call (create_order 1000 42)
       [false; false; false; false; false; false; true] example_cart
  = (Raised OperationalError, example_cart).
Proof. vm_compute. reflexivity. Qed.

Example create_order_example :
  fst (call (create_order 1000 42) [] example_cart) = Returned (Some 1)
  /\ cart_rows example_order 42 = []
  /\ map OrderItem.price (order_items example_order) = [10%float; 5%float].
Proof. vm_compute. repeat split. Qed.

(** * The price an order records *)

(** C2.  When [create_order] returns an order, the order items it added
    carry, each, the price that the product of the cart item had in the
    database at the call.  A later change of product prices changes no
    order item, and [get_order_details] reports for the order what it
    reported before the change: same outcome, same lines, same total.
    In the states the bot can reach, no later call of the module changes
    or removes an order item either. *)
Theorem price_snapshot now uid s fs oid s' :
  call (create_order now uid) fs s = (Returned (Some oid), s') ->
  (exists new,
      order_items s' = order_items s ++ new
      /\ Forall2 (snapshot_of s oid) (cart_rows s uid) new)
  /\ (forall f,
         order_items (reprice f s') = order_items s'
         /\ forall fs2,
              fst (call (get_order_details oid) fs2 (reprice f s'))
              = fst (call (get_order_details oid) fs2 s'))
  /\ (reachable s ->
      forall history, keeps_orders s' (run_calls history s')).
Proof.
  intros Hcall.
  destruct (create_order_returned now uid s fs oid s' Hcall)
    as (user & cart & new & Hu & Hc & Hoid & Hs' & Hsnap).
  split; [| split].
  - exists new. subst s'. split; [reflexivity | exact Hsnap].
  - intros f. split; [reflexivity |]. intros fs2.
    apply get_order_details_repriced.
  - intros Hr history.
    assert (Hr' : reachable s').
    { replace s' with (exec (CreateOrder now uid) fs s);
        [apply reach_call; exact Hr |].
      simpl. rewrite Hcall. reflexivity. }
    apply run_calls_sound. apply reachable_inv. exact Hr'.
Qed.

(** The hypotheses of the theorem above, in the example scenario. *)
Lemma price_snapshot_witness :
  (exists new,
      order_items example_order = order_items example_cart ++ new
      /\ Forall2 (snapshot_of example_cart 1) (cart_rows example_cart 42) new)
  /\ (forall f,
         order_items (reprice f example_order) = order_items example_order
         /\ forall fs2,
              fst (call (get_order_details 1) fs2 (reprice f example_order))
              = fst (call (get_order_details 1) fs2 example_order))
  /\ (reachable example_cart ->
      forall history,
        keeps_orders example_order (run_calls history example_order)).
Proof.
  apply (price_snapshot 1000 42 example_cart [] 1 example_order).
  vm_compute. reflexivity.
Defined.

(** In the example, doubling every price after the order leaves the
    order at 25.0. *)
Example price_snapshot_example :
  fst (call (get_order_details 1) []
         (reprice (fun p => (2 * Product.price p)%float) example_order))
  = Returned
      (Some (OrderDetails.mk 1 42 "Не указан"
               [OrderLine.mk "A" 2 10%float; OrderLine.mk "B" 1 5%float]
               25%float)).
Proof. vm_compute. reflexivity. Qed.
(** * The details of an order *)

(** Multiplication of binary64 numbers does not depend on the order of
    its operands. *)
Lemma float_mul_comm (x y : float) : (x * y = y * x)%float.
Proof.
  apply Prim2SF_inj. rewrite !mul_spec. unfold SF64mul, SFmul.
  destruct (Prim2SF x) as [sx | sx | | sx mx ex],
           (Prim2SF y) as [sy | sy | | sy my ey];
    try reflexivity; try (rewrite xorb_comm; reflexivity).
  rewrite xorb_comm, Pos.mul_comm, Z.add_comm. reflexivity.
Qed.

Lemma order_total_spec items :
  order_total items = sum_quantity_times_price items.
Proof.
  unfold order_total, sum_quantity_times_price. f_equal.
  apply map_ext. intros item. apply float_mul_comm.
Qed.

Lemma get_order_details_wp faulty s order_id order :
  store_inv s ->
  find (fun o => Order.id o =? order_id) (orders s) = Some order ->
  wp faulty (get_order_details order_id)
     (fun r c _ =>
        c = s
        /\ exists details,
             r = Some details
             /\ OrderDetails.order_id details = order_id
             /\ OrderDetails.total details
                = order_total (order_rows s order_id)
             /\ Forall2 (line_of s) (order_rows s order_id)
                  (OrderDetails.items details))
     (fun e c _ => c = s /\ faulty = true /\ e = OperationalError) s s.
Proof.
  intros Hinv Ho. unfold get_order_details. wp_steps. rewrite Ho.
  pose proof (find_some _ _ Ho) as [Hin Hid]. apply Z.eqb_eq in Hid.
  destruct Hinv as (_ & _ & _ & _ & Hou & Hoi).
  assert (Hu : exists user,
             find (fun r => User.id r =? Order.user_id order) (users s)
             = Some user).
  { apply in_pk_find. rewrite Forall_forall in Hou. apply Hou. exact Hin. }
  destruct Hu as [user Hu].
  wp_steps. rewrite Hu. wp_steps.
  eapply wp_mono; [| | intros e c' w' He; exact He].
  - apply wp_list_comp with
      (P := fun i => In (OrderItem.product_id i) (map Product.id (products s)))
      (R := line_of s).
    + intros item Hitem. apply in_pk_find in Hitem.
      destruct Hitem as [product Hp]. wp_steps. rewrite Hp. wp_steps.
      repeat split. exists product. unfold product_of. auto.
    + apply Forall_filter_keep. exact Hoi.
  - cbv beta. intros lines c' w' (-> & -> & Hlines). wp_steps.
    split; [| auto]. split; [reflexivity |].
    eexists. split; [reflexivity |]. simpl. auto.
Qed.

(** The cart of the example: product [A] twice at 10.0 and product [B]
    once at 5.0. *)
Example example_cart_lines :
  fst (call (get_cart_items 42) [] example_cart)
  = Returned [CartLine.mk 1 1 2 "A" 10%float; CartLine.mk 2 2 1 "B" 5%float].
Proof. vm_compute. reflexivity. Qed.


(** The hypotheses of the theorem above, for the order of the
    example. *)
Lemma example_order_reachable : reachable example_order.
Proof. repeat apply reach_call. apply reach_fresh. Qed.

(** * Failures of the import *)

Lemma import_products_never_raises fs backup_file plan s :
  exists r, fst (call (import_products fs backup_file) plan s) = Returned r.
Proof.
  unfold call, import_products, try_except.
  match goal with
  | |- context [match ?body ?st with _ => _ end] => destruct (body st)
  end; simpl; eauto.
Qed.

Lemma import_products_missing fs backup_file plan s :
  snapshot_missing fs backup_file ->
  call (import_products fs backup_file) plan s = (Returned false, s).
Proof.
  unfold snapshot_missing, call, import_products, try_except, json_load.
  destruct (choose_backup fs backup_file) as [path |]; [| reflexivity].
  intros ->. reflexivity.
Qed.

Lemma import_products_malformed fs backup_file plan s :
  snapshot_malformed fs backup_file ->
  call (import_products fs backup_file) plan s = (Returned false, s).
Proof.
  intros (path & Hp & Hl).
  unfold call, import_products, try_except, json_load.
  rewrite Hp, Hl. reflexivity.
Qed.

(** C9, as stated, fails: without a backup directory and with a corrupt
    snapshot the caller gets the same [False]. *)
Lemma import_failures_not_typed : ~ import_failures_typed.
Proof.
  intros (io & parse & Hne & Hio & Hparse). apply Hne.
  rewrite <- (Hio no_backups None [] empty_store I).
  rewrite <- (Hparse corrupt_backup None [] empty_store).
  - reflexivity.
  - eexists. split; reflexivity.
Qed.

Example import_failures_same :
  call (import_products no_backups None) [] empty_store
  = (Returned false, empty_store)
  /\ call (import_products corrupt_backup None) [] empty_store
     = (Returned false, empty_store).
Proof. split; reflexivity. Qed.

(** C9, amended.  When there is no snapshot to read, or when the content
    of the snapshot is not well-formed, [import_products] returns
    [False], the same value in both cases, and leaves the database as it
    was; and no call of [import_products] lets an exception reach the
    caller. *)
Theorem import_failures_reported fs backup_file plan s :
  (snapshot_missing fs backup_file \/ snapshot_malformed fs backup_file ->
   call (import_products fs backup_file) plan s = (Returned false, s))
  /\ exists r, fst (call (import_products fs backup_file) plan s) = Returned r.
Proof.
  split.
  - intros [H | H];
      [apply import_products_missing | apply import_products_malformed];
      exact H.
  - apply import_products_never_raises.
Qed.

(** The hypotheses of the theorem above, for a corrupt
    snapshot. *)
Lemma import_failures_reported_witness :
  call (import_products corrupt_backup None) [] empty_store
  = (Returned false, empty_store).
Proof.
  apply (import_failures_reported corrupt_backup None [] empty_store).
  right. eexists. split; reflexivity.
Defined.
(** * The import of a snapshot *)

Lemma find_app_some {A} (p : A -> bool) (l more : list A) (a : A) :
  find p l = Some a -> find p (l ++ more) = Some a.
Proof.
  induction l as [| x l IH]; simpl; [discriminate |].
  destruct (p x); auto.
Qed.

Lemma find_app_none {A} (p : A -> bool) (l more : list A) :
  find p l = None -> find p (l ++ more) = find p more.
Proof.
  induction l as [| x l IH]; simpl; [reflexivity |].
  destruct (p x); [discriminate | auto].
Qed.

Lemma settled_grow cats ps more products_data :
  settled cats ps products_data -> settled cats (ps ++ more) products_data.
Proof.
  intros H pd cat Hin Hc. destruct (H pd cat Hin Hc) as [p Hp].
  exists p. apply find_app_some. exact Hp.
Qed.

Lemma settled_snoc cats ps done pd :
  settled cats ps done ->
  (forall category,
      find (fun c => String.eqb (Category.name c) (ProductData.category pd))
           cats = Some category ->
      exists p,
        find (same_product (ProductData.name pd) (Category.id category)) ps
        = Some p) ->
  settled cats ps (done ++ [pd]).
Proof.
  intros Hd Hpd pd' cat Hin Hc. apply in_app_or in Hin.
  destruct Hin as [Hin | [<- | []]]; [eapply Hd; eassumption | auto].
Qed.

(** The loop of the import, from the transaction content [w]: product
    rows are appended, each built from an entry that resolves and was
    new when the loop started or at least when its turn came, and in the
    end every entry that resolves has its product. *)
Lemma import_loop_wp faulty products_data c w :
  wp faulty (for_each products_data import_entry)
     (fun _ c' w' =>
        c' = c
        /\ exists more,
             w' = with_rows TProduct (products w ++ more) w
             /\ settled (categories w) (products w ++ more) products_data
             /\ Forall (imported_from (categories w) (products w)
                          products_data) more)
     (fun e c' _ => c' = c /\ faulty = true /\ e = OperationalError) c w.
Proof.
  apply (wp_for_each faulty
           (fun rest c' w' =>
              c' = c
              /\ exists done more,
                   products_data = done ++ rest
                   /\ w' = with_rows TProduct (products w ++ more) w
                   /\ settled (categories w) (products w ++ more) done
                   /\ Forall (imported_from (categories w) (products w)
                                products_data) more)).
  - intros pd rest c1 w1 (-> & done & more & Hd & -> & Hs & Hm).
    assert (Hin : In pd products_data).
    { rewrite Hd. apply in_or_app. right. left. reflexivity. }
    assert (Hd' : products_data = (done ++ [pd]) ++ rest).
    { rewrite <- app_assoc. exact Hd. }
    unfold import_entry. wp_steps.
    destruct (find _ (categories w)) as [category |] eqn:Hc; wp_steps.
    + fold (same_product (ProductData.name pd) (Category.id category)).
      destruct (find _ (products w ++ more)) as [p |] eqn:Hp; wp_steps.
      * split; [reflexivity |]. exists (done ++ [pd]), more.
        repeat split; auto. apply settled_snoc; [exact Hs |].
        intros cat Hcat. rewrite Hc in Hcat. injection Hcat as <-. eauto.
      * split; [reflexivity |].
        eexists (done ++ [pd]), (more ++ [_]).
        split; [exact Hd' |].
        split; [rewrite app_assoc; reflexivity |]. rewrite app_assoc. split.
        -- apply settled_snoc; [apply settled_grow; exact Hs |].
           intros cat Hcat. rewrite Hc in Hcat. injection Hcat as <-.
           eexists. rewrite (find_app_none _ _ _ Hp). simpl.
           unfold same_product; simpl.
           rewrite String.eqb_refl, Z.eqb_refl. reflexivity.
        -- apply Forall_snoc; [exact Hm |].
           exists pd, category. repeat split; auto.
           destruct (find (same_product (ProductData.name pd)
                             (Category.id category)) (products w))
             eqn:Hw; [| reflexivity].
           rewrite (find_app_some _ _ more _ Hw) in Hp. discriminate Hp.
    + split; [reflexivity |]. exists (done ++ [pd]), more.
      repeat split; auto. apply settled_snoc; [exact Hs |].
      intros cat Hcat. rewrite Hc in Hcat. discriminate Hcat.
  - intros c1 w1 (-> & done & more & Hd & -> & Hs & Hm).
    rewrite app_nil_r in Hd. subst done.
    split; [reflexivity |]. exists more. auto.
  - split; [reflexivity |]. exists [], []. simpl. rewrite app_nil_r.
    repeat split; auto.
    + destruct w; reflexivity.
    + intros pd cat [].
Qed.

Lemma with_products_same (s : Store) :
  with_rows TProduct (products s ++ []) s = s.
Proof. destruct s. simpl. rewrite app_nil_r. reflexivity. Qed.

(** The transaction of the import, from the database [s]. *)
Lemma import_snapshot_wp faulty products_data s :
  wp faulty (import_snapshot products_data)
     (fun r c _ =>
        r = true
        /\ exists more,
             c = with_rows TProduct (products s ++ more) s
             /\ settled (categories s) (products s ++ more) products_data
             /\ Forall (imported_from (categories s) (products s)
                          products_data) more)
     (fun e c _ =>
        faulty = true
        /\ exists more,
             c = with_rows TProduct (products s ++ more) s
             /\ Forall (imported_from (categories s) (products s)
                          products_data) more) s s.
Proof.
  unfold import_snapshot. apply wp_session_scope. apply wp_bind.
  eapply wp_mono; [apply import_loop_wp | |]; cbv beta.
  - intros _ c w (-> & more & -> & Hs & Hm). wp_steps.
    + intros Hf. split; [exact Hf |]. exists [].
      split; [symmetry; apply with_products_same | constructor].
    + split.
      * split; [reflexivity |]. exists more. auto.
      * intros Hf. split; [exact Hf |]. exists more. auto.
  - intros e c w (-> & Hf & _). split; [exact Hf |]. exists [].
    split; [symmetry; apply with_products_same | constructor].
Qed.

(** Once every entry that resolves has its product, the loop of the
    import writes nothing. *)
Lemma import_loop_settled_wp faulty products_data c w :
  settled (categories w) (products w) products_data ->
  wp faulty (for_each products_data import_entry)
     (fun _ c' w' => c' = c /\ w' = w)
     (fun e c' w' =>
        c' = c /\ w' = w /\ faulty = true /\ e = OperationalError) c w.
Proof.
  intros Hs.
  apply (wp_for_each faulty
           (fun rest c' w' =>
              c' = c /\ w' = w
              /\ forall pd, In pd rest -> In pd products_data)).
  - intros pd rest c1 w1 (-> & -> & Hin).
    unfold import_entry. wp_steps.
    destruct (find _ (categories w)) as [category |] eqn:Hc; wp_steps.
    + destruct (Hs pd category (Hin pd (or_introl eq_refl)) Hc) as [p Hp].
      unfold same_product in Hp. rewrite Hp. wp_steps.
      repeat split. intros pd' Hpd'. apply Hin. right. exact Hpd'.
    + repeat split. intros pd' Hpd'. apply Hin. right. exact Hpd'.
  - intros c1 w1 (-> & -> & _). auto.
  - auto.
Qed.

Lemma import_snapshot_settled_wp faulty products_data s :
  settled (categories s) (products s) products_data ->
  wp faulty (import_snapshot products_data)
     (fun r c _ => r = true /\ c = s)
     (fun e c _ => c = s /\ (False \/ faulty = true /\ e = OperationalError))
     s s.
Proof.
  intros Hs. unfold import_snapshot. apply wp_session_scope. apply wp_bind.
  eapply wp_mono; [apply import_loop_settled_wp; exact Hs | |]; cbv beta.
  - intros _ c w (-> & ->). wp_steps. auto.
  - intros e c w (-> & -> & Hf & ->). auto.
Qed.

(** One entry, when the database answers: the transaction keeps its
    categories, and it is left as it was when the category of the entry
    does not resolve. *)
Lemma import_entry_quiet pd c w :
  exists w',
    import_entry pd (mkSess c w []) = Ok tt (mkSess c w' [])
    /\ categories w' = categories w
    /\ (resolves (categories w) pd = false -> w' = w).
Proof.
  unfold import_entry, resolves, query_first, bind, roundtrip, add, ret.
  simpl.
  destruct (find _ (categories w)) as [category |]; simpl.
  - destruct (find _ (products w)); simpl; eexists;
      (split; [reflexivity |]); split; try reflexivity; discriminate.
  - eexists. repeat split.
Qed.

Lemma bind_ok {A B} (m : Session A) (k : A -> Session B) st a st' :
  m st = Ok a st' -> bind m k st = k a st'.
Proof. intros H. unfold bind. rewrite H. reflexivity. Qed.

Lemma import_loop_skip products_data c w :
  for_each products_data import_entry (mkSess c w [])
  = for_each (filter (resolves (categories w)) products_data) import_entry
      (mkSess c w []).
Proof.
  revert w. induction products_data as [| pd rest IH]; intros w;
    [reflexivity |].
  destruct (import_entry_quiet pd c w) as (w' & Hrun & Hcats & Hskip).
  simpl. destruct (resolves (categories w) pd) eqn:Hr; simpl.
  - rewrite !(bind_ok _ _ _ _ _ Hrun). rewrite IH, Hcats. reflexivity.
  - rewrite (bind_ok _ _ _ _ _ Hrun), (Hskip eq_refl). apply IH.
Qed.

Lemma import_snapshot_skip products_data s :
  call (import_snapshot products_data) [] s
  = call (import_snapshot (filter (resolves (categories s)) products_data))
      [] s.
Proof.
  unfold call, import_snapshot, session_scope, try_finally, try_except.
  set (k := fun _ : unit => commit;; ret true).
  assert (H : (for_each products_data import_entry;; commit;; ret true)
                (mkSess s s [])
              = (for_each (filter (resolves (categories s)) products_data)
                   import_entry;; commit;; ret true) (mkSess s s [])).
  { unfold bind at 1 3. rewrite import_loop_skip. reflexivity. }
  unfold bind at 1 5. fold k. unfold k. rewrite H. reflexivity.
Qed.

(** [import_products] on a snapshot that loads: the transaction of the
    import, with [False] for any exception. *)
Lemma import_products_parsed fs backup_file path products_data plan s :
  choose_backup fs backup_file = Some path ->
  load fs path = Parsed products_data ->
  call (import_products fs backup_file) plan s
  = match call (import_snapshot products_data) plan s with
    | (Returned r, s') => (Returned r, s')
    | (Raised _, s') => (Returned false, s')
    end.
Proof.
  intros Hp Hl. unfold call, import_products, try_except, json_load.
  rewrite Hp, Hl. unfold bind at 1. unfold ret at 1.
  destruct (import_snapshot products_data (mkSess s s plan)); reflexivity.
Qed.

Lemma import_snapshot_quiet products_data s :
  exists more,
    call (import_snapshot products_data) [] s
    = (Returned true, with_rows TProduct (products s ++ more) s)
    /\ settled (categories s) (products s ++ more) products_data
    /\ Forall (imported_from (categories s) (products s) products_data) more.
Proof.
  pose proof (wp_call false _ _ _ s []
                (import_snapshot_wp false products_data s) plan_ok_quiet)
    as H.
  destruct (call (import_snapshot products_data) [] s) as [[r | e] s'].
  - destruct H as (_ & -> & more & -> & Hs & Hm). exists more. auto.
  - destruct H as (_ & H & _). discriminate H.
Qed.

(** C7.  The import of a snapshot, when the database answers, returns
    [True] and only appends products.  Every appended product was built
    from an entry of the snapshot whose category resolves and whose
    (name, category) pair the catalogue did not have: nothing is
    inserted for an entry whose category does not resolve, and the
    import gives the very result it gives for the snapshot without such
    entries.  Every entry whose category resolves has its product in the
    catalogue afterwards, and one of the appended products when its pair
    was new. *)
Theorem import_partial_tolerance fs backup_file path products_data s :
  choose_backup fs backup_file = Some path ->
  load fs path = Parsed products_data ->
  exists more,
    call (import_products fs backup_file) [] s
    = (Returned true, with_rows TProduct (products s ++ more) s)
    /\ Forall (imported_from (categories s) (products s) products_data) more
    /\ (forall pd category,
           In pd products_data ->
           category_of s (ProductData.category pd) = Some category ->
           (exists p,
               In p (products s ++ more)
               /\ Product.name p = ProductData.name pd
               /\ Product.category_id p = Category.id category)
           /\ (find (same_product (ProductData.name pd) (Category.id category))
                    (products s) = None ->
               exists p,
                 In p more
                 /\ Product.name p = ProductData.name pd
                 /\ Product.category_id p = Category.id category))
    /\ call (import_snapshot products_data) [] s
       = call (import_snapshot
                 (filter (resolves (categories s)) products_data)) [] s.
Proof.
  intros Hp Hl.
  destruct (import_snapshot_quiet products_data s) as (more & Hc & Hs & Hm).
  exists more. rewrite (import_products_parsed _ _ _ _ _ _ Hp Hl), Hc.
  split; [reflexivity |]. split; [exact Hm |]. split.
  - intros pd category Hin Hcat. destruct (Hs pd category Hin Hcat) as [p Hf].
    assert (Hsame : Product.name p = ProductData.name pd
                    /\ Product.category_id p = Category.id category).
    { apply find_some in Hf. destruct Hf as [_ Hf]. unfold same_product in Hf.
      apply andb_true_iff in Hf. destruct Hf as [Hn Hi].
      apply String.eqb_eq in Hn. apply Z.eqb_eq in Hi. auto. }
    split.
    + exists p. split; [| exact Hsame]. apply find_some in Hf. tauto.
    + intros Hnew. rewrite (find_app_none _ _ _ Hnew) in Hf.
      exists p. split; [| exact Hsame]. apply find_some in Hf. tauto.
  - rewrite <- Hc. apply import_snapshot_skip.
Qed.

(** The hypotheses of the theorem above, for the example
    snapshot, imported into the example catalogue. *)
Lemma import_partial_tolerance_witness :
  exists more,
    call (import_products example_backups None) [] example_catalog
    = (Returned true,
       with_rows TProduct (products example_catalog ++ more) example_catalog)
    /\ Forall (imported_from (categories example_catalog)
                 (products example_catalog) example_snapshot) more.
Proof.
  destruct (import_partial_tolerance example_backups None
              "backups/products_20240301_090000.json" example_snapshot
              example_catalog eq_refl eq_refl)
    as (more & H1 & H2 & _).
  exists more. split; assumption.
Defined.

(** In the example only [D] is inserted, once, with the values of its
    first entry. *)
Example import_example :
  call (import_products example_backups None) [] example_catalog
  = (Returned true,
     with_rows TProduct
       (products example_catalog
        ++ [Product.mk 3 "D" "fourth" 3%float "d.png" 1]) example_catalog).
Proof. vm_compute. reflexivity. Qed.

(** C4.  For a snapshot that loads and any database, when the database
    answers, the import returns [True] and a second import of the same
    snapshot returns [True] again and leaves the database exactly as the
    first import left it: every entry whose category resolves already
    has its product.  The second import changes nothing even when the
    database refuses round trips. *)
Theorem import_idempotent fs backup_file path products_data s :
  choose_backup fs backup_file = Some path ->
  load fs path = Parsed products_data ->
  exists s1,
    call (import_products fs backup_file) [] s = (Returned true, s1)
    /\ call (import_products fs backup_file) [] s1 = (Returned true, s1)
    /\ settled (categories s1) (products s1) products_data
    /\ forall plan, snd (call (import_products fs backup_file) plan s1) = s1.
Proof.
  intros Hp Hl.
  destruct (import_snapshot_quiet products_data s) as (more & Hc & Hs & Hm).
  exists (with_rows TProduct (products s ++ more) s).
  set (s1 := with_rows TProduct (products s ++ more) s) in *.
  assert (Hs1 : settled (categories s1) (products s1) products_data)
    by exact Hs.
  split; [| split; [| split]].
  - rewrite (import_products_parsed _ _ _ _ _ _ Hp Hl), Hc. reflexivity.
  - rewrite (import_products_parsed _ _ _ _ _ _ Hp Hl).
    pose proof (wp_call false _ _ _ s1 []
                  (import_snapshot_settled_wp false products_data s1 Hs1)
                  plan_ok_quiet) as H.
    destruct (call (import_snapshot products_data) [] s1) as [[r | e] s2].
    + destruct H as (_ & -> & ->). reflexivity.
    + destruct H as (_ & _ & [[] | [H _]]). discriminate H.
  - exact Hs1.
  - intros plan. rewrite (import_products_parsed _ _ _ _ _ _ Hp Hl).
    pose proof (wp_call true _ _ _ s1 plan
                  (import_snapshot_settled_wp true products_data s1 Hs1)
                  (plan_ok_any plan)) as H.
    destruct (call (import_snapshot products_data) plan s1) as [[r | e] s2].
    + destruct H as (_ & _ & ->). reflexivity.
    + destruct H as (_ & -> & _). reflexivity.
Qed.

(** The hypotheses of the theorem above, for the example snapshot. *)
Lemma import_idempotent_witness :
  exists s1,
    call (import_products example_backups None) [] example_catalog
    = (Returned true, s1)
    /\ call (import_products example_backups None) [] s1 = (Returned true, s1).
Proof.
  destruct (import_idempotent example_backups None
              "backups/products_20240301_090000.json" example_snapshot
              example_catalog eq_refl eq_refl)
    as (s1 & H1 & H2 & _).
  exists s1. split; assumption.
Defined.
(** * The cart *)

Lemma get_cart_items_wp faulty uid s :
  wp faulty (get_cart_items uid)
     (fun lines c _ => c = s /\ Forall2 (cart_line_of s) (cart_rows s uid) lines)
     (fun e c _ =>
        c = s
        /\ ((e = AttributeError
             /\ exists item,
                  In item (cart_rows s uid)
                  /\ product_of s (CartItem.product_id item) = None)
            \/ (faulty = true /\ e = OperationalError))) s s.
Proof.
  unfold get_cart_items, cart_rows, cart_of, user_of. wp_steps.
  destruct (find _ (users s)) as [user |]; wp_steps; [| auto].
  destruct (find _ (carts s)) as [cart |]; wp_steps; [| auto].
  eapply wp_mono; [| | intros e c' w' He; exact He].
  - apply wp_list_comp with
      (P := fun i => In i (filter (fun i => CartItem.cart_id i =? Cart.id cart)
                             (cart_items s)))
      (R := cart_line_of s).
    + intros item Hitem. wp_steps.
      destruct (find _ (products s)) as [p |] eqn:Hp; wp_steps.
      * repeat split. exists p. unfold product_of. auto.
      * split; [reflexivity |]. left. split; [reflexivity |].
        exists item. auto.
    + apply Forall_forall. auto.
  - cbv beta. intros lines c' w' (-> & -> & Hl). auto.
Qed.

Lemma NoDup_map_filter_le1 {A} (key : A -> Z * Z) (k : Z * Z)
  (p : A -> bool) (l : list A) :
  NoDup (map key l) ->
  (forall a, p a = true -> key a = k) ->
  (List.length (filter p l) <= 1)%nat.
Proof.
  intros Hnd Hp. induction l as [| a l IH]; simpl; [lia |].
  inversion Hnd as [| x xs Hnin Hnd']; subst.
  destruct (p a) eqn:Ha; [| auto]. simpl.
  assert (Hnil : filter p l = []).
  { destruct (filter p l) as [| b bs] eqn:Hf; [reflexivity |]. exfalso.
    assert (Hb : In b (filter p l)) by (rewrite Hf; left; reflexivity).
    apply filter_In in Hb. destruct Hb as [Hin Hpb].
    apply Hnin. rewrite (Hp a Ha), <- (Hp b Hpb). apply in_map. exact Hin. }
  rewrite Hnil. simpl. lia.
Qed.

Lemma filter_filter {A} (p q : A -> bool) (l : list A) :
  filter q (filter p l) = filter (fun a => p a && q a) l.
Proof.
  induction l as [| a l IH]; simpl; [reflexivity |].
  destruct (p a); simpl; [| exact IH].
  destruct (q a); rewrite IH; reflexivity.
Qed.

Lemma Forall2_filter_length {A B} (R : A -> B -> Prop) (p : A -> bool)
  (q : B -> bool) (l : list A) (l' : list B) :
  Forall2 R l l' ->
  (forall a b, R a b -> p a = q b) ->
  List.length (filter q l') = List.length (filter p l).
Proof.
  intros H Hpq. induction H as [| a b l l' Hab H IH]; simpl; [reflexivity |].
  rewrite (Hpq a b Hab). destruct (q b); simpl; rewrite IH; reflexivity.
Qed.

(** In a sound database the items of a cart hold a product at most
    once. *)
Lemma cart_rows_unique s uid pid :
  store_inv s ->
  (List.length (filter (fun i => (CartItem.product_id i =? pid)%Z)
             (cart_rows s uid))
   <= 1)%nat.
Proof.
  intros (Hnd & _). unfold cart_rows.
  destruct (cart_of s uid) as [cart |]; [| simpl; lia].
  rewrite filter_filter.
  apply NoDup_map_filter_le1 with (key := cart_key) (k := (Cart.id cart, pid));
    [exact Hnd |].
  intros i Hi. apply andb_true_iff in Hi. destruct Hi as [H1 H2].
  apply Z.eqb_eq in H1, H2. unfold cart_key. congruence.
Qed.

Lemma fresh_filter {A} (g : A -> Z) (ids : list Z) (k : Z) (l : list A) :
  Forall (fun a => In (g a) ids) l ->
  ~ In k ids ->
  filter (fun a => g a =? k) l = [].
Proof.
  intros H Hk. induction H as [| a l Ha H IH]; simpl; [reflexivity |].
  destruct (g a =? k) eqn:E; [| exact IH].
  apply Z.eqb_eq in E. subst k. contradiction.
Qed.

Lemma fresh_find {A} (g : A -> Z) (ids : list Z) (k : Z) (l : list A) :
  Forall (fun a => In (g a) ids) l ->
  ~ In k ids ->
  find (fun a => g a =? k) l = None.
Proof.
  intros H Hk. induction H as [| a l Ha H IH]; simpl; [reflexivity |].
  destruct (g a =? k) eqn:E; [| exact IH].
  apply Z.eqb_eq in E. subst k. contradiction.
Qed.

Lemma find_andb_filter {A} (p q : A -> bool) (l : list A) :
  find (fun a => p a && q a) l = find q (filter p l).
Proof.
  induction l as [| a l IH]; simpl; [reflexivity |].
  destruct (p a); simpl; [| exact IH]. destruct (q a); auto.
Qed.

Lemma find_snoc_none {A} (p : A -> bool) (l : list A) (a : A) :
  find p l = None -> p a = true -> find p (l ++ [a]) = Some a.
Proof.
  intros H Ha. rewrite (find_app_none _ _ _ H). simpl. rewrite Ha.
  reflexivity.
Qed.

Lemma filter_snoc_in {A} (p : A -> bool) (l : list A) (a : A) :
  p a = true -> filter p (l ++ [a]) = filter p l ++ [a].
Proof. intros Ha. rewrite filter_app. simpl. rewrite Ha. reflexivity. Qed.

Lemma filter_map_same {A} (p : A -> bool) (g : A -> A) (l : list A) :
  (forall a, p (g a) = p a) -> filter p (map g l) = map g (filter p l).
Proof.
  intros H. induction l as [| a l IH]; simpl; [reflexivity |].
  rewrite H. destruct (p a); simpl; rewrite IH; reflexivity.
Qed.

Lemma cart_holds_intro us cats ps cs cis os ois uid pid n user cart id :
  find (fun u => User.telegram_id u =? uid) us = Some user ->
  find (fun c => Cart.user_id c =? User.id user) cs = Some cart ->
  filter (fun i => CartItem.cart_id i =? Cart.id cart) cis
  = [CartItem.mk id (Cart.id cart) pid n] ->
  cart_holds (mkStore us cats ps cs cis os ois) uid pid n.
Proof.
  intros Hu Hc Hi. exists cart, id. unfold cart_rows, cart_of, user_of.
  simpl. rewrite Hu, Hc. auto.
Qed.

(** The first product put into an empty cart. *)
Lemma add_to_cart_first s uid pid p :
  store_inv s ->
  product_of s pid = Some p ->
  cart_rows s uid = [] ->
  wp false (add_to_cart_db uid pid)
     (fun _ c _ => cart_holds c uid pid 1 /\ products c = products s)
     (fun _ _ _ => False) s s.
Proof.
  intros (_ & Hic & _ & Hcu & _) Hp Hrows.
  unfold product_of in Hp. unfold cart_rows, cart_of, user_of in Hrows.
  unfold add_to_cart_db. wp_steps.
  destruct (find _ (users s)) as [user |] eqn:Hu; wp_steps.
  - destruct (find _ (carts s)) as [cart |] eqn:Hc; wp_steps.
    + rewrite Hp. wp_steps. rewrite find_andb_filter, Hrows. simpl.
      wp_steps. split; [| discriminate]. split; [| reflexivity].
      eapply cart_holds_intro; [exact Hu | exact Hc |].
      rewrite filter_snoc_in, Hrows; [reflexivity | apply Z.eqb_refl].
    + rewrite Hp. wp_steps.
      assert (Hnone : filter (fun i => CartItem.cart_id i
                                       =? next_id (map Cart.id (carts s)))
                        (cart_items s) = []).
      { apply (fresh_filter _ _ _ _ Hic). apply next_id_fresh. }
      rewrite find_andb_filter, Hnone. simpl. wp_steps.
      split; [| discriminate]. split; [| reflexivity].
      eapply cart_holds_intro; [exact Hu | |].
      * apply find_snoc_none; [exact Hc | apply Z.eqb_refl].
      * simpl. rewrite filter_snoc_in, Hnone; [reflexivity | apply Z.eqb_refl].
  - assert (Hnc : find (fun c => Cart.user_id c
                                 =? next_id (map User.id (users s)))
                    (carts s) = None).
    { apply (fresh_find _ _ _ _ Hcu). apply next_id_fresh. }
    rewrite Hnc. wp_steps. rewrite Hp. wp_steps.
    assert (Hnone : filter (fun i => CartItem.cart_id i
                                     =? next_id (map Cart.id (carts s)))
                      (cart_items s) = []).
    { apply (fresh_filter _ _ _ _ Hic). apply next_id_fresh. }
    rewrite find_andb_filter, Hnone. simpl. wp_steps.
    split; [| discriminate]. split; [| reflexivity].
    eapply cart_holds_intro.
    + apply find_snoc_none; [exact Hu | apply Z.eqb_refl].
    + simpl. apply find_snoc_none; [exact Hnc | apply Z.eqb_refl].
    + simpl. rewrite filter_snoc_in, Hnone; [reflexivity | apply Z.eqb_refl].
Qed.

(** One more of the product that the cart holds. *)
Lemma add_to_cart_next s uid pid p n :
  product_of s pid = Some p ->
  cart_holds s uid pid n ->
  wp false (add_to_cart_db uid pid)
     (fun _ c _ => cart_holds c uid pid (n + 1) /\ products c = products s)
     (fun _ _ _ => False) s s.
Proof.
  intros Hp (cart & id & Hc & Hrows).
  unfold product_of in Hp. unfold cart_rows in Hrows. rewrite Hc in Hrows.
  unfold cart_of, user_of in Hc.
  destruct (find (fun u => User.telegram_id u =? uid) (users s))
    as [user |] eqn:Hu; [| discriminate Hc].
  unfold add_to_cart_db. wp_steps. rewrite Hu. wp_steps. rewrite Hc.
  wp_steps. rewrite Hp. wp_steps. rewrite find_andb_filter, Hrows.
  simpl. rewrite Z.eqb_refl. wp_steps.
  split; [| discriminate]. split; [| reflexivity].
  eapply cart_holds_intro; [exact Hu | exact Hc |].
  rewrite filter_map_same.
  - rewrite Hrows. simpl. rewrite Z.eqb_refl. reflexivity.
  - intros i. destruct (CartItem.id i =? id); reflexivity.
Qed.

Lemma call_quiet_returns {A} (m : Session A) (Q : A -> assertion) s :
  wp false m Q (fun _ _ _ => False) s s ->
  exists a s' w, call m [] s = (Returned a, s') /\ Q a s' w.
Proof.
  intros H. pose proof (wp_call false m _ _ s [] H plan_ok_quiet) as Hc.
  destruct (call m [] s) as [[a | e] s']; destruct Hc as [w Hc];
    [eauto | contradiction].
Qed.

(** The product, added [n + 1] times to an empty cart. *)
Lemma add_to_cart_times_holds n s uid pid p :
  store_inv s ->
  product_of s pid = Some p ->
  cart_rows s uid = [] ->
  cart_holds (add_to_cart_times (S n) uid pid s) uid pid (Z.of_nat (S n))
  /\ products (add_to_cart_times (S n) uid pid s) = products s.
Proof.
  intros Hinv Hp Hrows. induction n as [| n [IHh IHp]].
  - unfold add_to_cart_times. simpl.
    destruct (call_quiet_returns _ _ _
                (add_to_cart_first s uid pid p Hinv Hp Hrows))
      as (a & s' & w & Hcall & H). rewrite Hcall. exact H.
  - assert (Hp' : product_of (add_to_cart_times (S n) uid pid s) pid = Some p).
    { unfold product_of. rewrite IHp. exact Hp. }
    change (add_to_cart_times (S (S n)) uid pid s)
      with (exec (AddToCart uid pid) [] (add_to_cart_times (S n) uid pid s)).
    change (exec (AddToCart uid pid) [] (add_to_cart_times (S n) uid pid s))
      with (snd (call (add_to_cart_db uid pid) []
                   (add_to_cart_times (S n) uid pid s))).
    destruct (call_quiet_returns _ _ _
                (add_to_cart_next _ uid pid p _ Hp' IHh))
      as (a & s' & w & Hcall & Hh & Hps). rewrite Hcall. cbn [snd].
    split; [| congruence].
    replace (Z.of_nat (S (S n))) with (Z.of_nat (S n) + 1) by lia.
    exact Hh.
Qed.

Lemma get_cart_items_empty uid s :
  fst (call (get_cart_items uid) [] s) = Returned [] -> cart_rows s uid = [].
Proof.
  intros H.
  pose proof (wp_call false _ _ _ s [] (get_cart_items_wp false uid s)
                plan_ok_quiet) as Hw.
  destruct (call (get_cart_items uid) [] s) as [[lines | e] s'];
    simpl in H; [| discriminate H].
  injection H as ->. destruct Hw as (_ & _ & Hl). inversion Hl. reflexivity.
Qed.

Lemma get_cart_items_holds uid pid n p s :
  cart_holds s uid pid n ->
  product_of s pid = Some p ->
  exists id,
    call (get_cart_items uid) [] s
    = (Returned [CartLine.mk id pid n (Product.name p) (Product.price p)], s).
Proof.
  intros (cart & id & Hc & Hrows) Hp.
  pose proof (wp_call false _ _ _ s [] (get_cart_items_wp false uid s)
                plan_ok_quiet) as Hw.
  rewrite Hrows in Hw.
  destruct (call (get_cart_items uid) [] s) as [[lines | e] s'].
  - destruct Hw as (_ & -> & Hl). exists id.
    inversion Hl as [| item line rows lines' Hline Hnil]; subst.
    inversion Hnil; subst.
    destruct Hline as (H1 & H2 & H3 & p' & Hp' & H4 & H5).
    simpl in *. rewrite Hp in Hp'. injection Hp' as <-.
    destruct line; simpl in *; subst. reflexivity.
  - exfalso. destruct Hw as (_ & _ & [(_ & item & [<- | []] & Hnone) | [H _]]).
    + simpl in Hnone. congruence.
    + discriminate H.
Qed.

(** C3.  In every state the bot can reach, in particular after any
    sequence of calls of [add_to_cart_db], the cart that
    [get_cart_items] returns for a user has at most one line for a
    product.  And when the cart of the user is empty and the product
    exists, adding the product [n] times, [n >= 1], leaves a cart with
    exactly one line: that product, in quantity [n]. *)
Theorem cart_aggregation s uid pid :
  reachable s ->
  (forall fs lines,
      fst (call (get_cart_items uid) fs s) = Returned lines ->
      (List.length
         (filter (fun l => (CartLine.product_id l =? pid)%Z) lines) <= 1)%nat)
  /\ (forall p n,
         product_of s pid = Some p ->
         fst (call (get_cart_items uid) [] s) = Returned [] ->
         (1 <= n)%nat ->
         exists id,
           call (get_cart_items uid) [] (add_to_cart_times n uid pid s)
           = (Returned [CartLine.mk id pid (Z.of_nat n) (Product.name p)
                          (Product.price p)],
              add_to_cart_times n uid pid s)).
Proof.
  intros Hr. apply reachable_inv in Hr. split.
  - intros fs lines H.
    pose proof (wp_call true _ _ _ s fs (get_cart_items_wp true uid s)
                  (plan_ok_any fs)) as Hw.
    destruct (call (get_cart_items uid) fs s) as [[lines' | e] s'];
      simpl in H; [| discriminate H].
    injection H as ->. destruct Hw as (_ & _ & Hl).
    rewrite (Forall2_filter_length (cart_line_of s)
               (fun i => CartItem.product_id i =? pid) _ _ _ Hl).
    + apply cart_rows_unique. exact Hr.
    + intros i l (_ & -> & _). reflexivity.
  - intros p n Hp Hempty Hn. apply get_cart_items_empty in Hempty.
    destruct n as [| n]; [lia |].
    destruct (add_to_cart_times_holds n s uid pid p Hr Hp Hempty)
      as [Hh Hps].
    apply get_cart_items_holds; [exact Hh |].
    unfold product_of. rewrite Hps. exact Hp.
Qed.

(** The hypotheses of the theorem above, in the example catalogue: the
    user 42 adds product 1 three times. *)
Lemma example_catalog_reachable : reachable example_catalog.
Proof. repeat apply reach_call. apply reach_fresh. Qed.

Lemma cart_aggregation_witness :
  exists id,
    call (get_cart_items 42) [] (add_to_cart_times 3 42 1 example_catalog)
    = (Returned [CartLine.mk id 1 3 "A" 10%float],
       add_to_cart_times 3 42 1 example_catalog).
Proof.
  destruct (cart_aggregation example_catalog 42 1 example_catalog_reachable)
    as [_ H].
  apply (H (Product.mk 1 "A" "first" 10%float "a.png" 4) 3%nat).
  - reflexivity.
  - reflexivity.
  - lia.
Defined.

Example cart_aggregation_example :
  cart_items (add_to_cart_times 3 42 1 example_catalog)
  = [CartItem.mk 1 1 1 3].
Proof. vm_compute. reflexivity. Qed.
(** * Keys are kept by every call *)

Section Keeping.

Variable good : Store -> Store -> Prop.

Lemma keeps_session_scope {A} (body : Session A) :
  keeps good body -> keeps good (session_scope body).
Proof.
  intros Hb faulty s c w H. apply wp_session_scope.
  eapply wp_mono; [apply Hb; exact H | |]; cbv beta.
  - intros a c' w' [Hc Hw]. auto.
  - intros e c' w' [Hc Hw]. auto.
Qed.

Lemma keeps_bind {A B} (m : Session A) (k : A -> Session B) :
  keeps good m -> (forall a, keeps good (k a)) -> keeps good (bind m k).
Proof.
  intros Hm Hk faulty s c w H.
  apply wp_bind_via with (R := fun _ c' w' => good s c' /\ good s w');
    [apply Hm; exact H |].
  intros a c' w' H'. apply Hk. exact H'.
Qed.

Lemma keeps_ret {A} (a : A) : keeps good (ret a).
Proof. intros faulty s c w H. apply wp_ret. exact H. Qed.

Lemma keeps_for_each {A} (xs : list A) (body : A -> Session unit) :
  (forall x, keeps good (body x)) -> keeps good (for_each xs body).
Proof.
  intros Hb faulty s c w H.
  apply (wp_for_each faulty (fun _ c' w' => good s c' /\ good s w')); auto.
  intros x rest c' w' H'. apply Hb. exact H'.
Qed.

Lemma keeps_commit : keeps good commit.
Proof. intros faulty s c w [Hc Hw]. wp_steps; auto. Qed.

Lemma keeps_rollback_raise {A} e faulty s c w :
  good s c ->
  wp faulty (rollback;; @raise A e) (fun _ c' w' => good s c' /\ good s w')
     (fun _ c' w' => good s c' /\ good s w') c w.
Proof. intros H. wp_steps. auto. Qed.

Lemma keeps_raise {A} e : keeps good (@raise A e).
Proof. intros faulty s c w H. apply wp_raise. exact H. Qed.

Lemma keeps_query_first {R} (T : Table R) p : keeps good (query_first T p).
Proof. intros faulty s c w H. wp_steps. exact H. Qed.

Lemma keeps_query_all {R} (T : Table R) p : keeps good (query_all T p).
Proof. intros faulty s c w H. wp_steps. exact H. Qed.

Lemma keeps_lazy_load {R} (T : Table R) key : keeps good (lazy_load T key).
Proof. apply keeps_query_first. Qed.

Lemma keeps_getattr {R A} (o : option R) (attr : R -> A) :
  keeps good (getattr o attr).
Proof.
  destruct o; simpl; [apply keeps_ret | apply keeps_raise].
Qed.

Lemma keeps_list_comp {A B} (xs : list A) (f : A -> Session B) :
  (forall x, keeps good (f x)) -> keeps good (list_comp xs f).
Proof.
  intros Hf. induction xs as [| x xs IH]; simpl.
  - apply keeps_ret.
  - apply keeps_bind; [apply Hf |]. intros y.
    apply keeps_bind; [exact IH |]. intros ys. apply keeps_ret.
Qed.

(** A call of a program that keeps [good], from a database in which it
    holds. *)
Lemma keeps_call {A} (m : Session A) fs s :
  keeps good m -> good s s -> good s (snd (call m fs s)).
Proof.
  intros Hm H.
  pose proof (wp_call true m _ _ s fs (Hm true s s s (conj H H))
                (plan_ok_any fs)) as Hw.
  destruct (call m fs s) as [[a | e] s']; destruct Hw as [w [Hw _]];
    exact Hw.
Qed.

End Keeping.

Lemma NoDup_snoc {A} (l : list A) (a : A) :
  NoDup l -> ~ In a l -> NoDup (l ++ [a]).
Proof.
  intros Hl Ha. apply NoDup_app; [exact Hl | |].
  - constructor; [intros [] | constructor].
  - intros x Hx [<- | []]. contradiction.
Qed.

Lemma NoDup_map_snoc {A B} (f : A -> B) (l : list A) (a : A) :
  NoDup (map f l) -> ~ In (f a) (map f l) -> NoDup (map f (l ++ [a])).
Proof. intros Hl Ha. rewrite map_app. apply NoDup_snoc; assumption. Qed.

Lemma find_none_not_in {A} (key : A -> Z) (k : Z) (l : list A) :
  find (fun a => key a =? k) l = None -> ~ In k (map key l).
Proof.
  intros Hf Hin. apply in_map_iff in Hin. destruct Hin as (a & Hk & Hin).
  pose proof (find_none _ _ Hf a Hin) as Hn. cbv beta in Hn.
  rewrite Hk, Z.eqb_refl in Hn. discriminate Hn.
Qed.

Lemma find_none_name_not_in {A} (key : A -> string) (k : string)
  (l : list A) :
  find (fun a => String.eqb (key a) k) l = None -> ~ In k (map key l).
Proof.
  intros Hf Hin. apply in_map_iff in Hin. destruct Hin as (a & Hk & Hin).
  pose proof (find_none _ _ Hf a Hin) as Hn. cbv beta in Hn.
  rewrite Hk, String.eqb_refl in Hn. discriminate Hn.
Qed.

Lemma map_key_update {A K} (key : A -> K) (g : A -> A) (l : list A) :
  (forall a, key (g a) = key a) -> map key (map g l) = map key l.
Proof. intros H. rewrite map_map. apply map_ext. exact H. Qed.

Ltac keys_split Hkeys :=
  destruct Hkeys as (K1 & K2 & K3 & K4 & K5 & K6 & K7 & K8 & K9 & K10 & K11
                     & K12);
  repeat split; try assumption;
  try (apply NoDup_map_snoc; assumption);
  try (apply Forall_in_app; assumption);
  try (apply Forall_snoc; assumption).

Section TablesKeys.

Variables (us : list User.t) (cats : list Category.t) (ps : list Product.t)
          (cs : list Cart.t) (cis : list CartItem.t) (os : list Order.t)
          (ois : list OrderItem.t).

Hypothesis Hkeys : tables_keys us cats ps cs cis os ois.

Lemma keys_add_user u :
  ~ In (User.id u) (map User.id us) ->
  ~ In (User.telegram_id u) (map User.telegram_id us) ->
  tables_keys (us ++ [u]) cats ps cs cis os ois.
Proof. intros Hi Ht. keys_split Hkeys. Qed.

Lemma keys_update_user g :
  (forall u, user_key (g u) = user_key u) ->
  tables_keys (map g us) cats ps cs cis os ois.
Proof.
  intros Hg.
  assert (Hi : map User.id (map g us) = map User.id us).
  { rewrite map_map. apply map_ext. intros u. specialize (Hg u).
    unfold user_key in Hg. congruence. }
  assert (Ht : map User.telegram_id (map g us) = map User.telegram_id us).
  { rewrite map_map. apply map_ext. intros u. specialize (Hg u).
    unfold user_key in Hg. congruence. }
  keys_split Hkeys; [rewrite Hi | rewrite Ht]; assumption.
Qed.

Lemma keys_add_category c :
  ~ In (Category.id c) (map Category.id cats) ->
  ~ In (Category.name c) (map Category.name cats) ->
  tables_keys us (cats ++ [c]) ps cs cis os ois.
Proof. intros Hi Hn. keys_split Hkeys. Qed.

Lemma keys_add_product p :
  ~ In (Product.id p) (map Product.id ps) ->
  In (Product.category_id p) (map Category.id cats) ->
  tables_keys us cats (ps ++ [p]) cs cis os ois.
Proof. intros Hi Hp. keys_split Hkeys. Qed.

Lemma keys_add_cart c :
  ~ In (Cart.id c) (map Cart.id cs) ->
  ~ In (Cart.user_id c) (map Cart.user_id cs) ->
  tables_keys us cats ps (cs ++ [c]) cis os ois.
Proof. intros Hi Hu. keys_split Hkeys. Qed.

Lemma keys_add_cart_item i :
  ~ In (CartItem.id i) (map CartItem.id cis) ->
  tables_keys us cats ps cs (cis ++ [i]) os ois.
Proof. intros Hi. keys_split Hkeys. Qed.

Lemma keys_update_cart_items g :
  (forall i, CartItem.id (g i) = CartItem.id i) ->
  tables_keys us cats ps cs (map g cis) os ois.
Proof.
  intros Hg. keys_split Hkeys. rewrite map_key_update; assumption.
Qed.

Lemma keys_delete_cart_items p :
  tables_keys us cats ps cs (filter p cis) os ois.
Proof. keys_split Hkeys. apply NoDup_map_filter. assumption. Qed.

Lemma keys_add_order o :
  ~ In (Order.id o) (map Order.id os) ->
  tables_keys us cats ps cs cis (os ++ [o]) ois.
Proof. intros Hi. keys_split Hkeys. Qed.

Lemma keys_add_order_item i :
  ~ In (OrderItem.id i) (map OrderItem.id ois) ->
  In (OrderItem.order_id i) (map Order.id os) ->
  tables_keys us cats ps cs cis os (ois ++ [i]).
Proof. intros Hi Ho. keys_split Hkeys. Qed.

End TablesKeys.

Ltac keys_norm :=
  cbn [users categories products carts cart_items orders order_items
       User.id User.telegram_id Category.id Category.name Product.id
       Product.category_id Cart.id Cart.user_id CartItem.id Order.id
       Order.user_id OrderItem.id OrderItem.order_id OrderItem.product_id
       user_key] in *.

Ltac keys_open :=
  unfold well_keyed, keys_inv, grown in *; keys_norm;
  repeat match goal with
         | H : _ /\ _ |- _ => destruct H
         | H : exists _, _ |- _ => destruct H
         end.

Ltac grow_tac :=
  first
    [ solve [eexists; eassumption]
    | match goal with
      | H : ?x = _ ++ _ |- exists more, ?x ++ _ = _ ++ more =>
          rewrite H; rewrite <- app_assoc; eexists; reflexivity
      | H : map user_key ?x = _ ++ _
        |- exists more, map user_key (?x ++ _) = _ ++ more =>
          rewrite map_app, H, <- app_assoc; eexists; reflexivity
      | H : map user_key ?x = _ ++ _
        |- exists more, map user_key (map _ ?x) = _ ++ more =>
          rewrite map_key_update;
          [eexists; exact H
          | intros ?; cbv beta; destruct (_ =? _); reflexivity]
      end ].

Ltac keys_chain :=
  repeat first
    [ assumption
    | apply keys_add_order_item
    | apply keys_add_order
    | apply keys_add_cart_item
    | apply keys_update_cart_items
    | apply keys_delete_cart_items
    | apply keys_add_cart
    | apply keys_add_product
    | apply keys_add_category
    | apply keys_update_user
    | apply keys_add_user ].

Ltac keys_side :=
  first
    [ assumption
    | solve [apply next_id_fresh]
    | in_snoc
    | solve [apply find_none_not_in; assumption]
    | solve [apply find_none_name_not_in; assumption]
    | solve [eapply find_some_in; eassumption]
    | solve [intros ?; cbv beta; destruct (_ =? _); reflexivity]
    | solve [apply in_map_grow; assumption] ].

Ltac keys_goal :=
  split; [keys_chain; keys_norm; try keys_side | repeat split; try grow_tac].

Ltac keys_tac :=
  intros; repeat wp_pure; keys_open; split; keys_goal.

Lemma keeps_keys_add_user t a u : keeps well_keyed (add_user t a u).
Proof.
  apply keeps_session_scope. intros faulty s c w H.
  unfold add_user. wp_steps.
  destruct (find _ (users w)) as [user |] eqn:Hu; wp_steps; keys_tac.
Qed.

Lemma keeps_keys_add_product n d p cn i :
  keeps well_keyed (add_product n d p cn i).
Proof.
  apply keeps_session_scope. intros faulty s c w H.
  unfold add_product. wp_steps.
  destruct (find _ (categories w)) as [category |] eqn:Hc; wp_steps;
    [| exact H].
  keys_tac.
Qed.

Lemma keeps_keys_clear_cart uid : keeps well_keyed (clear_cart uid).
Proof.
  apply keeps_session_scope. intros faulty s c w H.
  unfold clear_cart. wp_steps.
  destruct (find _ (users w)) as [user |]; wp_steps; [| exact H].
  destruct (find _ (carts w)) as [cart |]; wp_steps; [| exact H].
  keys_tac.
Qed.

Lemma keeps_keys_add_to_cart_db uid pid :
  keeps well_keyed (add_to_cart_db uid pid).
Proof.
  apply keeps_session_scope. intros faulty s c w H.
  unfold add_to_cart_db. wp_pure.
  assert (Hexc : forall e c w,
             well_keyed s c ->
             wp faulty (rollback;; raise e)
               (fun _ : unit => fun c' w' => well_keyed s c' /\ well_keyed s w')
               (fun _ c' w' => well_keyed s c' /\ well_keyed s w') c w).
  { intros e c0 w0 H0. wp_steps. auto. }
  wp_pure. wp_db; [intros _; apply Hexc; tauto |].
  apply wp_bind_via with
    (R := fun (_ : User.t) c' w' => well_keyed s c' /\ well_keyed s w').
  { destruct (find _ (users w)) as [user |] eqn:Hu; wp_steps.
    - exact H.
    - intros _. apply Hexc. tauto.
    - keys_tac. }
  clear c w H. intros user c w H.
  wp_pure. wp_db; [intros _; apply Hexc; tauto |].
  apply wp_bind_via with
    (R := fun (_ : Cart.t) c' w' => well_keyed s c' /\ well_keyed s w').
  { destruct (find _ (carts w)) as [cart |] eqn:Hc; wp_steps.
    - exact H.
    - intros _. apply Hexc. tauto.
    - keys_tac. }
  clear c w H. intros cart c w H.
  wp_pure. wp_db; [intros _; apply Hexc; tauto |].
  destruct (find _ (products w)) as [p |] eqn:Hp;
    [| wp_steps; tauto].
  wp_pure. wp_db; [intros _; apply Hexc; tauto |].
  destruct (find _ (cart_items w)) as [ci |] eqn:Hci; wp_steps;
    try (intros _; apply Hexc; tauto); keys_tac.
Qed.

Lemma keeps_keys_create_order now uid :
  keeps well_keyed (create_order now uid).
Proof.
  apply keeps_session_scope. intros faulty s c w H.
  unfold create_order. wp_steps.
  destruct (find _ (users w)) as [user |] eqn:Hu; wp_steps; [| exact H].
  destruct (find _ (carts w)) as [cart |] eqn:Hc; wp_steps; [| exact H].
  destruct (filter _ (cart_items w)) as [| item items] eqn:Hi;
    [wp_steps; exact H |].
  wp_steps; [keys_tac |].
  apply (wp_for_each faulty
           (fun _ c1 w1 =>
              (well_keyed s c1 /\ well_keyed s w1)
              /\ In (next_id (map Order.id (orders w)))
                    (map Order.id (orders w1)))).
  - intros x rest c1 w1 [H1 Hin]. wp_steps.
    destruct (find _ (products w1)) as [p |] eqn:Hp; wp_steps; [| exact H1].
    split; [keys_tac | exact Hin].
  - intros c1 w1 [H1 Hin]. wp_steps. keys_tac.
  - split; [keys_tac | keys_norm; in_snoc].
Qed.

Lemma keeps_keys_import_entry pd : keeps well_keyed (import_entry pd).
Proof.
  intros faulty s c w H. unfold import_entry. wp_steps.
  destruct (find _ (categories w)) as [category |] eqn:Hc; wp_steps;
    [| exact H].
  destruct (find _ (products w)) as [p |]; wp_steps; [exact H |].
  keys_tac.
Qed.

Lemma keeps_keys_import_products fs b :
  keeps well_keyed (import_products fs b).
Proof.
  intros faulty s c w H. unfold import_products. wp_pure.
  destruct (choose_backup fs b) as [path |]; [| wp_steps; exact H].
  unfold json_load. wp_pure.
  destruct (load fs path) as [| | products_data];
    [wp_steps; exact H | wp_steps; exact H |].
  apply wp_ret.
  assert (Hb : keeps well_keyed (import_snapshot products_data)).
  { apply keeps_session_scope.
    apply keeps_bind; [apply keeps_for_each |].
    + apply keeps_keys_import_entry.
    + intros _. apply keeps_bind; [apply keeps_commit |].
      intros _. apply keeps_ret. }
  eapply wp_mono.
  - apply Hb. exact H.
  - cbv beta. intros a c' w' H'. wp_steps. exact H'.
  - cbv beta. intros e c' w' H'. wp_steps. exact H'.
Qed.

Lemma keeps_keys_init_db admin_id fs : keeps well_keyed (init_db admin_id fs).
Proof.
  unfold init_db. apply keeps_session_scope.
  apply keeps_bind.
  { apply keeps_for_each. intros name faulty s c w H. wp_steps.
    destruct (find _ (categories w)) eqn:Hc; wp_steps; [exact H | keys_tac]. }
  intros _. apply keeps_bind.
  { destruct (admin_id =? 0); [apply keeps_ret |].
    intros faulty s c w H. wp_steps.
    destruct (find _ (users w)) eqn:Hu; wp_steps; [exact H | keys_tac]. }
  intros _. apply keeps_bind; [apply keeps_commit |].
  intros _. apply keeps_bind; [apply keeps_keys_import_products |].
  intros _. apply keeps_ret.
Qed.

Lemma grown_refl s : grown s s.
Proof.
  unfold grown. repeat split; exists []; rewrite app_nil_r; reflexivity.
Qed.

Lemma grown_trans s1 s2 s3 : grown s1 s2 -> grown s2 s3 -> grown s1 s3.
Proof.
  unfold grown.
  intros ([a1 A1] & [b1 B1] & [c1 C1] & [d1 D1] & [e1 E1])
         ([a2 A2] & [b2 B2] & [c2 C2] & [d2 D2] & [e2 E2]).
  repeat split.
  - exists (a1 ++ a2). rewrite A2, A1, app_assoc. reflexivity.
  - exists (b1 ++ b2). rewrite B2, B1, app_assoc. reflexivity.
  - exists (c1 ++ c2). rewrite C2, C1, app_assoc. reflexivity.
  - exists (d1 ++ d2). rewrite D2, D1, app_assoc. reflexivity.
  - exists (e1 ++ e2). rewrite E2, E1, app_assoc. reflexivity.
Qed.

Lemma exec_keys c fs s : keys_inv s -> well_keyed s (exec c fs s).
Proof.
  intros H.
  assert (H0 : well_keyed s s) by (split; [exact H | apply grown_refl]).
  destruct c; simpl; apply keeps_call; try exact H0.
  - apply keeps_keys_init_db.
  - apply keeps_keys_add_user.
  - apply keeps_keys_add_product.
  - apply keeps_keys_add_to_cart_db.
  - apply keeps_keys_clear_cart.
  - apply keeps_keys_create_order.
  - apply keeps_keys_import_products.
Qed.

Lemma reachable_keys s : reachable s -> keys_inv s.
Proof.
  induction 1 as [| s c fs Hr IH].
  - unfold keys_inv, tables_keys. simpl. repeat split; constructor.
  - apply exec_keys. exact IH.
Qed.

Lemma run_calls_keys history s :
  keys_inv s -> well_keyed s (run_calls history s).
Proof.
  unfold run_calls. revert s.
  induction history as [| [c fs] history IH]; intros s H; simpl.
  - split; [exact H | apply grown_refl].
  - destruct (exec_keys c fs s H) as [Hk Hg].
    destruct (IH _ Hk) as [Hk' Hg']. split; [exact Hk' |].
    eapply grown_trans; eassumption.
Qed.
(** * Unambiguous lookups *)

Lemma NoDup_key_filter_le1 {A K} (key : A -> K) (k : K) (p : A -> bool)
  (l : list A) :
  NoDup (map key l) ->
  (forall a, p a = true -> key a = k) ->
  (List.length (filter p l) <= 1)%nat.
Proof.
  intros Hnd Hp. induction l as [| a l IH]; simpl; [lia |].
  inversion Hnd as [| x xs Hnin Hnd']; subst.
  destruct (p a) eqn:Ha; [| auto]. simpl.
  assert (Hnil : filter p l = []).
  { destruct (filter p l) as [| b bs] eqn:Hf; [reflexivity |]. exfalso.
    assert (Hb : In b (filter p l)) by (rewrite Hf; left; reflexivity).
    apply filter_In in Hb. destruct Hb as [Hin Hpb].
    apply Hnin. rewrite (Hp a Ha), <- (Hp b Hpb). apply in_map. exact Hin. }
  rewrite Hnil. simpl. lia.
Qed.

(** Two rows of a table without repeated keys that have the same key are
    the same row. *)
Lemma NoDup_key_inj {A K} (key : A -> K) (l : list A) (a b : A) :
  NoDup (map key l) -> In a l -> In b l -> key a = key b -> a = b.
Proof.
  induction l as [| x l IH]; simpl; intros Hnd Ha Hb Hk; [destruct Ha |].
  inversion Hnd as [| y ys Hnin Hnd']; subst.
  destruct Ha as [-> | Ha], Hb as [-> | Hb]; auto.
  - exfalso. apply Hnin. rewrite Hk. apply in_map. exact Hb.
  - exfalso. apply Hnin. rewrite <- Hk. apply in_map. exact Ha.
Qed.

(** X1.  In every state the bot can reach there is at most one user row
    for a telegram id. *)
Theorem one_user_per_telegram_id s telegram_id :
  reachable s ->
  (List.length
     (filter (fun u => (User.telegram_id u =? telegram_id)%Z) (users s))
   <= 1)%nat.
Proof.
  intros Hr. apply reachable_keys in Hr.
  destruct Hr as (_ & K2 & _).
  apply NoDup_key_filter_le1 with (key := User.telegram_id)
                                  (k := telegram_id); [exact K2 |].
  intros u Hu. apply Z.eqb_eq. exact Hu.
Qed.

(** X2.  In every state the bot can reach a user has at most one cart. *)
Theorem one_cart_per_user s user_id :
  reachable s ->
  (List.length (filter (fun c => (Cart.user_id c =? user_id)%Z) (carts s))
   <= 1)%nat.
Proof.
  intros Hr. apply reachable_keys in Hr.
  destruct Hr as (_ & _ & _ & _ & _ & _ & _ & K8 & _).
  apply NoDup_key_filter_le1 with (key := Cart.user_id) (k := user_id);
    [exact K8 |].
  intros c Hc. apply Z.eqb_eq. exact Hc.
Qed.

(** X3.  In every state the bot can reach there is at most one category
    of a name, and the category of every product exists. *)
Theorem categories_are_keyed_by_name s :
  reachable s ->
  (forall name,
      (List.length
         (filter (fun c => String.eqb (Category.name c) name) (categories s))
       <= 1)%nat)
  /\ (forall p,
         In p (products s) ->
         exists category,
           In category (categories s)
           /\ Category.id category = Product.category_id p).
Proof.
  intros Hr. apply reachable_keys in Hr.
  destruct Hr as (_ & _ & _ & K4 & _ & K6 & _). split.
  - intros name.
    apply NoDup_key_filter_le1 with (key := Category.name) (k := name);
      [exact K4 |].
    intros c Hc. apply String.eqb_eq. exact Hc.
  - intros p Hp. rewrite Forall_forall in K6. specialize (K6 p Hp).
    apply in_map_iff in K6. destruct K6 as (category & Hid & Hin). eauto.
Qed.

(** The hypotheses of the three theorems above, in the example
    scenario. *)
Lemma one_user_per_telegram_id_witness :
  (List.length
     (filter (fun u => (User.telegram_id u =? 42)%Z) (users example_order))
   <= 1)%nat.
Proof. apply (one_user_per_telegram_id example_order 42).
       exact example_order_reachable. Defined.

Lemma one_cart_per_user_witness :
  (List.length (filter (fun c => (Cart.user_id c =? 2)%Z) (carts example_order))
   <= 1)%nat.
Proof. apply (one_cart_per_user example_order 2).
       exact example_order_reachable. Defined.

Lemma categories_are_keyed_by_name_witness :
  (List.length
     (filter (fun c => String.eqb (Category.name c) "🍫 Снюс")
        (categories example_order))
   <= 1)%nat
  /\ exists category,
       In category (categories example_order)
       /\ Category.id category = 4.
Proof.
  destruct (categories_are_keyed_by_name example_order
              example_order_reachable) as [H1 H2].
  split; [apply H1 |].
  apply (H2 (Product.mk 1 "A" "first" 10%float "a.png" 4)).
  left. reflexivity.
Defined.

(** * Readers do not write *)

Lemma keeps_same_is_admin t : keeps same_store (is_admin t).
Proof.
  apply keeps_session_scope.
  apply keeps_bind; [apply keeps_query_first |]. intros user. apply keeps_ret.
Qed.

Lemma keeps_same_get_categories : keeps same_store get_categories.
Proof.
  apply keeps_session_scope.
  apply keeps_bind; [apply keeps_query_all |]. intros cs. apply keeps_ret.
Qed.

Lemma keeps_query_products_of_category good name :
  keeps good (query_products_of_category name).
Proof.
  intros faulty s c w H. unfold query_products_of_category.
  apply wp_bind. apply wp_roundtrip; [auto |].
  intros fs Hfs. simpl. auto.
Qed.

Lemma keeps_same_get_products category :
  keeps same_store (get_products category).
Proof.
  apply keeps_session_scope. apply keeps_bind.
  - destruct category as [[| a name] |];
      first [apply keeps_query_all | apply keeps_query_products_of_category].
  - intros products. apply keeps_list_comp. intros product.
    apply keeps_bind; [apply keeps_lazy_load |]. intros c. apply keeps_ret.
Qed.

Lemma keeps_same_get_product_by_id pid :
  keeps same_store (get_product_by_id pid).
Proof.
  apply keeps_session_scope.
  apply keeps_bind; [apply keeps_query_first |].
  intros [product |]; [| apply keeps_ret].
  apply keeps_bind; [apply keeps_lazy_load |]. intros category.
  apply keeps_bind; [apply keeps_getattr |]. intros name. apply keeps_ret.
Qed.

Lemma keeps_same_get_cart_items uid : keeps same_store (get_cart_items uid).
Proof.
  apply keeps_session_scope.
  apply keeps_bind; [apply keeps_query_first |].
  intros [user |]; [| apply keeps_ret].
  apply keeps_bind; [apply keeps_query_first |].
  intros [cart |]; [| apply keeps_ret].
  apply keeps_bind; [apply keeps_query_all |]. intros items.
  apply keeps_list_comp. intros item.
  apply keeps_bind; [apply keeps_lazy_load |]. intros product.
  apply keeps_bind; [apply keeps_getattr |]. intros name.
  apply keeps_bind; [apply keeps_getattr |]. intros price. apply keeps_ret.
Qed.

Lemma keeps_same_get_order_details oid :
  keeps same_store (get_order_details oid).
Proof.
  apply keeps_session_scope.
  apply keeps_bind; [apply keeps_query_first |].
  intros [order |]; [| apply keeps_ret].
  apply keeps_bind; [apply keeps_query_all |]. intros items.
  apply keeps_bind; [apply keeps_lazy_load |]. intros user.
  apply keeps_bind; [apply keeps_getattr |]. intros telegram_id.
  apply keeps_bind; [apply keeps_getattr |]. intros username.
  apply keeps_bind.
  - apply keeps_list_comp. intros item.
    apply keeps_bind; [apply keeps_lazy_load |]. intros product.
    apply keeps_bind; [apply keeps_getattr |]. intros name. apply keeps_ret.
  - intros lines. apply keeps_ret.
Qed.

(** X4.  The functions that read leave the database as it was, whatever
    the database answers and whether they return or raise. *)
Theorem readers_do_not_write plan s :
  (forall t, snd (call (is_admin t) plan s) = s)
  /\ snd (call get_categories plan s) = s
  /\ (forall category, snd (call (get_products category) plan s) = s)
  /\ (forall pid, snd (call (get_product_by_id pid) plan s) = s)
  /\ (forall uid, snd (call (get_cart_items uid) plan s) = s)
  /\ (forall oid, snd (call (get_order_details oid) plan s) = s).
Proof.
  assert (H : forall A (m : Session A),
             keeps same_store m -> snd (call m plan s) = s).
  { intros A m Hm. apply (keeps_call same_store m plan s Hm). reflexivity. }
  repeat split; intros; apply H.
  - apply keeps_same_is_admin.
  - apply keeps_same_get_categories.
  - apply keeps_same_get_products.
  - apply keeps_same_get_product_by_id.
  - apply keeps_same_get_cart_items.
  - apply keeps_same_get_order_details.
Qed.

(** * Products and their categories *)

(** In a database with sound keys, the category that a product points to
    is found by its id. *)
Lemma product_category s p :
  keys_inv s ->
  In p (products s) ->
  exists category,
    find (fun c => Category.id c =? Product.category_id p) (categories s)
    = Some category.
Proof.
  intros (_ & _ & _ & _ & _ & K6 & _) Hp.
  rewrite Forall_forall in K6. apply in_pk_find. apply K6. exact Hp.
Qed.

Lemma get_product_by_id_wp faulty s pid :
  keys_inv s ->
  wp faulty (get_product_by_id pid)
     (fun r c _ =>
        c = s
        /\ match product_of s pid with
           | None => r = None
           | Some p =>
               exists category,
                 In category (categories s)
                 /\ Category.id category = Product.category_id p
                 /\ r = Some (info_of p category)
           end)
     (fun e c _ => c = s /\ faulty = true /\ e = OperationalError) s s.
Proof.
  intros Hk. unfold get_product_by_id, product_of. wp_steps.
  destruct (find _ (products s)) as [p |] eqn:Hp; wp_steps; [| auto].
  pose proof (find_some _ _ Hp) as [Hin _].
  destruct (product_category s p Hk Hin) as [category Hc].
  rewrite Hc. wp_steps. split; [| auto]. split; [reflexivity |].
  exists category. pose proof (find_some _ _ Hc) as [Hcin Hcid].
  apply Z.eqb_eq in Hcid. auto.
Qed.


(** * Nothing is removed *)

(** X6.  From a state the bot can reach, no history of calls removes or
    changes a category, a product, a cart, an order or an order item,
    and none removes a user or changes the id or the telegram id of one:
    the tables only grow at their end. *)
Theorem history_only_adds s history :
  reachable s ->
  grown s (run_calls history s) /\ keeps_orders s (run_calls history s).
Proof.
  intros Hr. split.
  - apply run_calls_keys. apply reachable_keys. exact Hr.
  - apply run_calls_sound. apply reachable_inv. exact Hr.
Qed.

Lemma history_only_adds_witness :
  grown example_catalog
    (run_calls [(AddToCart 42 1, []); (CreateOrder 1000 42, []);
                (ClearCart 42, [true])] example_catalog)
  /\ keeps_orders example_catalog
       (run_calls [(AddToCart 42 1, []); (CreateOrder 1000 42, []);
                   (ClearCart 42, [true])] example_catalog).
Proof.
  apply (history_only_adds example_catalog). exact example_catalog_reachable.
Defined.

(** * Users *)

Lemma find_map_same {A} (p : A -> bool) (g : A -> A) (l : list A) :
  (forall a, p (g a) = p a) ->
  find p (map g l) = option_map g (find p l).
Proof.
  intros H. induction l as [| a l IH]; simpl; [reflexivity |].
  rewrite H. destruct (p a); auto.
Qed.

Lemma add_user_wp faulty t a u s :
  wp faulty (add_user t a u)
     (fun _ c _ =>
        match user_of s t with
        | Some u0 =>
            c = with_rows TUser
                  (map (fun r => if User.id r =? User.id u0
                                 then updated_user a u r else r) (users s)) s
        | None =>
            c = with_rows TUser
                  (users s ++ [User.mk (next_id (map User.id (users s))) t u a])
                  s
        end)
     (fun e c _ => c = s /\ faulty = true /\ e = OperationalError) s s.
Proof.
  unfold add_user, user_of. wp_steps.
  destruct (find _ (users s)) as [u0 |]; wp_steps; auto.
Qed.

Lemma is_admin_wp faulty t s :
  wp faulty (is_admin t)
     (fun r c _ =>
        c = s /\ r = match user_of s t with
                     | Some u => User.is_admin u
                     | None => false
                     end)
     (fun e c _ => c = s /\ faulty = true /\ e = OperationalError) s s.
Proof. unfold is_admin, user_of. wp_steps. auto. Qed.

Lemma call_quiet_never {A} (m : Session A) (Q : A -> assertion)
  (E : exn -> assertion) s :
  wp false m Q (fun e c w => E e c w /\ false = true /\ e = OperationalError)
     s s ->
  exists a s' w, call m [] s = (Returned a, s') /\ Q a s' w.
Proof.
  intros H. pose proof (wp_call false m _ _ s [] H plan_ok_quiet) as Hc.
  destruct (call m [] s) as [[a | e] s']; destruct Hc as [w Hc];
    [eauto | destruct Hc as (_ & Hc & _); discriminate Hc].
Qed.

(** The user that [add_user] leaves for the telegram id. *)
Lemma add_user_result t a u s :
  exists s',
    call (add_user t a u) [] s = (Returned tt, s')
    /\ user_of s' t
       = Some (match user_of s t with
               | Some u0 => updated_user a u u0
               | None => User.mk (next_id (map User.id (users s))) t u a
               end)
    /\ match user_of s t with
       | Some u0 =>
           users s' = map (fun r => if User.id r =? User.id u0
                                    then updated_user a u r else r) (users s)
       | None =>
           users s'
           = users s ++ [User.mk (next_id (map User.id (users s))) t u a]
       end
    /\ categories s' = categories s /\ products s' = products s
    /\ carts s' = carts s /\ cart_items s' = cart_items s
    /\ orders s' = orders s /\ order_items s' = order_items s.
Proof.
  destruct (call_quiet_never _ _ (fun _ c _ => c = s) s
              (add_user_wp false t a u s)) as ([] & s' & w & Hcall & H).
  exists s'. split; [exact Hcall |].
  unfold user_of in *.
  destruct (find (fun u0 => User.telegram_id u0 =? t) (users s))
    as [u0 |] eqn:Hu; subst s'; simpl.
  - split; [| repeat split].
    rewrite find_map_same.
    + rewrite Hu. simpl. rewrite Z.eqb_refl. reflexivity.
    + intros r. destruct (User.id r =? User.id u0); reflexivity.
  - split; [| repeat split].
    apply find_snoc_none; [exact Hu | simpl; apply Z.eqb_refl].
Qed.



(** * Carts of different users *)

Lemma find_snoc_other {A} (p : A -> bool) (l : list A) (a : A) :
  p a = false -> find p (l ++ [a]) = find p l.
Proof.
  intros Ha. destruct (find p l) as [b |] eqn:Hf.
  - apply find_app_some. exact Hf.
  - rewrite (find_app_none _ _ _ Hf). simpl. rewrite Ha. reflexivity.
Qed.

Lemma filter_snoc_out {A} (p : A -> bool) (l : list A) (a : A) :
  p a = false -> filter p (l ++ [a]) = filter p l.
Proof.
  intros Ha. rewrite filter_app. simpl. rewrite Ha. apply app_nil_r.
Qed.

Lemma in_not_next_id {A} (key : A -> Z) (l : list A) (a : A) :
  In a l -> (next_id (map key l) =? key a) = false.
Proof.
  intros Hin. apply Z.eqb_neq. intros Heq.
  apply (next_id_fresh (map key l)). rewrite Heq. apply in_map. exact Hin.
Qed.

(** Users found for different telegram ids have different ids. *)
Lemma distinct_users s uid uid2 u u2 :
  keys_inv s ->
  uid <> uid2 ->
  user_of s uid = Some u ->
  user_of s uid2 = Some u2 ->
  User.id u <> User.id u2.
Proof.
  intros (K1 & _) Hne Hu Hu2 Hid. unfold user_of in *.
  apply find_some in Hu, Hu2. destruct Hu as [Hin Ht], Hu2 as [Hin2 Ht2].
  apply Z.eqb_eq in Ht, Ht2.
  assert (u = u2) by (eapply (NoDup_key_inj User.id); eassumption).
  subst u2. congruence.
Qed.

(** Carts of different users have different ids. *)
Lemma distinct_carts s c c2 :
  keys_inv s ->
  In c (carts s) -> In c2 (carts s) ->
  Cart.user_id c <> Cart.user_id c2 ->
  Cart.id c <> Cart.id c2.
Proof.
  intros (_ & _ & _ & _ & _ & _ & K7 & _) Hin Hin2 Hne Hid.
  assert (c = c2) by (eapply (NoDup_key_inj Cart.id); eassumption).
  subst c2. congruence.
Qed.

(** The carts that different telegram ids resolve to are different. *)
Lemma distinct_cart_of s uid uid2 c c2 :
  keys_inv s ->
  uid <> uid2 ->
  cart_of s uid = Some c ->
  cart_of s uid2 = Some c2 ->
  Cart.id c <> Cart.id c2.
Proof.
  intros Hk Hne Hc Hc2. unfold cart_of in *.
  destruct (user_of s uid) as [u |] eqn:Hu; [| discriminate Hc].
  destruct (user_of s uid2) as [u2 |] eqn:Hu2; [| discriminate Hc2].
  pose proof (distinct_users s uid uid2 u u2 Hk Hne Hu Hu2) as Hid.
  apply find_some in Hc, Hc2. destruct Hc as [Hin Hcu], Hc2 as [Hin2 Hcu2].
  apply Z.eqb_eq in Hcu, Hcu2.
  apply (distinct_carts s c c2 Hk Hin Hin2). congruence.
Qed.

Lemma filter_filter_keep {A} (p q : A -> bool) (l : list A) :
  (forall a, p a = true -> q a = true) ->
  filter p (filter q l) = filter p l.
Proof.
  intros H. induction l as [| a l IH]; simpl; [reflexivity |].
  destruct (q a) eqn:Hq; simpl.
  - destruct (p a); rewrite IH; reflexivity.
  - destruct (p a) eqn:Hp; [| exact IH].
    rewrite (H a Hp) in Hq. discriminate Hq.
Qed.

Lemma clear_cart_wp faulty uid s :
  wp faulty (clear_cart uid)
     (fun r c _ =>
        match cart_of s uid with
        | Some cart =>
            r = true
            /\ c = with_rows TCartItem
                     (filter (fun i => negb (CartItem.cart_id i =? Cart.id cart))
                             (cart_items s)) s
        | None => r = false /\ c = s
        end)
     (fun e c _ => c = s /\ faulty = true /\ e = OperationalError) s s.
Proof.
  unfold clear_cart, cart_of, user_of. wp_steps.
  destruct (find _ (users s)) as [user |]; wp_steps; [| auto].
  destruct (find _ (carts s)) as [cart |]; wp_steps; auto.
Qed.



(** * One more of a product *)

Lemma quantity_in_snoc pid rows i :
  quantity_in pid (rows ++ [i])
  = quantity_in pid rows
    + (if CartItem.product_id i =? pid then CartItem.quantity i else 0).
Proof.
  unfold quantity_in. rewrite filter_app, map_app. simpl.
  induction (map CartItem.quantity (filter _ rows)) as [| q l IH]; simpl.
  - destruct (CartItem.product_id i =? pid); simpl; lia.
  - rewrite IH. lia.
Qed.

Lemma map_update_absent {A} (key : A -> Z) (k : Z) (g : A -> A) (l : list A) :
  ~ In k (map key l) ->
  map (fun r => if key r =? k then g r else r) l = l.
Proof.
  induction l as [| a l IH]; simpl; intros H; [reflexivity |].
  destruct (key a =? k) eqn:E.
  - apply Z.eqb_eq in E. exfalso. apply H. left. exact E.
  - f_equal. apply IH. intros Hin. apply H. right. exact Hin.
Qed.

Lemma quantity_in_update pid ci rows :
  NoDup (map CartItem.id rows) ->
  In ci rows ->
  quantity_in pid
    (map (fun r => if CartItem.id r =? CartItem.id ci then one_more ci r else r)
         rows)
  = quantity_in pid rows + (if CartItem.product_id ci =? pid then 1 else 0).
Proof.
  induction rows as [| a l IH]; simpl; intros Hnd Hin; [destruct Hin |].
  inversion Hnd as [| x xs Hnin Hnd']; subst.
  destruct Hin as [-> | Hin].
  - rewrite Z.eqb_refl.
    rewrite (map_update_absent CartItem.id _ (one_more ci) l Hnin).
    unfold quantity_in, one_more. simpl.
    destruct (CartItem.product_id ci =? pid); simpl; lia.
  - assert (Hne : (CartItem.id a =? CartItem.id ci) = false).
    { apply Z.eqb_neq. intros Heq. apply Hnin. rewrite Heq.
      apply in_map. exact Hin. }
    rewrite Hne. specialize (IH Hnd' Hin).
    unfold quantity_in in *. simpl.
    destruct (CartItem.product_id a =? pid); simpl; lia.
Qed.

Lemma NoDup_map_filter_id {A} (key : A -> Z) (p : A -> bool) (l : list A) :
  NoDup (map key l) -> NoDup (map key (filter p l)).
Proof. apply NoDup_map_filter. Qed.

Lemma quantity_in_nil pid : quantity_in pid [] = 0.
Proof. reflexivity. Qed.

(** The item of the cart gets one more. *)
Lemma added_one_update s uid pid user cart ci :
  keys_inv s ->
  find (fun u => User.telegram_id u =? uid) (users s) = Some user ->
  find (fun c => Cart.user_id c =? User.id user) (carts s) = Some cart ->
  find (fun i => (CartItem.cart_id i =? Cart.id cart)
                 && (CartItem.product_id i =? pid)) (cart_items s) = Some ci ->
  added_one s uid pid
    (mkStore (users s) (categories s) (products s) (carts s)
       (map (fun r => if CartItem.id r =? CartItem.id ci
                      then one_more ci r else r) (cart_items s))
       (orders s) (order_items s)).
Proof.
  intros Hk Hu Hc Hci.
  pose proof Hk as (_ & _ & _ & _ & _ & _ & _ & _ & K9 & _).
  pose proof (find_some _ _ Hci) as [Hin Hm].
  apply andb_true_iff in Hm. destruct Hm as [Hcart Hpid].
  apply Z.eqb_eq in Hpid.
  assert (Hcof : cart_of s uid = Some cart).
  { unfold cart_of, user_of. rewrite Hu. exact Hc. }
  assert (Hfm : forall k,
             filter (fun i => CartItem.cart_id i =? k)
               (map (fun r => if CartItem.id r =? CartItem.id ci
                              then one_more ci r else r) (cart_items s))
             = map (fun r => if CartItem.id r =? CartItem.id ci
                             then one_more ci r else r)
                 (filter (fun i => CartItem.cart_id i =? k) (cart_items s))).
  { intros k. apply filter_map_same. intros a.
    destruct (CartItem.id a =? CartItem.id ci); reflexivity. }
  assert (Hrows : forall pid2,
             quantity_in pid2
               (map (fun r => if CartItem.id r =? CartItem.id ci
                              then one_more ci r else r)
                  (filter (fun i => CartItem.cart_id i =? Cart.id cart)
                     (cart_items s)))
             = quantity_in pid2
                 (filter (fun i => CartItem.cart_id i =? Cart.id cart)
                    (cart_items s))
               + (if CartItem.product_id ci =? pid2 then 1 else 0)).
  { intros pid2. apply quantity_in_update.
    - apply NoDup_map_filter. exact K9.
    - apply filter_In. auto. }
  unfold added_one, cart_rows, cart_of, user_of in *. simpl.
  rewrite Hu, Hc in *. rewrite Hfm.
  split; [| split; [| split; [| auto]]].
  - rewrite Hrows, Hpid, Z.eqb_refl. reflexivity.
  - intros other Hne. rewrite Hrows.
    destruct (CartItem.product_id ci =? other) eqn:E; [| lia].
    apply Z.eqb_eq in E. congruence.
  - intros uid2 Hne.
    destruct (find (fun u => User.telegram_id u =? uid2) (users s))
      as [u2 |] eqn:Hu2; [| reflexivity].
    destruct (find (fun c => Cart.user_id c =? User.id u2) (carts s))
      as [c2 |] eqn:Hc2; [| reflexivity].
    rewrite Hfm. apply map_update_absent. intros Hin2.
    apply in_map_iff in Hin2. destruct Hin2 as (r & Hid & Hr).
    apply filter_In in Hr. destruct Hr as [Hrin Hrc].
    assert (r = ci) by (eapply (NoDup_key_inj CartItem.id); eassumption).
    subst r. apply Z.eqb_eq in Hrc, Hcart.
    assert (Hc2of : cart_of s uid2 = Some c2).
    { unfold cart_of, user_of. rewrite Hu2. exact Hc2. }
    apply (distinct_cart_of s uid2 uid c2 cart Hk Hne Hc2of).
    + unfold cart_of, user_of. rewrite Hu. exact Hc.
    + congruence.
Qed.

(** The cart gets a new item. *)
Lemma added_one_item s uid pid user cart id :
  keys_inv s ->
  find (fun u => User.telegram_id u =? uid) (users s) = Some user ->
  find (fun c => Cart.user_id c =? User.id user) (carts s) = Some cart ->
  added_one s uid pid
    (mkStore (users s) (categories s) (products s) (carts s)
       (cart_items s ++ [CartItem.mk id (Cart.id cart) pid 1])
       (orders s) (order_items s)).
Proof.
  intros Hk Hu Hc.
  unfold added_one, cart_rows, cart_of, user_of in *. simpl.
  rewrite Hu, Hc in *.
  rewrite filter_snoc_in by apply Z.eqb_refl.
  split; [| split; [| split; [| auto]]].
  - rewrite quantity_in_snoc. simpl. rewrite Z.eqb_refl. reflexivity.
  - intros other Hne. rewrite quantity_in_snoc. simpl.
    destruct (pid =? other) eqn:E; [| lia].
    apply Z.eqb_eq in E. congruence.
  - intros uid2 Hne.
    destruct (find (fun u => User.telegram_id u =? uid2) (users s))
      as [u2 |] eqn:Hu2; [| reflexivity].
    destruct (find (fun c => Cart.user_id c =? User.id u2) (carts s))
      as [c2 |] eqn:Hc2; [| reflexivity].
    apply filter_snoc_out. simpl. apply Z.eqb_neq.
    apply (distinct_cart_of s uid uid2 cart c2 Hk);
      [congruence | | ]; unfold cart_of, user_of.
    + rewrite Hu. exact Hc.
    + rewrite Hu2. exact Hc2.
Qed.

(** The user gets a cart, with the item. *)
Lemma added_one_cart s uid pid user id :
  store_inv s ->
  keys_inv s ->
  find (fun u => User.telegram_id u =? uid) (users s) = Some user ->
  find (fun c => Cart.user_id c =? User.id user) (carts s) = None ->
  added_one s uid pid
    (mkStore (users s) (categories s) (products s)
       (carts s ++ [Cart.mk (next_id (map Cart.id (carts s))) (User.id user)])
       (cart_items s
        ++ [CartItem.mk id (next_id (map Cart.id (carts s))) pid 1])
       (orders s) (order_items s)).
Proof.
  intros (_ & Hic & _) Hk Hu Hc.
  assert (Hnone : filter (fun i => CartItem.cart_id i
                                   =? next_id (map Cart.id (carts s)))
                    (cart_items s) = []).
  { apply (fresh_filter _ _ _ _ Hic). apply next_id_fresh. }
  unfold added_one, cart_rows, cart_of, user_of in *. simpl.
  rewrite Hu, Hc in *.
  rewrite (find_snoc_none _ _ _ Hc) by (simpl; apply Z.eqb_refl). simpl.
  rewrite filter_snoc_in by apply Z.eqb_refl. rewrite Hnone. simpl.
  split; [| split; [| split; [| auto]]].
  - unfold quantity_in. simpl. rewrite Z.eqb_refl. reflexivity.
  - intros other Hne. unfold quantity_in. simpl.
    destruct (pid =? other) eqn:E; [| reflexivity].
    apply Z.eqb_eq in E. congruence.
  - intros uid2 Hne.
    destruct (find (fun u => User.telegram_id u =? uid2) (users s))
      as [u2 |] eqn:Hu2; [| reflexivity].
    assert (Hid : User.id user <> User.id u2).
    { apply (distinct_users s uid uid2 user u2 Hk); [congruence | | ];
        assumption. }
    rewrite find_snoc_other by (simpl; apply Z.eqb_neq; exact Hid).
    destruct (find (fun c => Cart.user_id c =? User.id u2) (carts s))
      as [c2 |] eqn:Hc2; [| reflexivity].
    apply filter_snoc_out. simpl. apply in_not_next_id.
    apply find_some in Hc2. tauto.
Qed.

(** The user is created, with a cart and the item. *)
Lemma added_one_user s uid pid id :
  store_inv s ->
  find (fun u => User.telegram_id u =? uid) (users s) = None ->
  added_one s uid pid
    (mkStore
       (users s ++ [User.mk (next_id (map User.id (users s))) uid None false])
       (categories s) (products s)
       (carts s ++ [Cart.mk (next_id (map Cart.id (carts s)))
                      (next_id (map User.id (users s)))])
       (cart_items s
        ++ [CartItem.mk id (next_id (map Cart.id (carts s))) pid 1])
       (orders s) (order_items s)).
Proof.
  intros (_ & Hic & _ & Hcu & _) Hu.
  assert (Hnone : filter (fun i => CartItem.cart_id i
                                   =? next_id (map Cart.id (carts s)))
                    (cart_items s) = []).
  { apply (fresh_filter _ _ _ _ Hic). apply next_id_fresh. }
  assert (Hnc : find (fun c => Cart.user_id c
                               =? next_id (map User.id (users s)))
                  (carts s) = None).
  { apply (fresh_find _ _ _ _ Hcu). apply next_id_fresh. }
  unfold added_one, cart_rows, cart_of, user_of in *. simpl.
  rewrite Hu.
  rewrite (find_snoc_none _ _ _ Hu) by (simpl; apply Z.eqb_refl). simpl.
  rewrite (find_snoc_none _ _ _ Hnc) by (simpl; apply Z.eqb_refl). simpl.
  rewrite filter_snoc_in by apply Z.eqb_refl. rewrite Hnone. simpl.
  split; [| split; [| split; [| auto]]].
  - unfold quantity_in. simpl. rewrite Z.eqb_refl. reflexivity.
  - intros other Hne. unfold quantity_in. simpl.
    destruct (pid =? other) eqn:E; [| reflexivity].
    apply Z.eqb_eq in E. congruence.
  - intros uid2 Hne.
    rewrite find_snoc_other by (simpl; apply Z.eqb_neq; congruence).
    destruct (find (fun u => User.telegram_id u =? uid2) (users s))
      as [u2 |] eqn:Hu2; [| reflexivity].
    rewrite find_snoc_other
      by (simpl; apply in_not_next_id; apply find_some in Hu2; tauto).
    destruct (find (fun c => Cart.user_id c =? User.id u2) (carts s))
      as [c2 |] eqn:Hc2; [| reflexivity].
    apply filter_snoc_out. simpl. apply in_not_next_id.
    apply find_some in Hc2. tauto.
Qed.

Ltac added_by lem :=
  split;
  [eapply lem; eassumption
  | intros ?; split; [right; eapply lem; eassumption | auto]].

Lemma add_to_cart_wp faulty s uid pid p :
  store_inv s ->
  keys_inv s ->
  product_of s pid = Some p ->
  wp faulty (add_to_cart_db uid pid)
     (fun _ c _ => added_one s uid pid c)
     (fun e c _ => (c = s \/ added_one s uid pid c)
                   /\ faulty = true /\ e = OperationalError) s s.
Proof.
  intros Hi Hk Hp. pose proof Hi as (_ & Hic & _ & Hcu & _).
  unfold product_of in Hp.
  unfold add_to_cart_db. wp_steps.
  destruct (find _ (users s)) as [user |] eqn:Hu; wp_steps.
  - destruct (find _ (carts s)) as [cart |] eqn:Hc; wp_steps.
    + rewrite Hp. wp_steps.
      destruct (find _ (cart_items s)) as [ci |] eqn:Hci; wp_steps.
      *         added_by added_one_update.
      *         added_by added_one_item.
    + rewrite Hp. wp_steps.
      assert (Hnone : filter (fun i => CartItem.cart_id i
                                       =? next_id (map Cart.id (carts s)))
                        (cart_items s) = []).
      { apply (fresh_filter _ _ _ _ Hic). apply next_id_fresh. }
      rewrite find_andb_filter, Hnone. simpl. wp_steps.
            added_by added_one_cart.
  - assert (Hnc : find (fun c => Cart.user_id c
                                 =? next_id (map User.id (users s)))
                    (carts s) = None).
    { apply (fresh_find _ _ _ _ Hcu). apply next_id_fresh. }
    rewrite Hnc. wp_steps. rewrite Hp. wp_steps.
    assert (Hnone : filter (fun i => CartItem.cart_id i
                                     =? next_id (map Cart.id (carts s)))
                      (cart_items s) = []).
    { apply (fresh_filter _ _ _ _ Hic). apply next_id_fresh. }
    rewrite find_andb_filter, Hnone. simpl. wp_steps.
        added_by added_one_user.
Qed.


(** * Listings of products *)

Lemma filter_all {A} (l : list A) : filter (fun _ => true) l = l.
Proof. induction l as [| a l IH]; simpl; [| rewrite IH]; reflexivity. Qed.

Lemma Forall2_map_eq {A B} (f : A -> B) xs ys :
  Forall2 (fun x y => y = f x) xs ys -> ys = map f xs.
Proof. induction 1; simpl; congruence. Qed.

(** With one category per id, the join of line 159 selects the products
    whose category, as line 168 loads it, has the name. *)
Lemma join_is_lookup cats key name :
  NoDup (map Category.id cats) ->
  existsb (fun c => (Category.id c =? key) && String.eqb (Category.name c) name)
          cats
  = match find (fun c => Category.id c =? key) cats with
    | Some c => String.eqb (Category.name c) name
    | None => false
    end.
Proof.
  induction cats as [| c cats IH]; simpl; intros Hnd; [reflexivity |].
  inversion Hnd as [| k ks Hnotin Hnd']; subst.
  destruct (Category.id c =? key) eqn:E; simpl; [| apply IH; exact Hnd'].
  apply Z.eqb_eq in E. subst key.
  replace (existsb _ cats) with false; [apply orb_false_r |].
  symmetry. apply not_true_is_false. intros H.
  apply existsb_exists in H. destruct H as (c' & Hin & H).
  apply andb_true_iff in H. destruct H as [H _]. apply Z.eqb_eq in H.
  apply Hnotin. rewrite <- H. apply in_map. exact Hin.
Qed.

Lemma filter_map_comm {A B} (f : A -> B) (p : B -> bool) (l : list A) :
  filter p (map f l) = map f (filter (fun a => p (f a)) l).
Proof.
  induction l as [| a l IH]; simpl; [reflexivity |].
  destruct (p (f a)); simpl; rewrite IH; reflexivity.
Qed.

Lemma get_products_wp faulty s category :
  wp faulty (get_products category)
     (fun r c _ =>
        c = s
        /\ r = map (listed s)
                 match category with
                 | Some (String _ _ as name) =>
                     filter
                       (fun p =>
                          existsb
                            (fun c =>
                               (Category.id c =? Product.category_id p)
                               && String.eqb (Category.name c) name)
                            (categories s))
                       (products s)
                 | _ => products s
                 end)
     (fun e c _ => c = s /\ faulty = true /\ e = OperationalError) s s.
Proof.
  unfold get_products. apply wp_session_scope.
  assert (Hcomp : forall products,
             wp faulty
               (list_comp products (fun product =>
                  category <- lazy_load TCategory (Product.category_id product) ;;
                  ret (ProductInfo.mk (Product.id product) (Product.name product)
                         (Product.description product) (Product.price product)
                         (option_map Category.name category)
                         (Product.image_path product))))
               (fun r c w =>
                  (w = s /\ r = map (listed s) products)
                  /\ (faulty = true -> c = s /\ faulty = true
                                       /\ OperationalError = OperationalError))
               (fun e c _ => c = s /\ faulty = true /\ e = OperationalError)
               s s).
  { intros products.
    eapply wp_mono;
      [apply (wp_list_comp faulty (fun _ => True)
                (fun p y => y = listed s p)) with (xs := products)
      | | intros e c' w' He; exact He].
    - intros p _. wp_steps. auto.
    - apply Forall_forall. auto.
    - cbv beta. intros ys c' w' (-> & -> & H).
      apply Forall2_map_eq in H. auto. }
  apply wp_bind.
  destruct category as [[| a name] |].
  - wp_db; [auto |]. rewrite filter_all. apply Hcomp.
  - unfold query_products_of_category. apply wp_bind.
    apply wp_roundtrip; [auto |]. intros fs Hfs.
    cbv beta iota. cbn [committed working faults].
    split; [exact Hfs | apply Hcomp].
  - wp_db; [auto |]. rewrite filter_all. apply Hcomp.
Qed.

(** X11.  In every state the bot can reach, [get_products] with the name
    of a category returns what one gets from the full listing by keeping
    the dictionaries of that category, in the same order; the full
    listing has one dictionary per product, each with the name of a
    category; and the empty name asks for the full listing. *)
Theorem get_products_by_category s name :
  reachable s ->
  name <> "" ->
  exists all,
    call (get_products None) [] s = (Returned all, s)
    /\ call (get_products (Some name)) [] s
       = (Returned (filter (in_category name) all), s)
    /\ call (get_products (Some "")) [] s = (Returned all, s)
    /\ map ProductInfo.id all = map Product.id (products s)
    /\ Forall (fun info => ProductInfo.category info <> None) all.
Proof.
  intros Hr Hname. apply reachable_keys in Hr.
  pose proof Hr as (_ & _ & K3 & _ & _ & K6 & _).
  assert (Hcall : forall category,
             call (get_products category) [] s
             = (Returned
                  (map (listed s)
                     match category with
                     | Some (String _ _ as name) =>
                         filter
                           (fun p =>
                              existsb
                                (fun c =>
                                   (Category.id c =? Product.category_id p)
                                   && String.eqb (Category.name c) name)
                                (categories s))
                           (products s)
                     | _ => products s
                     end), s)).
  { intros category.
    destruct (call_quiet_never _ _ (fun _ c _ => c = s) s
                (get_products_wp false s category))
      as (r & s' & w & Hc & -> & ->).
    exact Hc. }
  exists (map (listed s) (products s)).
  split; [apply (Hcall None) |].
  split; [| split; [apply (Hcall (Some "")) | split]].
  - rewrite (Hcall (Some name)). destruct name as [| a name]; [congruence |].
    f_equal. f_equal. rewrite filter_map_comm. f_equal.
    apply filter_ext. intros p. unfold in_category, listed. simpl.
    rewrite (join_is_lookup _ _ _ K3).
    destruct (find _ (categories s)); reflexivity.
  - rewrite map_map. reflexivity.
  - apply Forall_forall. intros info Hin.
    apply in_map_iff in Hin. destruct Hin as (p & <- & Hp).
    destruct (product_category s p Hr Hp) as [c Hc].
    unfold listed. simpl. rewrite Hc. discriminate.
Qed.

Lemma get_products_by_category_witness :
  exists all,
    call (get_products None) [] example_order = (Returned all, example_order)
    /\ call (get_products (Some "🍫 Снюс")) [] example_order
       = (Returned (filter (in_category "🍫 Снюс") all), example_order).
Proof.
  destruct (get_products_by_category example_order "🍫 Снюс")
    as (all & H1 & H2 & _).
  - exact example_order_reachable.
  - discriminate.
  - exists all. split; [exact H1 | exact H2].
Defined.
(** * New products *)

Lemma add_product_wp faulty n d p cn i s category :
  category_of s cn = Some category ->
  wp faulty (add_product n d p cn i)
     (fun _ c _ => c = with_product s n d p category i)
     (fun e c _ => c = s /\ faulty = true /\ e = OperationalError) s s.
Proof.
  intros Hc. unfold category_of in Hc. unfold add_product. wp_steps.
  rewrite Hc. wp_steps. split; [reflexivity | auto].
Qed.


(** * From the cart to the receipt *)

Lemma filter_all_in {A} (p : A -> bool) (l : list A) :
  (forall a, In a l -> p a = true) -> filter p l = l.
Proof.
  induction l as [| a l IH]; simpl; intros H; [reflexivity |].
  rewrite (H a) by auto. f_equal. apply IH. auto.
Qed.

(** The details of an order, with the user they name. *)
Lemma get_order_details_user_wp faulty s order_id order user :
  store_inv s ->
  find (fun o => Order.id o =? order_id) (orders s) = Some order ->
  find (fun u => User.id u =? Order.user_id order) (users s) = Some user ->
  wp faulty (get_order_details order_id)
     (fun r c _ =>
        c = s
        /\ exists details,
             r = Some details
             /\ OrderDetails.order_id details = order_id
             /\ OrderDetails.user_id details = User.telegram_id user
             /\ OrderDetails.total details
                = order_total (order_rows s order_id)
             /\ Forall2 (line_of s) (order_rows s order_id)
                  (OrderDetails.items details))
     (fun e c _ => c = s /\ faulty = true /\ e = OperationalError) s s.
Proof.
  intros Hinv Ho Hu. unfold get_order_details. wp_steps. rewrite Ho.
  pose proof (find_some _ _ Ho) as [Hin Hid]. apply Z.eqb_eq in Hid.
  destruct Hinv as (_ & _ & _ & _ & _ & Hoi).
  wp_steps. rewrite Hu. wp_steps.
  eapply wp_mono; [| | intros e c' w' He; exact He].
  - apply wp_list_comp with
      (P := fun i => In (OrderItem.product_id i) (map Product.id (products s)))
      (R := line_of s).
    + intros item Hitem. apply in_pk_find in Hitem.
      destruct Hitem as [product Hp]. wp_steps. rewrite Hp. wp_steps.
      repeat split. exists product. unfold product_of. auto.
    + apply Forall_filter_keep. exact Hoi.
  - cbv beta. intros lines c' w' (-> & -> & Hlines). wp_steps.
    split; [| auto]. split; [reflexivity |].
    eexists. split; [reflexivity |]. simpl. auto.
Qed.

(** The lines of the receipt are the lines of the cart. *)
Lemma receipt_lines s s' oid rows lines new items :
  products s' = products s ->
  Forall2 (cart_line_of s) rows lines ->
  Forall2 (snapshot_of s oid) rows new ->
  Forall2 (line_of s') new items ->
  items = map receipt_line lines
  /\ order_total new = cart_total lines.
Proof.
  intros Hps Hl Hs Hi.
  assert (H : items = map receipt_line lines
              /\ map (fun item =>
                        (OrderItem.price item
                         * float_of_int (OrderItem.quantity item))%float) new
                 = map (fun line =>
                          (CartLine.price line
                           * float_of_int (CartLine.quantity line))%float)
                     lines).
  { revert new items Hs Hi.
    induction Hl as [| row line rows lines Hline Hl IH]; intros new items Hs Hi.
    - inversion Hs; subst. inversion Hi; subst. split; reflexivity.
    - inversion Hs as [| row' o rows' new' Ho Hs']; subst.
      inversion Hi as [| o' ol new'' items' Hol Hi']; subst.
      destruct (IH _ _ Hs' Hi') as [-> IHt]. simpl. rewrite IHt.
      destruct Hline as (_ & _ & Hq & p & Hp & Hn & Hpr).
      destruct Ho as (_ & Hpid & Hoq & p' & Hp' & Hopr).
      destruct Hol as (Hlq & Hlpr & p'' & Hp'' & Hln).
      unfold product_of in *. rewrite Hps, Hpid, Hp in Hp''.
      rewrite Hp in Hp'. injection Hp' as <-. injection Hp'' as <-.
      split.
      + f_equal. destruct ol as [n q pr]. unfold receipt_line.
        simpl in *. congruence.
      + f_equal. congruence. }
  destruct H as [H1 H2]. split; [exact H1 |].
  unfold order_total, cart_total. rewrite H2. reflexivity.
Qed.


(** * Reasoning about scripts *)

Section SWP.

Variable faulty : bool.

Local Abbreviation swp := (swp faulty).

Lemma swp_ret {A} (a : A) Q E c w fs : Q a c w fs -> swp (sret a) Q E c w fs.
Proof. intros H plan Hp. simpl. auto. Qed.

Lemma swp_bind {A B} (m : Script A) (k : A -> Script B) Q E c w fs :
  swp m (fun a => swp (k a) Q E) E c w fs -> swp (sbind m k) Q E c w fs.
Proof.
  intros H plan Hp. unfold sbind. specialize (H plan Hp).
  destruct (m _) as [a [[c' w' plan'] fs'] | e x]; simpl in *.
  - destruct H as [Hp' H]. apply (H plan' Hp').
  - exact H.
Qed.

Lemma swp_lift {A} (m : Session A) (Q : A -> fassertion) E c w fs :
  wp faulty m (fun a c' w' => Q a c' w' fs) (fun e c' w' => E e c' w' fs) c w ->
  swp (lift m) Q E c w fs.
Proof.
  intros H plan Hp. unfold lift. simpl. specialize (H plan Hp).
  destruct (m _); simpl; exact H.
Qed.

Lemma swp_try_except {A} (body : Script A) handler Q E c w fs :
  swp body Q (fun e => swp (handler e) Q E) c w fs ->
  swp (stry_except body handler) Q E c w fs.
Proof.
  intros H plan Hp. unfold stry_except. specialize (H plan Hp).
  destruct (body _) as [a x | e [[c' w' plan'] fs']]; simpl in *.
  - exact H.
  - destruct H as [Hp' H]. apply (H plan' Hp').
Qed.

Lemma swp_session_scope_files {A} (body : Script A) (Q : A -> fassertion)
  (E : exn -> fassertion) c w fs :
  swp body
      (fun a c' w' fs' =>
         Q a w' w' fs' /\ (faulty = true -> E OperationalError c' c' fs'))
      (fun e c' _ fs' => E e c' c' fs') c w fs ->
  swp (session_scope_files body) Q E c w fs.
Proof.
  intros H plan Hp.
  unfold session_scope_files, stry_finally, stry_except, sbind, lift, close,
    commit, rollback, bind, roundtrip, sret, sraise.
  specialize (H plan Hp).
  destruct (body _) as [a [[c' w' plan'] fs'] | e [[c' w' plan'] fs']];
    simpl in *; [| exact H].
  destruct H as [Hp' [HQ HE]].
  destruct plan' as [| b plan']; simpl; [auto |].
  assert (Hf : faulty = true).
  { unfold plan_ok in Hp'. destruct faulty; [reflexivity |].
    discriminate (Hp' eq_refl). }
  assert (Hp'' : plan_ok faulty plan') by (intros Hc; congruence).
  destruct b; simpl; auto.
Qed.

Lemma swp_ensure_backups d (Q : unit -> fassertion) E c w fs :
  match backups fs with
  | Some _ => Q tt c w fs
  | None =>
      match d with
      | MkdirRefused => E FileNotFoundError c w fs
      | _ => Q tt c w (mkFS (Some []) (load fs))
      end
  end ->
  swp (ensure_backups d) Q E c w fs.
Proof.
  intros H plan Hp. unfold ensure_backups. simpl.
  destruct (backups fs); [simpl; auto |].
  destruct d; simpl; auto.
Qed.

Lemma swp_write_backup d name products_data (Q : unit -> fassertion) E c w fs :
  match d with
  | OpenRefused => E FileNotFoundError c w fs
  | _ =>
      Q tt c w
        (mkFS (with_file name (backups fs))
              (fun path =>
                 if String.eqb path ("backups/" ++ name)%string
                 then Parsed products_data
                 else load fs path))
  end ->
  swp (write_backup d name products_data) Q E c w fs.
Proof.
  intros H plan Hp. unfold write_backup. simpl.
  destruct d; simpl; auto.
Qed.

End SWP.

Lemma swp_run faulty {A} (m : Script A) Q E s fs plan :
  swp faulty m Q E s s fs ->
  plan_ok faulty plan ->
  match run m plan fs s with
  | (Returned a, s', fs') => exists w, Q a s' w fs'
  | (Raised e, s', fs') => exists w, E e s' w fs'
  end.
Proof.
  intros H Hp. unfold run. specialize (H plan Hp).
  destruct (m _) as [a x | e x]; destruct H; eauto.
Qed.

(** * Export of the catalogue *)

Lemma in_with_file name names : exists l, with_file name names = Some l /\ In name l.
Proof.
  destruct names as [names |]; simpl; [| eexists; split; [reflexivity |]; simpl; auto].
  eexists. split; [reflexivity |].
  destruct (existsb (String.eqb name) names) eqn:E.
  - apply existsb_exists in E. destruct E as (x & Hin & Hx).
    apply String.eqb_eq in Hx. subst x. exact Hin.
  - apply in_or_app. right. left. reflexivity.
Qed.

Lemma export_products_swp faulty timestamp d s fs :
  swp faulty (export_products timestamp d)
    (fun r c _ fs' =>
       c = s
       /\ same_but (snapshot_path timestamp) fs fs'
       /\ match r with
          | Some path =>
              path = snapshot_path timestamp
              /\ holds_catalogue s timestamp fs'
          | None =>
              faulty = true \/ d <> DiskOk
              \/ exists p, In p (products s)
                           /\ find (fun c => Category.id c
                                             =? Product.category_id p)
                                   (categories s) = None
          end)
    (fun _ _ _ _ => False) s s fs.
Proof.
  assert (Hsame : same_but (snapshot_path timestamp) fs fs)
    by (intros other _; reflexivity).
  unfold export_products. apply swp_try_except.
  apply swp_session_scope_files.
  apply swp_bind. apply swp_lift.
  wp_db; [intros Hf; apply swp_ret; auto |].
  rewrite filter_all.
  apply swp_bind. apply swp_lift.
  eapply wp_mono;
    [apply (wp_list_comp faulty (fun p => In p (products s)) (exports s))
       with (xs := products s)
        (E := fun e c' w' =>
                c' = s /\ w' = s
                /\ (faulty = true
                    \/ exists p, In p (products s)
                                 /\ find (fun c => Category.id c
                                                   =? Product.category_id p)
                                         (categories s) = None))
    | |].
  - intros p Hp. unfold export_entry. wp_steps.
    destruct (find _ (categories s)) as [category |] eqn:Hc; wp_steps.
    + repeat split. exists category. auto.
    + repeat split. right. exists p. auto.
  - apply Forall_forall. auto.
  - cbv beta. intros products_data c' w' (-> & -> & Hdata).
    apply swp_bind. apply swp_ensure_backups.
    assert (Hwrite : forall fs0,
               same_but (snapshot_path timestamp) fs fs0 ->
               swp faulty
                 (write_backup d ("products_" ++ timestamp ++ ".json")
                    products_data ;;
                  sret (Some ("backups/products_" ++ timestamp ++ ".json")%string))%script
                 (fun a c' w' fs' =>
                    (w' = s
                     /\ same_but (snapshot_path timestamp) fs fs'
                     /\ match a with
                        | Some path =>
                            path = snapshot_path timestamp
                            /\ holds_catalogue s timestamp fs'
                        | None =>
                            faulty = true \/ d <> DiskOk
                            \/ exists p, In p (products s)
                                 /\ find (fun c => Category.id c
                                                   =? Product.category_id p)
                                         (categories s) = None
                        end)
                    /\ (faulty = true ->
                        swp faulty (sret None)
                          (fun r c _ fs' =>
                             c = s
                             /\ same_but (snapshot_path timestamp) fs fs'
                             /\ match r with
                                | Some path =>
                                    path = snapshot_path timestamp
                                    /\ holds_catalogue s timestamp fs'
                                | None =>
                                    faulty = true \/ d <> DiskOk
                                    \/ exists p, In p (products s)
                                         /\ find (fun c => Category.id c
                                                   =? Product.category_id p)
                                                 (categories s) = None
                                end)
                          (fun _ _ _ _ => False) c' c' fs'))
                 (fun e c' _ fs' =>
                    swp faulty (sret None)
                      (fun r c _ fs' =>
                         c = s
                         /\ same_but (snapshot_path timestamp) fs fs'
                         /\ match r with
                            | Some path =>
                                path = snapshot_path timestamp
                                /\ holds_catalogue s timestamp fs'
                            | None =>
                                faulty = true \/ d <> DiskOk
                                \/ exists p, In p (products s)
                                     /\ find (fun c => Category.id c
                                                   =? Product.category_id p)
                                             (categories s) = None
                            end)
                      (fun _ _ _ _ => False) c' c' fs')
                 s s fs0).
    { intros fs0 Hdir. apply swp_bind. apply swp_write_backup.
      destruct d.
      3:{ apply swp_ret. split; [reflexivity |]. split; [exact Hdir |].
          right. left. discriminate. }
      all: apply swp_ret.
      all: assert (Hsame' : same_but (snapshot_path timestamp) fs
                              (mkFS (with_file
                                       ("products_" ++ timestamp ++ ".json")
                                       (backups fs0))
                                 (fun path =>
                                    if String.eqb path
                                         ("backups/" ++ "products_"
                                          ++ timestamp ++ ".json")
                                    then Parsed products_data
                                    else load fs0 path)))
        by (intros other Hne; cbn [load];
            change ("backups/" ++ "products_" ++ timestamp ++ ".json")%string
              with (snapshot_path timestamp);
            destruct (String.eqb_spec other (snapshot_path timestamp));
            [contradiction | apply Hdir; exact Hne]).
      all: destruct (in_with_file ("products_" ++ timestamp ++ ".json")
                       (backups fs0)) as (l & Hl & Hin).
      all: assert (Hholds : holds_catalogue s timestamp
                              (mkFS (with_file
                                       ("products_" ++ timestamp ++ ".json")
                                       (backups fs0))
                                 (fun path =>
                                    if String.eqb path
                                         ("backups/" ++ "products_"
                                          ++ timestamp ++ ".json")
                                    then Parsed products_data
                                    else load fs0 path)))
        by (exists products_data, l; cbn [load backups];
            change ("backups/" ++ "products_" ++ timestamp ++ ".json")%string
              with (snapshot_path timestamp);
            rewrite String.eqb_refl; auto).
      all: split; [split; [reflexivity | split; [exact Hsame' |]] |].
      all: try (split; [reflexivity | exact Hholds]).
      all: intros Hf; apply swp_ret; auto. }
    destruct (backups fs) as [names |]; [apply Hwrite; exact Hsame |].
    assert (Hmk : same_but (snapshot_path timestamp) fs
                    (mkFS (Some []) (load fs)))
      by (intros other _; reflexivity).
    destruct d.
    + apply Hwrite. exact Hmk.
    + apply swp_ret. split; [reflexivity |]. split; [exact Hsame |].
      right. left. discriminate.
    + apply Hwrite. exact Hmk.
  - cbv beta. intros e c' w' (-> & -> & H). apply swp_ret.
    split; [reflexivity |]. split; [exact Hsame |].
    destruct H as [H | H]; auto.
Qed.

(** X13.  [export_products] never raises and never changes the database,
    whatever the database and the disk refuse.  It leaves every file as
    it was but the snapshot of its timestamp, and when it returns a
    path, that path is the one of the timestamp, the directory lists the
    file, and the file holds one entry for each product, in the order of
    the products, with the name of the category of the product. *)
Theorem export_products_writes_one_file timestamp d plan fs s :
  exists r fs',
    run (export_products timestamp d) plan fs s = (Returned r, s, fs')
    /\ same_but (snapshot_path timestamp) fs fs'
    /\ forall path,
         r = Some path ->
         path = snapshot_path timestamp /\ holds_catalogue s timestamp fs'.
Proof.
  pose proof (swp_run true _ _ _ s fs plan
                (export_products_swp true timestamp d s fs)
                (plan_ok_any plan)) as H.
  destruct (run (export_products timestamp d) plan fs s) as [[[r | e] s'] fs'].
  - destruct H as (_ & -> & Hsame & H). exists r, fs'.
    split; [reflexivity |]. split; [exact Hsame |].
    intros path ->. exact H.
  - destruct H as [_ []].
Qed.

Lemma find_exists {A} (p : A -> bool) (l : list A) (a : A) :
  In a l -> p a = true -> exists b, find p l = Some b.
Proof.
  intros Hin Ha. destruct (find p l) as [b |] eqn:Hf; [eauto |].
  rewrite (find_none _ _ Hf a Hin) in Ha. discriminate Ha.
Qed.

Lemma Forall2_in_right {A B} (R : A -> B -> Prop) xs ys y :
  Forall2 R xs ys -> In y ys -> exists x, In x xs /\ R x y.
Proof.
  induction 1 as [| x y' xs ys Hxy H IH]; simpl; intros Hin; [destruct Hin |].
  destruct Hin as [-> | Hin]; [eauto |].
  destruct (IH Hin) as (x' & Hx' & HR). eauto.
Qed.

(** With one category per name, the catalogue has every product of its
    own snapshot. *)
Lemma exports_settled s products_data :
  keys_inv s ->
  Forall2 (exports s) (products s) products_data ->
  settled (categories s) (products s) products_data.
Proof.
  intros (_ & _ & _ & K4 & _) Hdata pd cat Hin Hfind.
  destruct (Forall2_in_right _ _ _ _ Hdata Hin) as (p & Hp & c0 & Hc0 & ->).
  apply find_some in Hfind. destruct Hfind as [Hcat Hname].
  apply String.eqb_eq in Hname. simpl in Hname.
  apply find_some in Hc0. destruct Hc0 as [Hc0 Hid]. apply Z.eqb_eq in Hid.
  assert (cat = c0)
    by (apply (NoDup_key_inj Category.name (categories s)); assumption).
  subst cat. apply (find_exists _ _ p Hp).
  unfold same_product. simpl. rewrite String.eqb_refl. simpl.
  apply Z.eqb_eq. congruence.
Qed.

(** X14.  In every state the bot can reach, when database and disk
    refuse nothing, [export_products] returns the path of its snapshot,
    and [import_products] of that snapshot finds every product in the
    catalogue: it returns [True] and adds nothing.  Under any behaviour
    of the database the import leaves the database as it is. *)
Theorem export_then_import timestamp fs s :
  reachable s ->
  exists fs',
    run (export_products timestamp DiskOk) [] fs s
    = (Returned (Some (snapshot_path timestamp)), s, fs')
    /\ call (import_products fs' (Some (snapshot_path timestamp))) [] s
       = (Returned true, s)
    /\ forall plan,
         snd (call (import_products fs' (Some (snapshot_path timestamp)))
                plan s) = s.
Proof.
  intros Hr. apply reachable_keys in Hr.
  pose proof (swp_run false _ _ _ s fs []
                (export_products_swp false timestamp DiskOk s fs)
                plan_ok_quiet) as H.
  destruct (run (export_products timestamp DiskOk) [] fs s)
    as [[[r | e] s'] fs']; [| destruct H as [_ []]].
  destruct H as (_ & -> & _ & H). destruct r as [path |].
  2:{ exfalso. destruct H as [H | [H | (p & Hp & Hnone)]];
        [discriminate H | apply H; reflexivity |].
      destruct (product_category s p Hr Hp) as [c Hc]. congruence. }
  destruct H as (-> & data & names & Hload & Hdata & _).
  exists fs'. split; [reflexivity |].
  pose proof (exports_settled s data Hr Hdata) as Hs.
  assert (Hparsed : forall plan,
             call (import_products fs' (Some (snapshot_path timestamp))) plan s
             = match call (import_snapshot data) plan s with
               | (Returned r, s') => (Returned r, s')
               | (Raised _, s') => (Returned false, s')
               end).
  { intros plan.
    apply (import_products_parsed fs' _ (snapshot_path timestamp));
      [reflexivity | exact Hload]. }
  split.
  - rewrite Hparsed.
    pose proof (wp_call false _ _ _ s []
                  (import_snapshot_settled_wp false data s Hs) plan_ok_quiet)
      as H.
    destruct (call (import_snapshot data) [] s) as [[r | e] s'].
    + destruct H as (_ & -> & ->). reflexivity.
    + destruct H as (_ & _ & [[] | [H _]]). discriminate H.
  - intros plan. rewrite Hparsed.
    pose proof (wp_call true _ _ _ s plan
                  (import_snapshot_settled_wp true data s Hs)
                  (plan_ok_any plan)) as H.
    destruct (call (import_snapshot data) plan s) as [[r | e] s'];
      destruct H as [_ H]; simpl; [apply H | apply H].
Qed.

Lemma export_then_import_witness :
  exists fs',
    run (export_products "20240101_120000" DiskOk) [] no_backups example_order
    = (Returned (Some "backups/products_20240101_120000.json"),
       example_order, fs')
    /\ call (import_products fs'
               (Some "backups/products_20240101_120000.json")) []
         example_order
       = (Returned true, example_order).
Proof.
  destruct (export_then_import "20240101_120000" no_backups example_order)
    as (fs' & H1 & H2 & _).
  - exact example_order_reachable.
  - exists fs'. split; [exact H1 | exact H2].
Defined.
(** * The snapshot that the import reads *)

Lemma compare_refl a : String.compare a a = Eq.
Proof.
  pose proof (String.compare_antisym a a) as H.
  destruct (String.compare a a); simpl in H; congruence.
Qed.

Lemma compare_trans a b c :
  String.compare a b = Lt -> String.compare b c = Lt ->
  String.compare a c = Lt.
Proof.
  intros H1 H2.
  exact (@RelationClasses.StrictOrder_Transitive _ _
           OrdersEx.String_as_OT.lt_strorder a b c H1 H2).
Qed.

Lemma leb_refl a : String.leb a a = true.
Proof. unfold String.leb. rewrite compare_refl. reflexivity. Qed.

Lemma leb_trans a b c :
  String.leb a b = true -> String.leb b c = true -> String.leb a c = true.
Proof.
  unfold String.leb.
  destruct (String.compare a b) eqn:E1; [| | discriminate];
    (destruct (String.compare b c) eqn:E2; [| | discriminate]); intros _ _.
  - apply String.compare_eq_iff in E1, E2. subst. rewrite compare_refl.
    reflexivity.
  - apply String.compare_eq_iff in E1. subst. rewrite E2. reflexivity.
  - apply String.compare_eq_iff in E2. subst. rewrite E1. reflexivity.
  - rewrite (compare_trans _ _ _ E1 E2). reflexivity.
Qed.

Lemma ltb_leb a b : String.ltb a b = true -> String.leb a b = true.
Proof.
  unfold String.ltb, String.leb. destruct (String.compare a b); auto.
Qed.

Lemma not_ltb_leb a b : String.ltb a b = false -> String.leb b a = true.
Proof.
  unfold String.ltb, String.leb. rewrite (String.compare_antisym b a).
  destruct (String.compare a b); simpl; auto.
Qed.

(** [max] returns an element of the list that no element exceeds. *)
Lemma max_str_greatest xs x :
  In (max_str x xs) (x :: xs)
  /\ forall g, In g (x :: xs) -> String.leb g (max_str x xs) = true.
Proof.
  unfold max_str. revert x. induction xs as [| y xs IH]; intros x; simpl.
  - split; [auto |]. intros g [-> | []]. apply leb_refl.
  - destruct (String.ltb x y) eqn:E.
    + destruct (IH y) as [Hin Hge]. split.
      * simpl in Hin. tauto.
      * intros g [-> | Hg]; [| apply Hge; exact Hg].
        apply (leb_trans _ y); [apply ltb_leb; exact E |].
        apply Hge. left. reflexivity.
    + destruct (IH x) as [Hin Hge]. split.
      * simpl in Hin. tauto.
      * intros g [-> | [-> | Hg]].
        -- apply Hge. left. reflexivity.
        -- apply (leb_trans _ x); [apply not_ltb_leb; exact E |].
           apply Hge. left. reflexivity.
        -- apply Hge. right. exact Hg.
Qed.

(** X15.  Without a file to read, [import_products] chooses, in the
    backup directory, a file with the name of a snapshot that no other
    such file of the directory exceeds in the order of strings; it
    chooses none exactly when there is no directory or no such file.  An
    empty file name counts as no file name, and any other file name is
    taken as it is. *)
Theorem choose_backup_latest fs :
  match choose_backup fs None with
  | Some path =>
      exists names f,
        backups fs = Some names
        /\ path = ("backups/" ++ f)%string
        /\ In f names
        /\ snapshot_name f = true
        /\ forall g,
             In g names -> snapshot_name g = true -> String.leb g f = true
  | None =>
      forall names,
        backups fs = Some names ->
        forall g, In g names -> snapshot_name g = false
  end
  /\ choose_backup fs (Some "") = choose_backup fs None
  /\ forall a path,
       choose_backup fs (Some (String a path)) = Some (String a path).
Proof.
  split; [| split; reflexivity].
  unfold choose_backup. cbn [truthy].
  destruct (backups fs) as [names |]; [| discriminate].
  change (fun f => prefix "products_" f && endswith ".json" f)
    with snapshot_name.
  destruct (filter snapshot_name names) as [| f rest] eqn:Hf.
  - intros names' [= <-] g Hg.
    destruct (snapshot_name g) eqn:E; [| reflexivity].
    assert (Hin : In g (filter snapshot_name names))
      by (apply filter_In; auto).
    rewrite Hf in Hin. destruct Hin.
  - destruct (max_str_greatest rest f) as [Hin Hge].
    rewrite <- Hf in Hin. apply filter_In in Hin.
    exists names, (max_str f rest).
    split; [reflexivity |]. split; [reflexivity |].
    split; [tauto |]. split; [tauto |].
    intros g Hg Hs. apply Hge. rewrite <- Hf. apply filter_In. auto.
Qed.
(** * Initialisation *)

(** The transaction of the import, with the state it leaves the session
    in. *)
Lemma import_snapshot_closed_wp products_data s :
  wp false (import_snapshot products_data)
     (fun r c w =>
        w = c
        /\ exists more,
             c = with_rows TProduct (products s ++ more) s
             /\ settled (categories s) (products s ++ more) products_data
             /\ Forall (imported_from (categories s) (products s)
                          products_data) more)
     (fun _ _ _ => False) s s.
Proof.
  unfold import_snapshot. apply wp_session_scope. apply wp_bind.
  eapply wp_mono; [apply import_loop_wp | |]; cbv beta.
  - intros _ c w (-> & more & -> & Hs & Hm). wp_steps.
    split; [| discriminate]. split; [reflexivity |]. exists more. auto.
  - intros e c w (_ & Hf & _). discriminate Hf.
Qed.

Lemma settled_no_more cats ps products_data more :
  settled cats ps products_data ->
  Forall (imported_from cats ps products_data) more ->
  more = [].
Proof.
  intros Hs Hm. destruct more as [| p more]; [reflexivity |].
  inversion Hm as [| p' more' (pd & cat & Hin & Hc & Hnone & _) Hm']; subst.
  destruct (Hs pd cat Hin Hc) as [p0 Hp0]. congruence.
Qed.

Lemma import_products_closed_wp fs s :
  wp false (import_products fs None)
     (fun _ c w =>
        w = c
        /\ (exists more, c = with_rows TProduct (products s ++ more) s)
        /\ import_ready fs c
        /\ (import_ready fs s -> c = s))
     (fun _ _ _ => False) s s.
Proof.
  unfold import_products, import_ready. apply wp_try_except.
  destruct (choose_backup fs None) as [path |].
  - unfold json_load. destruct (load fs path) as [| | products_data].
    + apply wp_bind. apply wp_raise. apply wp_ret.
      split; [reflexivity |].
      split; [exists []; symmetry; apply with_products_same | auto].
    + apply wp_bind. apply wp_raise. apply wp_ret.
      split; [reflexivity |].
      split; [exists []; symmetry; apply with_products_same | auto].
    + apply wp_bind. apply wp_ret.
      eapply wp_mono; [apply import_snapshot_closed_wp | |]; cbv beta.
      * intros r c w (-> & more & -> & Hs & Hm). split; [reflexivity |].
        split; [exists more; reflexivity |]. split; [exact Hs |].
        intros Hs0. rewrite (settled_no_more _ _ _ _ Hs0 Hm).
        apply with_products_same.
      * intros e c w [].
  - apply wp_ret. split; [reflexivity |].
    split; [exists []; symmetry; apply with_products_same | auto].
Qed.

Lemma find_app_found {A} (p : A -> bool) (l more : list A) :
  find p l <> None -> find p (l ++ more) <> None.
Proof.
  destruct (find p l) as [a |] eqn:H; [| congruence].
  rewrite (find_app_some _ _ _ _ H). discriminate.
Qed.

(** The loop of lines 106-109. *)
Lemma seed_loop_wp names s :
  wp false
     (for_each names (fun category_name =>
        existing <- query_first TCategory
                      (fun c => String.eqb (Category.name c) category_name) ;;
        match existing with
        | Some _ => ret tt
        | None =>
            _ <- add TCategory (fun i => Category.mk i category_name) ;;
            ret tt
        end))
     (fun _ c w =>
        c = s
        /\ (exists more, w = with_rows TCategory (categories s ++ more) s)
        /\ (forall name, In name names -> category_of w name <> None)
        /\ ((forall name, In name names -> category_of s name <> None) ->
            w = s))
     (fun _ _ _ => False) s s.
Proof.
  apply (wp_for_each false
           (fun rest c w =>
              c = s
              /\ (exists done, names = done ++ rest)
              /\ (exists more, w = with_rows TCategory (categories s ++ more) s)
              /\ (forall name,
                     In name names ->
                     In name rest \/ category_of w name <> None)
              /\ ((forall name, In name names -> category_of s name <> None) ->
                  w = s))).
  - intros x rest c w (-> & [done Hd] & [more ->] & Hfound & Hsame).
    assert (Hd' : exists done', names = done' ++ rest)
      by (exists (done ++ [x]); rewrite <- app_assoc; exact Hd).
    wp_steps.
    destruct (find _ (categories s ++ more)) as [category |] eqn:Hc; wp_steps.
    + split; [reflexivity |]. split; [exact Hd' |].
      split; [exists more; reflexivity |].
      split; [| exact Hsame].
      intros name Hin. destruct (Hfound name Hin) as [[<- | H] | H]; auto.
      right. unfold category_of. wp_norm. rewrite Hc. discriminate.
    + split; [reflexivity |]. split; [exact Hd' |].
      split; [eexists (more ++ [_]); rewrite app_assoc; reflexivity |].
      split.
      * intros name Hin. destruct (Hfound name Hin) as [[<- | H] | H]; auto.
        -- right. unfold category_of. wp_norm.
           rewrite (find_snoc_none _ _ _ Hc)
             by (cbn [Category.name]; apply String.eqb_refl).
           discriminate.
        -- right. unfold category_of in *. revert H. wp_norm.
           apply find_app_found.
      * intros Hall. exfalso. specialize (Hsame Hall).
        apply (Hall x).
        -- rewrite Hd. apply in_or_app. right. left. reflexivity.
        -- unfold category_of. rewrite <- Hsame. wp_norm. exact Hc.
  - intros c w (-> & _ & Hmore & Hfound & Hsame).
    split; [reflexivity |]. split; [exact Hmore |]. split; [| exact Hsame].
    intros name Hin. destruct (Hfound name Hin) as [[] | H]. exact H.
  - split; [reflexivity |]. split; [exists []; reflexivity |]. split.
    + exists []. simpl. rewrite app_nil_r. destruct s; reflexivity.
    + split; [auto | reflexivity].
Qed.

Lemma init_db_wp admin_id fs s :
  wp false (init_db admin_id fs)
     (fun _ c _ =>
        ready admin_id fs c
        /\ (admin_id <> 0 ->
            exists u,
              user_of c admin_id = Some u
              /\ match user_of s admin_id with
                 | Some u0 => u = u0
                 | None => User.is_admin u = true
                 end)
        /\ (admin_id = 0 \/ user_of s admin_id <> None -> users c = users s)
        /\ (ready admin_id fs s -> c = s))
     (fun _ _ _ => False) s s.
Proof.
  unfold init_db. apply wp_session_scope.
  eapply wp_bind_via; [apply seed_loop_wp |]. cbv beta.
  intros _ c1 w1 (-> & [morec Hw1] & Hseeds & Hsame1).
  assert (Htail : forall w2,
             (forall name, In name seed_categories ->
                           category_of w2 name <> None) ->
             (admin_id <> 0 ->
              exists u,
                user_of w2 admin_id = Some u
                /\ match user_of s admin_id with
                   | Some u0 => u = u0
                   | None => User.is_admin u = true
                   end) ->
             (admin_id = 0 \/ user_of s admin_id <> None ->
              users w2 = users s) ->
             ((forall name, In name seed_categories ->
                            category_of s name <> None) ->
              (admin_id <> 0 -> user_of s admin_id <> None) ->
              w2 = s) ->
             wp false (commit ;; _ <- import_products fs None ;; ret tt)
               (fun _ c' w' =>
                  (ready admin_id fs w'
                   /\ (admin_id <> 0 ->
                       exists u,
                         user_of w' admin_id = Some u
                         /\ match user_of s admin_id with
                            | Some u0 => u = u0
                            | None => User.is_admin u = true
                            end)
                   /\ (admin_id = 0 \/ user_of s admin_id <> None ->
                       users w' = users s)
                   /\ (ready admin_id fs s -> w' = s))
                  /\ (false = true -> False))
               (fun _ _ _ => False) s w2).
  { intros w2 Hcats Hadmin Husers Hsame2.
    apply wp_bind. wp_db; [discriminate |].
    apply wp_bind.
    eapply wp_mono; [apply (import_products_closed_wp fs w2) | |];
      cbv beta; [| intros e c w []].
    intros r c w (-> & [more ->] & Hready & Hsame3). apply wp_ret.
    split; [| discriminate]. split; [| split; [| split]].
    - split; [exact Hcats |]. split; [| exact Hready].
      intros Ha. destruct (Hadmin Ha) as (u & Hu & _).
      unfold user_of in *. simpl. rewrite Hu. discriminate.
    - exact Hadmin.
    - exact Husers.
    - intros (R1 & R2 & R3). specialize (Hsame2 R1 R2). subst w2.
      apply Hsame3. exact R3. }
  apply wp_bind. destruct (admin_id =? 0) eqn:Ea.
  - apply Z.eqb_eq in Ea. apply wp_ret. apply Htail.
    + exact Hseeds.
    + intros Ha. contradiction.
    + intros _. rewrite Hw1. reflexivity.
    + intros R1 _. apply Hsame1. exact R1.
  - apply Z.eqb_neq in Ea. wp_steps.
    assert (Hsu : user_of w1 admin_id = user_of s admin_id)
      by (rewrite Hw1; reflexivity).
    unfold user_of in Hsu at 1.
    destruct (find _ (users w1)) as [admin |] eqn:Hu.
    + wp_pure. apply Htail.
      * exact Hseeds.
      * intros _. exists admin. unfold user_of at 1. rewrite Hu.
        split; [reflexivity |]. rewrite <- Hsu. reflexivity.
      * intros _. rewrite Hw1. reflexivity.
      * intros R1 _. apply Hsame1. exact R1.
    + wp_pure. wp_pure. wp_pure. apply Htail.
      * exact Hseeds.
      * intros _. eexists. unfold user_of at 1. wp_norm.
        rewrite (find_snoc_none _ _ _ Hu)
          by (cbn [User.telegram_id]; apply Z.eqb_refl).
        split; [reflexivity |]. rewrite <- Hsu. reflexivity.
      * intros [H | H]; [contradiction |]. rewrite <- Hsu in H. congruence.
      * intros _ R2. specialize (R2 Ea). rewrite <- Hsu in R2. congruence.
Qed.

(** * Rows that are not there *)

Lemma call_answered {A} (m : Session A) (P : A -> Prop) s :
  (forall faulty,
      wp faulty m (fun a c _ => c = s /\ P a)
         (fun e c _ => c = s /\ faulty = true /\ e = OperationalError) s s) ->
  forall plan,
    (exists a, call m plan s = (Returned a, s) /\ P a)
    \/ (call m plan s = (Raised OperationalError, s) /\ plan <> []).
Proof.
  intros H plan. destruct plan as [| f plan].
  - pose proof (wp_call false m _ _ s [] (H false) plan_ok_quiet) as Hc.
    destruct (call m [] s) as [[a | e] s']; destruct Hc as [_ Hc].
    + destruct Hc as [-> Hp]. left. eauto.
    + destruct Hc as (_ & Hc & _). discriminate Hc.
  - pose proof (wp_call true m _ _ s (f :: plan) (H true) (plan_ok_any _))
      as Hc.
    destruct (call m (f :: plan) s) as [[a | e] s']; destruct Hc as [_ Hc].
    + destruct Hc as [-> Hp]. left. eauto.
    + destruct Hc as (-> & _ & ->). right. split; [reflexivity | discriminate].
Qed.

Lemma get_order_details_none_wp faulty s order_id :
  find (fun o => Order.id o =? order_id) (orders s) = None ->
  wp faulty (get_order_details order_id)
     (fun r c _ => c = s /\ r = None)
     (fun e c _ => c = s /\ faulty = true /\ e = OperationalError) s s.
Proof.
  intros Ho. unfold get_order_details. wp_steps. rewrite Ho. wp_steps. auto.
Qed.

Lemma get_cart_items_none_wp faulty s uid :
  cart_of s uid = None ->
  wp faulty (get_cart_items uid)
     (fun r c _ => c = s /\ r = [])
     (fun e c _ => c = s /\ faulty = true /\ e = OperationalError) s s.
Proof.
  intros Hc. unfold cart_of, user_of in Hc. unfold get_cart_items. wp_steps.
  destruct (find _ (users s)) as [user |]; wp_steps; [| auto].
  rewrite Hc. wp_steps. auto.
Qed.


(** * The menu *)

Lemma get_categories_wp faulty s :
  wp faulty get_categories
     (fun r c _ => c = s /\ r = map Category.name (categories s))
     (fun e c _ => c = s /\ faulty = true /\ e = OperationalError) s s.
Proof.
  unfold get_categories. wp_steps. rewrite filter_all. auto.
Qed.

(** X19.  In every state the bot can reach, [get_categories] returns
    every name once, and every dictionary of the full listing of
    [get_products] names one of them as its category: with the listing
    by category, each product is listed under exactly one name that
    [get_categories] returns. *)
Theorem every_product_is_on_the_menu s :
  reachable s ->
  exists names all,
    call get_categories [] s = (Returned names, s)
    /\ call (get_products None) [] s = (Returned all, s)
    /\ NoDup names
    /\ Forall (fun info =>
                 exists name,
                   In name names
                   /\ ProductInfo.category info = Some name
                   /\ forall other,
                        in_category other info = true -> other = name)
         all.
Proof.
  intros Hr. apply reachable_keys in Hr.
  pose proof Hr as (_ & _ & _ & K4 & _).
  destruct (call_quiet_never _ _ (fun _ c _ => c = s) s
              (get_categories_wp false s)) as (names & s1 & w1 & H1 & -> & ->).
  destruct (call_quiet_never _ _ (fun _ c _ => c = s) s
              (get_products_wp false s None)) as (all & s2 & w2 & H2 & -> & ->).
  exists (map Category.name (categories s)), (map (listed s) (products s)).
  split; [exact H1 |]. split; [exact H2 |]. split; [exact K4 |].
  apply Forall_forall. intros info Hin.
  apply in_map_iff in Hin. destruct Hin as (p & <- & Hp).
  destruct (product_category s p Hr Hp) as [c Hc].
  exists (Category.name c). unfold listed, in_category. simpl. rewrite Hc.
  simpl. split; [| split; [reflexivity |]].
  - apply in_map. apply find_some in Hc. tauto.
  - intros other H. apply String.eqb_eq in H. congruence.
Qed.

Lemma every_product_is_on_the_menu_witness :
  exists names all,
    call get_categories [] example_order = (Returned names, example_order)
    /\ call (get_products None) [] example_order
       = (Returned all, example_order)
    /\ NoDup names.
Proof.
  destruct (every_product_is_on_the_menu example_order)
    as (names & all & H1 & H2 & H3 & _).
  - exact example_order_reachable.
  - exists names, all. auto.
Defined.
(** * The transaction of a call *)


